(** * Emergency-department simulation: model and verified properties

    The program under study ([src/main.py]) describes a hospital as a set of
    cooperating generator processes (patients, an arrival generator and a
    monitor) that run on a discrete-event engine with capacity-bounded
    resources.

    - The process code (Hospital methods, [patient], [monitor],
      [patient_generator], [main]) is embedded from the source, as terms of
      a small command tree in continuation-passing style: every statement
      that touches the engine is one node, and a [yield] is a node at which
      the process hands control back to the scheduler.
    - The engine itself (clock, event queue, resource pools) is imported by
      the source as a library and is not part of it; it is modelled from
      the specification (sections 3, 4.2, 4.3 and 7).

    Times and durations are Python floats in the source; they are rational
    numbers ([Q]) here.  Counts and capacities are Python ints ([Z], [nat]
    for list lengths). *)

From Stdlib Require Import List ZArith QArith Lqa Lia Bool Arith.
From Stdlib Require Import Sorting.Sorted Sorting.Permutation Qround.
Import ListNotations.
Local Open Scope Q_scope.

(** ** Numbers *)

(** [x < y] on floats, as a boolean. *)
Definition Qltb (x y : Q) : bool := negb (Qle_bool y x).

(** Python's [max(a, b)]: the first argument is kept unless the second is
    strictly larger. *)
Definition py_max (a b : Q) : Q := if Qltb a b then b else a.

(** Python's [int / int] (true division) for a list length over an int. *)
Definition ratio (n : nat) (d : Z) : Q := inject_Z (Z.of_nat n) / inject_Z d.

(** ** Names used by the processes *)

(** The five attributes of [Hospital] that hold a resource. *)
Inductive PoolName : Type :=
| Fast_doctor | Fast_nurse | Ed_doctor | Ed_nurse | Beds_pool.

(** The eight timed methods of [Hospital]. *)
Inductive Activity : Type :=
| Consult | Medication | Review | Admit
| Fast_lab | Fast_lab_wait | Ed_lab_wait | Ed_lab.

(** The keys of the [metrics] dictionary written by [monitor]. *)
Inductive MetricKey : Type :=
| K_timeline | K_queue_fast | K_queue_ed
| K_util_fast_doc | K_util_fast_nurse | K_util_ed_doc | K_util_ed_nurse
| K_util_beds.

(** A request handle: the object returned by [resource.request()]. *)
Definition Handle := nat.

(** ** Process code as a command tree

    One constructor per engine-facing statement of the source.  The last
    argument is the rest of the generator.  [Timeout] takes a [Task]: what
    the scheduler resumes when the delay has elapsed. *)
Inductive Proc : Type :=
| Done
    (* the generator returns *)
| GetNow (k : Q -> Proc)
    (* env.now *)
| PyRandom (k : Q -> Proc)
    (* random.random() *)
| NpExponential (scale : Q) (k : Q -> Proc)
    (* np.random.exponential(scale) *)
| Timeout (delay : Q) (k : Task)
    (* yield env.timeout(delay) *)
| Process (a : Activity) (k : Proc)
    (* yield env.process(hospital.a()) *)
| Spawn (child : Proc) (k : Proc)
    (* env.process(child), not waited for *)
| Request (p : PoolName) (k : Handle -> Proc)
    (* with hospital.p.request() as req: yield req *)
| Release (p : PoolName) (req : Handle) (k : Proc)
    (* leaving the with-block of req *)
| AppendWait (w : Q) (k : Proc)
    (* wait_times.append(w) *)
| QueueLen (p : PoolName) (k : nat -> Proc)
    (* len(hospital.p.queue) *)
| Count (p : PoolName) (k : nat -> Proc)
    (* hospital.p.count *)
| Capacity (p : PoolName) (k : Z -> Proc)
    (* hospital.p.capacity *)
| AppendMetric (key : MetricKey) (v : Q) (k : Proc)
    (* metrics[key].append(v) *)
with Task : Type :=
| Resume (p : Proc)
    (* continue a generator after its yield *)
| MonitorLoop (interval : Q).
    (* next iteration of monitor's [while True] *)

Declare Scope proc_scope.
Delimit Scope proc_scope with proc.
Notation "x <- c ;; k" := (c (fun x => k))
  (at level 61, c at next level, right associativity, only parsing) : proc_scope.
Notation "c ;;; k" := (c k)
  (at level 61, right associativity, only parsing) : proc_scope.
Local Open Scope proc_scope.

(** [with pool.request() as req: yield req; body]: acquire, run the body,
    release on leaving the block, go on with [k]. *)
Definition with_request (p : PoolName) (body : Proc -> Proc) (k : Proc) : Proc :=
  req <- Request p ;; body (Release p req k).

(** ** src/main.py, [patient] (lines 47-92) *)

Definition patient (name : nat) : Proc :=
  arrival_time <- GetNow ;;
  let record :=
    now <- GetNow ;; AppendWait (now - arrival_time) ;;; Done in
  u <- PyRandom ;;
  let is_fast_track := Qltb u 0.3 in
  if is_fast_track then
    let medication_step :=
      with_request Fast_nurse (Process Medication) record in
    with_request Fast_doctor (Process Consult) (
      u1 <- PyRandom ;;
      if Qltb u1 0.3 then
        with_request Fast_nurse (Process Fast_lab) (
        Process Fast_lab_wait (
        with_request Fast_doctor (Process Review)
        medication_step))
      else medication_step)
  else
    let disposition :=
      u2 <- PyRandom ;;
      if Qltb u2 0.5 then
        with_request Beds_pool (Process Admit) record
      else
        with_request Ed_nurse (Process Medication) record in
    with_request Ed_doctor (Process Consult) (
      u1 <- PyRandom ;;
      if Qltb u1 0.7 then
        with_request Ed_nurse (Process Ed_lab) (
        Process Ed_lab_wait (
        with_request Ed_doctor (Process Review)
        disposition))
      else disposition).

(** ** src/main.py, [monitor] (lines 96-108)

    One iteration of the [while True] body; the closing
    [yield env.timeout(interval)] resumes into the next iteration. *)
Definition monitor (interval : Q) : Proc :=
  now <- GetNow ;;
  AppendMetric K_timeline now ;;;
  qfd <- QueueLen Fast_doctor ;; qfn <- QueueLen Fast_nurse ;;
  AppendMetric K_queue_fast (inject_Z (Z.of_nat (qfd + qfn))) ;;;
  qed <- QueueLen Ed_doctor ;; qen <- QueueLen Ed_nurse ;;
  AppendMetric K_queue_ed (inject_Z (Z.of_nat (qed + qen))) ;;;
  n <- Count Fast_doctor ;; c <- Capacity Fast_doctor ;;
  AppendMetric K_util_fast_doc (ratio n c) ;;;
  n <- Count Fast_nurse ;; c <- Capacity Fast_nurse ;;
  AppendMetric K_util_fast_nurse (ratio n c) ;;;
  n <- Count Ed_doctor ;; c <- Capacity Ed_doctor ;;
  AppendMetric K_util_ed_doc (ratio n c) ;;;
  n <- Count Ed_nurse ;; c <- Capacity Ed_nurse ;;
  AppendMetric K_util_ed_nurse (ratio n c) ;;;
  n <- Count Beds_pool ;; c <- Capacity Beds_pool ;;
  AppendMetric K_util_beds (ratio n c) ;;;
  Timeout interval (MonitorLoop interval).

(** The default [interval=5] of [monitor]. *)
Definition monitor_interval : Q := 5.

(** What the scheduler runs when it resumes a task. *)
Definition resume (t : Task) : Proc :=
  match t with
  | Resume p => p
  | MonitorLoop interval => monitor interval
  end.

(** ** src/main.py, [patient_generator] (lines 211-214)

    [for i in range(n_patients)]: [remaining] iterations are left and the
    loop variable is [i]. *)
Fixpoint patient_generator_from (i remaining : nat) (arrival_rate : Q) : Proc :=
  match remaining with
  | O => Done
  | S remaining' =>
      Spawn (patient (i + 1)) (
      d <- NpExponential arrival_rate ;;
      Timeout d (Resume (patient_generator_from (S i) remaining' arrival_rate)))
  end.

(** [range(n)] is empty for [n <= 0]. *)
Definition patient_generator (n_patients : Z) (arrival_rate : Q) : Proc :=
  patient_generator_from 0 (Z.to_nat n_patients) arrival_rate.

(** ** Random variate source

    The two generators the source draws from: Python's [random] module
    and numpy's global generator.  Both are global mutable state in the
    source, so each draw takes a state and returns the next one. *)
Record RandomSource : Type := {
  PyState : Type;
  NpState : Type;
  py_seed : Z -> PyState;                        (* random.seed(n) *)
  py_random : PyState -> Q * PyState;            (* random.random() *)
  np_seed : Z -> NpState;                        (* np.random.seed(n) *)
  np_normal : Q -> Q -> NpState -> Q * NpState;  (* np.random.normal(loc, scale) *)
  np_exponential : Q -> NpState -> Q * NpState   (* np.random.exponential(scale) *)
}.

(** ** Errors of the engine (taxonomy of section 7 of the specification) *)
Inductive Error : Type :=
| InvalidConfiguration
| InvalidDelay
| DoubleRelease.

Inductive Result (A : Type) : Type :=
| Ok (a : A)
| Fail (e : Error).
Arguments Ok {A} a.
Arguments Fail {A} e.

(** ** Resource pool *)

(** Modelled from the spec: the resource pool of the engine ([Resource] of
    the library the source imports), section 3: a capacity, the units in
    use and the FIFO wait list; a waiter is parked with its continuation.
    The occupancy is [count], the number of users. *)
Record Resource : Type := {
  capacity : Z;
  users : list Handle;
  queue : list (Handle * Proc)
}.

Definition count (r : Resource) : nat := length (users r).

(** The handles waiting, head first. *)
Definition waiting (r : Resource) : list Handle := map fst (queue r).

(** Modelled from the spec: creation of a pool, which section 6 says fails
    with [InvalidConfiguration] for a capacity that is not positive. *)
Definition new_resource (cap : Z) : Result Resource :=
  if (cap <=? 0)%Z then Fail InvalidConfiguration
  else Ok {| capacity := cap; users := []; queue := [] |}.

(** Modelled from the spec: [acquire()] of section 4.2.  With room left the
    unit is granted at once ([true]); otherwise the caller is appended to
    the wait list ([false]). *)
Definition acquire (h : Handle) (cont : Proc) (r : Resource) : bool * Resource :=
  if (Z.of_nat (count r) <? capacity r)%Z then
    (true, {| capacity := capacity r; users := users r ++ [h]; queue := queue r |})
  else
    (false, {| capacity := capacity r; users := users r;
               queue := queue r ++ [(h, cont)] |}).

Fixpoint remove_first (h : Handle) (l : list Handle) : list Handle :=
  match l with
  | [] => []
  | x :: l' => if Nat.eqb h x then l' else x :: remove_first h l'
  end.

(** Modelled from the spec: [release(handle)] of section 4.2.  The unit is
    given back; the head of a non-empty wait list is admitted in the same
    call and returned so that the scheduler resumes it.  A handle that
    holds no unit is the [DoubleRelease] error. *)
Definition release (h : Handle) (r : Resource)
  : Result (Resource * option (Handle * Proc)) :=
  if existsb (Nat.eqb h) (users r) then
    let held := remove_first h (users r) in
    match queue r with
    | [] =>
        Ok ({| capacity := capacity r; users := held; queue := [] |}, None)
    | w :: ws =>
        Ok ({| capacity := capacity r; users := held ++ [fst w]; queue := ws |},
            Some w)
    end
  else Fail DoubleRelease.

(** ** src/main.py, [Hospital.__init__] (lines 13-19) *)
Record Hospital : Type := {
  fast_doctor : Resource;
  fast_nurse : Resource;
  ed_doctor : Resource;
  ed_nurse : Resource;
  beds : Resource
}.

Definition Hospital_init (fast_doctors fast_nurses ed_doctors ed_nurses n_beds : Z)
  : Result Hospital :=
  match new_resource fast_doctors with Fail e => Fail e | Ok fd =>
  match new_resource fast_nurses with Fail e => Fail e | Ok fn =>
  match new_resource ed_doctors with Fail e => Fail e | Ok ed =>
  match new_resource ed_nurses with Fail e => Fail e | Ok en =>
  match new_resource n_beds with Fail e => Fail e | Ok b =>
  Ok {| fast_doctor := fd; fast_nurse := fn; ed_doctor := ed;
        ed_nurse := en; beds := b |}
  end end end end end.

Definition pool (h : Hospital) (p : PoolName) : Resource :=
  match p with
  | Fast_doctor => fast_doctor h
  | Fast_nurse => fast_nurse h
  | Ed_doctor => ed_doctor h
  | Ed_nurse => ed_nurse h
  | Beds_pool => beds h
  end.

Definition set_pool (h : Hospital) (p : PoolName) (r : Resource) : Hospital :=
  match p with
  | Fast_doctor => {| fast_doctor := r; fast_nurse := fast_nurse h;
                      ed_doctor := ed_doctor h; ed_nurse := ed_nurse h;
                      beds := beds h |}
  | Fast_nurse => {| fast_doctor := fast_doctor h; fast_nurse := r;
                     ed_doctor := ed_doctor h; ed_nurse := ed_nurse h;
                     beds := beds h |}
  | Ed_doctor => {| fast_doctor := fast_doctor h; fast_nurse := fast_nurse h;
                    ed_doctor := r; ed_nurse := ed_nurse h; beds := beds h |}
  | Ed_nurse => {| fast_doctor := fast_doctor h; fast_nurse := fast_nurse h;
                   ed_doctor := ed_doctor h; ed_nurse := r; beds := beds h |}
  | Beds_pool => {| fast_doctor := fast_doctor h; fast_nurse := fast_nurse h;
                    ed_doctor := ed_doctor h; ed_nurse := ed_nurse h;
                    beds := r |}
  end.

(** ** The [metrics] dictionary: one list per key *)
Record Metrics : Type := {
  timeline : list Q;
  queue_fast : list Q;
  queue_ed : list Q;
  util_fast_doc : list Q;
  util_fast_nurse : list Q;
  util_ed_doc : list Q;
  util_ed_nurse : list Q;
  util_beds : list Q
}.

(** [defaultdict(list)]: every key starts empty. *)
Definition empty_metrics : Metrics :=
  {| timeline := []; queue_fast := []; queue_ed := [];
     util_fast_doc := []; util_fast_nurse := []; util_ed_doc := [];
     util_ed_nurse := []; util_beds := [] |}.

Definition metric (m : Metrics) (k : MetricKey) : list Q :=
  match k with
  | K_timeline => timeline m
  | K_queue_fast => queue_fast m
  | K_queue_ed => queue_ed m
  | K_util_fast_doc => util_fast_doc m
  | K_util_fast_nurse => util_fast_nurse m
  | K_util_ed_doc => util_ed_doc m
  | K_util_ed_nurse => util_ed_nurse m
  | K_util_beds => util_beds m
  end.

Definition append_metric (k : MetricKey) (v : Q) (m : Metrics) : Metrics :=
  let app (k' : MetricKey) (same : bool) :=
    if same then metric m k' ++ [v] else metric m k' in
  {| timeline := app K_timeline
       match k with K_timeline => true | _ => false end;
     queue_fast := app K_queue_fast
       match k with K_queue_fast => true | _ => false end;
     queue_ed := app K_queue_ed
       match k with K_queue_ed => true | _ => false end;
     util_fast_doc := app K_util_fast_doc
       match k with K_util_fast_doc => true | _ => false end;
     util_fast_nurse := app K_util_fast_nurse
       match k with K_util_fast_nurse => true | _ => false end;
     util_ed_doc := app K_util_ed_doc
       match k with K_util_ed_doc => true | _ => false end;
     util_ed_nurse := app K_util_ed_nurse
       match k with K_util_ed_nurse => true | _ => false end;
     util_beds := app K_util_beds
       match k with K_util_beds => true | _ => false end |}.

(** ** Events *)

(** Modelled from the spec: the event of section 3, a (timestamp,
    sequence-tiebreak, resumption-target) triple. *)
Record Event : Type := {
  time : Q;
  seq : nat;
  task : Task
}.

(** Modelled from the spec: the order of the event queue, by timestamp and
    then by sequence number (the stable tie-break of section 3). *)
Definition key_ltb (t1 : Q) (s1 : nat) (t2 : Q) (s2 : nat) : bool :=
  Qltb t1 t2 || (Qeq_bool t1 t2 && (s1 <? s2)%nat).

Definition event_ltb (e1 e2 : Event) : bool :=
  key_ltb (time e1) (seq e1) (time e2) (seq e2).

(** Modelled from the spec: insertion into the event queue, which is kept
    earliest first, so that the scheduler pops its head. *)
Fixpoint insert_event (e : Event) (q : list Event) : list Event :=
  match q with
  | [] => [e]
  | x :: q' => if event_ltb e x then e :: q else x :: insert_event e q'
  end.

(** ** Command-line arguments of [main] (src/main.py, lines 191-200) *)
Module Args.
Record t : Type := {
  fast_doctors : Z;
  fast_nurses : Z;
  ed_doctors : Z;
  ed_nurses : Z;
  beds : Z;
  n_patients : Z;
  sim_time : Z;
  arrival_rate : Q
}.

(** The argparse defaults. *)
Definition default : t :=
  {| fast_doctors := 1; fast_nurses := 1; ed_doctors := 5; ed_nurses := 5;
     beds := 5; n_patients := 144; sim_time := 1440; arrival_rate := 10 |}.
End Args.

Section Engine.

Variable R : RandomSource.

(** ** src/main.py, the timed methods of [Hospital] (lines 21-43)

    Each method draws one normal variate and yields one timeout; it is
    embedded as the function from the generator state to the delay it
    yields and the next generator state. *)
Definition consult (g : NpState R) : Q * NpState R :=
  let (x, g') := np_normal R 20 5 g in (py_max 5 x, g').

Definition medication (g : NpState R) : Q * NpState R :=
  let (x, g') := np_normal R 15 3 g in (py_max 5 x, g').

Definition review (g : NpState R) : Q * NpState R :=
  let (x, g') := np_normal R 10 3 g in (py_max 3 x, g').

(** The method [admit] of the source, whose name is a reserved word here. *)
Definition admit_ (g : NpState R) : Q * NpState R :=
  let (x, g') := np_normal R 30 5 g in (py_max 5 x, g').

Definition fast_lab (g : NpState R) : Q * NpState R :=
  let (x, g') := np_normal R 6 3 g in (py_max 1 x, g').

Definition fast_lab_wait (g : NpState R) : Q * NpState R :=
  let (x, g') := np_normal R 25 5 g in (py_max 10 x, g').

Definition ed_lab_wait (g : NpState R) : Q * NpState R :=
  let (x, g') := np_normal R 40 10 g in (py_max 15 x, g').

Definition ed_lab (g : NpState R) : Q * NpState R :=
  let (x, g') := np_normal R 10 4 g in (py_max 3 x, g').

(** [hospital.a()] for each method name. *)
Definition hospital_method (a : Activity) : NpState R -> Q * NpState R :=
  match a with
  | Consult => consult
  | Medication => medication
  | Review => review
  | Admit => admit_
  | Fast_lab => fast_lab
  | Fast_lab_wait => fast_lab_wait
  | Ed_lab_wait => ed_lab_wait
  | Ed_lab => ed_lab
  end.

(** ** State of a run

    The clock and the event queue of the scheduler, the hospital, the two
    global generators, and the two result containers of [main].  [trace]
    is the history of the run: timestamp and sequence number of every
    event executed so far, latest first. *)
Record Env : Type := {
  now : Q;
  next_seq : nat;
  events : list Event;
  next_handle : Handle;
  hospital : Hospital;
  py_rng : PyState R;
  np_rng : NpState R;
  wait_times : list Q;
  metrics : Metrics;
  trace : list (Q * nat)
}.

Definition set_clock (t : Q) (ev : list Event) (tr : list (Q * nat)) (env : Env) : Env :=
  {| now := t; next_seq := next_seq env; events := ev;
     next_handle := next_handle env; hospital := hospital env;
     py_rng := py_rng env; np_rng := np_rng env;
     wait_times := wait_times env; metrics := metrics env; trace := tr |}.

Definition push_event (t : Task) (at_time : Q) (env : Env) : Env :=
  {| now := now env; next_seq := S (next_seq env);
     events := insert_event {| time := at_time; seq := next_seq env; task := t |}
                 (events env);
     next_handle := next_handle env; hospital := hospital env;
     py_rng := py_rng env; np_rng := np_rng env;
     wait_times := wait_times env; metrics := metrics env; trace := trace env |}.

Definition set_hospital (h : Hospital) (env : Env) : Env :=
  {| now := now env; next_seq := next_seq env; events := events env;
     next_handle := next_handle env; hospital := h;
     py_rng := py_rng env; np_rng := np_rng env;
     wait_times := wait_times env; metrics := metrics env; trace := trace env |}.

Definition fresh_handle (env : Env) : Env :=
  {| now := now env; next_seq := next_seq env; events := events env;
     next_handle := S (next_handle env); hospital := hospital env;
     py_rng := py_rng env; np_rng := np_rng env;
     wait_times := wait_times env; metrics := metrics env; trace := trace env |}.

Definition set_py_rng (g : PyState R) (env : Env) : Env :=
  {| now := now env; next_seq := next_seq env; events := events env;
     next_handle := next_handle env; hospital := hospital env;
     py_rng := g; np_rng := np_rng env;
     wait_times := wait_times env; metrics := metrics env; trace := trace env |}.

Definition set_np_rng (g : NpState R) (env : Env) : Env :=
  {| now := now env; next_seq := next_seq env; events := events env;
     next_handle := next_handle env; hospital := hospital env;
     py_rng := py_rng env; np_rng := g;
     wait_times := wait_times env; metrics := metrics env; trace := trace env |}.

Definition set_wait_times (w : list Q) (env : Env) : Env :=
  {| now := now env; next_seq := next_seq env; events := events env;
     next_handle := next_handle env; hospital := hospital env;
     py_rng := py_rng env; np_rng := np_rng env;
     wait_times := w; metrics := metrics env; trace := trace env |}.

Definition set_metrics (m : Metrics) (env : Env) : Env :=
  {| now := now env; next_seq := next_seq env; events := events env;
     next_handle := next_handle env; hospital := hospital env;
     py_rng := py_rng env; np_rng := np_rng env;
     wait_times := wait_times env; metrics := m; trace := trace env |}.

(** ** Event scheduler *)

(** Modelled from the spec: [schedule_after(delay, resumption)] of section
    4.3: the event is inserted at [clock + delay] with the next sequence
    number; a negative delay is the [InvalidDelay] error. *)
Definition schedule_after (delay : Q) (t : Task) (env : Env) : Result Env :=
  if Qltb delay 0 then Fail InvalidDelay
  else Ok (push_event t (now env + delay) env).

(** Modelled from the spec: the scheduler side of [request()].  A fresh
    handle is made and [acquire] decides between the fast path and the
    wait list; [cont] is the caller's code after the request. *)
Definition do_request (p : PoolName) (cont : Proc) (env : Env) : bool * Env :=
  let (granted, r) := acquire (next_handle env) cont (pool (hospital env) p) in
  (granted, set_hospital (set_pool (hospital env) p r) (fresh_handle env)).

(** Modelled from the spec: the scheduler side of [release()].  The
    process admitted by [release] is resumed by an event at the current
    instant (the zero-duration handoff of section 4.2). *)
Definition do_release (p : PoolName) (h : Handle) (env : Env) : Result Env :=
  match release h (pool (hospital env) p) with
  | Fail e => Fail e
  | Ok (r, admitted) =>
      let env' := set_hospital (set_pool (hospital env) p r) env in
      match admitted with
      | None => Ok env'
      | Some w => schedule_after 0 (Resume (snd w)) env'
      end
  end.

(** Modelled from the spec: running one process until it suspends or
    returns (the suspension model of section 4.3).  A process suspends at
    a timed delay, whose event carries its continuation, or in the wait
    list of a full pool.  The commands themselves are those of the source:
    [Process a k] draws the delay of the method [a] and resumes [k] when it
    has elapsed; [Spawn] starts the child by an event at the current
    instant. *)
Fixpoint exec (p : Proc) (env : Env) : Result Env :=
  match p with
  | Done => Ok env
  | GetNow k => exec (k (now env)) env
  | PyRandom k =>
      let (u, g) := py_random R (py_rng env) in
      exec (k u) (set_py_rng g env)
  | NpExponential scale k =>
      let (x, g) := np_exponential R scale (np_rng env) in
      exec (k x) (set_np_rng g env)
  | Timeout delay t => schedule_after delay t env
  | Process a k =>
      let (d, g) := hospital_method a (np_rng env) in
      schedule_after d (Resume k) (set_np_rng g env)
  | Spawn child k =>
      match schedule_after 0 (Resume child) env with
      | Fail e => Fail e
      | Ok env' => exec k env'
      end
  | Request p k =>
      let h := next_handle env in
      let (granted, env') := do_request p (k h) env in
      if granted then exec (k h) env' else Ok env'
  | Release p h k =>
      match do_release p h env with
      | Fail e => Fail e
      | Ok env' => exec k env'
      end
  | AppendWait w k => exec k (set_wait_times (wait_times env ++ [w]) env)
  | QueueLen p k => exec (k (length (queue (pool (hospital env) p)))) env
  | Count p k => exec (k (count (pool (hospital env) p))) env
  | Capacity p k => exec (k (capacity (pool (hospital env) p))) env
  | AppendMetric key v k => exec k (set_metrics (append_metric key v (metrics env)) env)
  end.

(** One turn of the scheduler loop. *)
Inductive Turn : Type :=
| Continue (env : Env)   (* an event was executed *)
| Stop (env : Env)       (* horizon reached or no event left *)
| Crash (e : Error).     (* the resumed process raised *)

(** Modelled from the spec: one iteration of [run(until)] of section 4.3:
    the earliest event is popped, the clock advanced to its timestamp and
    its process resumed; the loop stops when the next timestamp exceeds
    [until] or the queue is empty, and leaves the clock at [until]. *)
Definition step (until : Q) (env : Env) : Turn :=
  match events env with
  | [] => Stop (set_clock until [] (trace env) env)
  | e :: rest =>
      if Qltb until (time e) then Stop (set_clock until (events env) (trace env) env)
      else
        match exec (resume (task e))
                (set_clock (time e) rest ((time e, seq e) :: trace env) env) with
        | Ok env' => Continue env'
        | Fail err => Crash err
        end
  end.

Inductive Outcome : Type :=
| Halted (env : Env)       (* normal completion of the run *)
| Raised (e : Error)       (* the run was aborted by an error *)
| OutOfFuel (env : Env).   (* still running after [fuel] events *)

(** Modelled from the spec: [run(until)] of section 4.3, executing at
    most [fuel] events. *)
Fixpoint run (fuel : nat) (until : Q) (env : Env) : Outcome :=
  match fuel with
  | O => OutOfFuel env
  | S fuel' =>
      match step until env with
      | Continue env' => run fuel' until env'
      | Stop env' => Halted env'
      | Crash e => Raised e
      end
  end.

(** Seeding replaces the state of a generator, whatever it was. *)
Definition random_seed (n : Z) (g : PyState R) : PyState R := py_seed R n.
Definition np_random_seed (n : Z) (g : NpState R) : NpState R := np_seed R n.

(** ** src/main.py, [main] (lines 190-218), up to the end of [env.run]

    [py0] and [np0] are the states of the two global generators when
    [main] is entered. *)
Definition setup (py0 : PyState R) (np0 : NpState R) (args : Args.t) : Result Env :=
  let py := random_seed 42 py0 in        (* random.seed(42) *)
  let np := np_random_seed 42 np0 in     (* np.random.seed(42) *)
  match Hospital_init (Args.fast_doctors args) (Args.fast_nurses args)
          (Args.ed_doctors args) (Args.ed_nurses args) (Args.beds args) with
  | Fail e => Fail e
  | Ok h =>
      let env :=                          (* env = simpy.Environment() *)
        {| now := 0; next_seq := 0%nat; events := []; next_handle := 0%nat;
           hospital := h; py_rng := py; np_rng := np;
           wait_times := []; metrics := empty_metrics; trace := [] |} in
      match schedule_after 0
              (Resume (patient_generator (Args.n_patients args)
                         (Args.arrival_rate args))) env with
      | Fail e => Fail e
      | Ok env1 => schedule_after 0 (MonitorLoop monitor_interval) env1
      end
  end.

Definition main (py0 : PyState R) (np0 : NpState R) (args : Args.t) (fuel : nat)
  : Outcome :=
  match setup py0 np0 args with
  | Fail e => Raised e
  | Ok env => run fuel (inject_Z (Args.sim_time args)) env
  end.

End Engine.

Arguments now {R} e.
Arguments next_seq {R} e.
Arguments events {R} e.
Arguments next_handle {R} e.
Arguments hospital {R} e.
Arguments py_rng {R} e.
Arguments np_rng {R} e.
Arguments wait_times {R} e.
Arguments metrics {R} e.
Arguments trace {R} e.
Arguments exec {R} p env.
Arguments step {R} until env.
Arguments run {R} fuel until env.
Arguments schedule_after {R} delay t env.
Arguments do_release {R} p h env.
Arguments do_request {R} p cont env.
Arguments push_event {R} t at_time env.
Arguments set_clock {R} t ev tr env.
Arguments set_hospital {R} h env.
Arguments fresh_handle {R} env.
Arguments set_py_rng {R} g env.
Arguments set_np_rng {R} g env.
Arguments set_wait_times {R} w env.
Arguments set_metrics {R} m env.
Arguments Continue {R} env.
Arguments Stop {R} env.
Arguments Crash {R} e.
Arguments Halted {R} env.
Arguments Raised {R} e.
Arguments OutOfFuel {R} env.

(** ** A concrete random source for running the model

    The generator state is the number of draws made so far; the variates
    cycle through fixed tables. *)
Definition table_get (tbl : list Q) (n : nat) : Q :=
  nth (n mod length tbl) tbl 0.

Definition uniform_table : list Q := [0.1; 0.6; 0.2; 0.8; 0.4; 0.9; 0.25; 0.75].
Definition normal_table : list Q := [0; 1; -1; 0.5; -0.5; 2; -4].
Definition exponential_table : list Q := [1; 0.5; 2; 0.25; 1.5].

Definition table_source : RandomSource :=
  {| PyState := nat;
     NpState := nat;
     py_seed := fun _ => 0%nat;
     py_random := fun n => (table_get uniform_table n, S n);
     np_seed := fun _ => 0%nat;
     np_normal := fun loc scale n => (loc + scale * table_get normal_table n, S n);
     np_exponential := fun scale n => (scale * table_get exponential_table n, S n) |}.

(** ** The journey of one process

    What one process does from its first statement to its return, as seen
    from outside: the values its calls return are supplied by the caller
    ([uniforms] for [random.random()], [exponentials] for
    [np.random.exponential], [lapses] for the time that passes at each
    request and each timed activity).  The result is the list of steps
    and the clock at which the process returns. *)
Inductive Step : Type :=
| Acquire (p : PoolName)
| Timed (a : Activity)
| Give_back (p : PoolName)
| Record_wait (w : Q)
| Spawned (child : Proc) (at_time : Q)
| Drew (scale : Q)
| Slept (delay : Q).

Fixpoint observe (p : Proc) (clock : Q) (uniforms exponentials lapses : list Q)
  (h : Handle) : list Step * Q :=
  match p with
  | Done => ([], clock)
  | GetNow k => observe (k clock) clock uniforms exponentials lapses h
  | PyRandom k =>
      observe (k (hd 0 uniforms)) clock (tl uniforms) exponentials lapses h
  | NpExponential scale k =>
      let (s, c) := observe (k (hd 0 exponentials)) clock uniforms
                      (tl exponentials) lapses h in
      (Drew scale :: s, c)
  | Timeout delay t =>
      match t with
      | Resume k =>
          let (s, c) := observe k (clock + delay) uniforms exponentials lapses h in
          (Slept delay :: s, c)
      | MonitorLoop _ => ([Slept delay], clock + delay)
      end
  | Process a k =>
      let (s, c) := observe k (clock + hd 0 lapses) uniforms exponentials
                      (tl lapses) h in
      (Timed a :: s, c)
  | Spawn child k =>
      let (s, c) := observe k clock uniforms exponentials lapses h in
      (Spawned child clock :: s, c)
  | Request p k =>
      let (s, c) := observe (k h) (clock + hd 0 lapses) uniforms exponentials
                      (tl lapses) (S h) in
      (Acquire p :: s, c)
  | Release p _ k =>
      let (s, c) := observe k clock uniforms exponentials lapses h in
      (Give_back p :: s, c)
  | AppendWait w k =>
      let (s, c) := observe k clock uniforms exponentials lapses h in
      (Record_wait w :: s, c)
  | QueueLen _ k => observe (k 0%nat) clock uniforms exponentials lapses h
  | Count _ k => observe (k 0%nat) clock uniforms exponentials lapses h
  | Capacity _ k => observe (k 1%Z) clock uniforms exponentials lapses h
  | AppendMetric _ _ k => observe k clock uniforms exponentials lapses h
  end.

(** The pools a journey touches, the times at which it spawns and the
    processes it spawns. *)
Definition pools_touched (steps : list Step) : list PoolName :=
  flat_map (fun s => match s with
                     | Acquire p | Give_back p => [p]
                     | _ => []
                     end) steps.

Definition spawn_times (steps : list Step) : list Q :=
  flat_map (fun s => match s with Spawned _ t => [t] | _ => [] end) steps.

Definition spawned_processes (steps : list Step) : list Proc :=
  flat_map (fun s => match s with Spawned child _ => [child] | _ => [] end) steps.

(** ** The patient state machine in the words of the specification
    (section 4.4), to be compared with [patient] *)
Inductive Track : Type := FastTrack | MainDepartment.

(** The three decisions of a patient, from three uniform draws: the track
    (0.3 fast track, else main department), the lab sub-sequence (0.3 on
    the fast track, 0.7 in the main department) and, in the main
    department, admission (0.5). *)
Definition spec_track (u : Q) : Track :=
  if Qltb u 0.3 then FastTrack else MainDepartment.

Definition spec_lab (tr : Track) (u : Q) : bool :=
  match tr with
  | FastTrack => Qltb u 0.3
  | MainDepartment => Qltb u 0.7
  end.

Definition spec_admit (u : Q) : bool := Qltb u 0.5.

Definition spec_path (tr : Track) (lab admitted : bool) : list Step :=
  match tr with
  | FastTrack =>
      [Acquire Fast_doctor; Timed Consult; Give_back Fast_doctor]
      ++ (if lab then
            [Acquire Fast_nurse; Timed Fast_lab; Give_back Fast_nurse;
             Timed Fast_lab_wait;
             Acquire Fast_doctor; Timed Review; Give_back Fast_doctor]
          else [])
      ++ [Acquire Fast_nurse; Timed Medication; Give_back Fast_nurse]
  | MainDepartment =>
      [Acquire Ed_doctor; Timed Consult; Give_back Ed_doctor]
      ++ (if lab then
            [Acquire Ed_nurse; Timed Ed_lab; Give_back Ed_nurse;
             Timed Ed_lab_wait;
             Acquire Ed_doctor; Timed Review; Give_back Ed_doctor]
          else [])
      ++ (if admitted then
            [Acquire Beds_pool; Timed Admit; Give_back Beds_pool]
          else
            [Acquire Ed_nurse; Timed Medication; Give_back Ed_nurse])
  end.

(** The pools of each track. *)
Definition track_pools (tr : Track) : list PoolName :=
  match tr with
  | FastTrack => [Fast_doctor; Fast_nurse]
  | MainDepartment => [Ed_doctor; Ed_nurse; Beds_pool]
  end.

(** The parameter table of section 4.4: (mean, stddev, floor). *)
Definition spec_parameters (a : Activity) : Q * Q * Q :=
  match a with
  | Consult => (20, 5, 5)
  | Medication => (15, 3, 5)
  | Review => (10, 3, 3)
  | Admit => (30, 5, 5)
  | Fast_lab => (6, 3, 1)
  | Fast_lab_wait => (25, 5, 10)
  | Ed_lab => (10, 4, 3)
  | Ed_lab_wait => (40, 10, 15)
  end.

(** [normal_floor(mean, stddev, floor)] of section 4.1. *)
Definition spec_normal_floor (R : RandomSource) (mean stddev floor : Q)
  (g : NpState R) : Q * NpState R :=
  let (sample, g') := np_normal R mean stddev g in
  (if Qle_bool floor sample then sample else floor, g').

(** Arrival times in the words of section 4.6: for each patient a delay is
    sampled and the patient is spawned at the resulting time. *)
Fixpoint spec_arrivals (clock : Q) (delays : list Q) (n : nat) : list Q :=
  match n with
  | O => []
  | S n' => let t := clock + hd 0 delays in t :: spec_arrivals t (tl delays) n'
  end.

(** Arrival times as [patient_generator] produces them: a patient is
    spawned at the current time, then a delay is sampled and waited. *)
Fixpoint code_arrivals (clock : Q) (delays : list Q) (n : nat) : list Q :=
  match n with
  | O => []
  | S n' => clock :: code_arrivals (clock + hd 0 delays) (tl delays) n'
  end.

(** The whole journey of the arrival generator, in the same order; the
    patient spawned in the iteration of loop variable [i] is
    [patient (i + 1)] (["Patient {i+1}"] in the source). *)
Fixpoint code_generator_steps (i : nat) (clock rate : Q) (delays : list Q)
  (n : nat) : list Step :=
  match n with
  | O => []
  | S n' =>
      Spawned (patient (i + 1)) clock :: Drew rate :: Slept (hd 0 delays)
      :: code_generator_steps (S i) (clock + hd 0 delays) rate (tl delays) n'
  end.

(** The patients numbered from [first + 1], [n] of them. *)
Definition patients_from (first n : nat) : list Proc :=
  map (fun i => patient (i + 1)) (List.seq first n).

(** ** Properties of states *)

(** Every pool holds no more units than its capacity. *)
Definition within_capacity (h : Hospital) : Prop :=
  forall p, (0 <= Z.of_nat (count (pool h p)) <= capacity (pool h p))%Z.

(** Order of execution: earlier timestamp, or equal timestamps and
    earlier schedule call. *)
Definition key_lt (a b : Q * nat) : Prop :=
  fst a < fst b \/ (fst a == fst b /\ (snd a < snd b)%nat).

Definition key (e : Event) : Q * nat := (time e, seq e).

(** The scheduler state is consistent: the queue is ordered, holds no
    event of the past and no sequence number of the future, and every
    executed event precedes every pending one. *)
Record scheduled {R : RandomSource} (env : Env R) : Prop := {
  queue_sorted :
    StronglySorted (fun e1 e2 => key_lt (key e1) (key e2)) (events env);
  queue_future :
    Forall (fun e => now env <= time e /\ (seq e < next_seq env)%nat) (events env);
  trace_past :
    Forall (fun k => fst k <= now env /\ (snd k < next_seq env)%nat) (trace env);
  trace_sorted :
    StronglySorted (fun later earlier => key_lt earlier later) (trace env);
  trace_before_queue :
    forall k e, In k (trace env) -> In e (events env) -> key_lt k (key e)
}.

(** Handles in the wait lists are distinct and were all handed out. *)
Definition handles_fresh {R : RandomSource} (env : Env R) : Prop :=
  forall p, NoDup (waiting (pool (hospital env) p))
            /\ Forall (fun h => (h < next_handle env)%nat)
                 (waiting (pool (hospital env) p)).

(** [a] waits ahead of [b] in a wait list. *)
Definition ahead (a b : Handle) (l : list Handle) : Prop :=
  exists l1 l2 l3, l = l1 ++ a :: l2 ++ b :: l3.

(** The state reached by a run, when there is one. *)
Definition final_state {R : RandomSource} (o : Outcome R) : option (Env R) :=
  match o with
  | Halted env => Some env
  | OutOfFuel env => Some env
  | Raised _ => None
  end.

(** The consistency of the scheduler together with the horizon. *)
Definition on_schedule {R : RandomSource} (until : Q) (env : Env R) : Prop :=
  scheduled env /\ now env <= until.

(** While [a], which waits ahead of [b], is still waiting, so is [b]. *)
Definition keeps_order {R : RandomSource} (p : PoolName) (a b : Handle)
  (env : Env R) : Prop :=
  handles_fresh env
  /\ (a < next_handle env)%nat
  /\ (In a (waiting (pool (hospital env) p)) ->
      ahead a b (waiting (pool (hospital env) p))).

(** ** Configurations and a scenario used to run the model *)

(** Three patients, every capacity 1, thirty minutes. *)
Definition small_args : Args.t :=
  {| Args.fast_doctors := 1; Args.fast_nurses := 1; Args.ed_doctors := 1;
     Args.ed_nurses := 1; Args.beds := 1; Args.n_patients := 3;
     Args.sim_time := 30; Args.arrival_rate := 2 |}.

(** Five patients arriving within a few minutes, every capacity 1. *)
Definition crowded_args : Args.t :=
  {| Args.fast_doctors := 1; Args.fast_nurses := 1; Args.ed_doctors := 1;
     Args.ed_nurses := 1; Args.beds := 1; Args.n_patients := 5;
     Args.sim_time := 60; Args.arrival_rate := 1 |}.

(** No patient at all. *)
Definition no_patient_args : Args.t :=
  {| Args.fast_doctors := 1; Args.fast_nurses := 1; Args.ed_doctors := 1;
     Args.ed_nurses := 1; Args.beds := 1; Args.n_patients := 0;
     Args.sim_time := 10; Args.arrival_rate := 10 |}.

(** Two processes that request the same pool of capacity 1 at the same
    timestamp, each holding its unit for one consultation. *)
Definition contender : Proc :=
  with_request Fast_doctor (Process Consult) Done.

Definition two_contenders (R : RandomSource) (py : PyState R) (np : NpState R)
  : Result (Env R) :=
  match Hospital_init 1 1 1 1 1 with
  | Fail e => Fail e
  | Ok h =>
      let env :=
        {| now := 0; next_seq := 0%nat; events := []; next_handle := 0%nat;
           hospital := h; py_rng := py; np_rng := np;
           wait_times := []; metrics := empty_metrics; trace := [] |} in
      match schedule_after 0 (Resume contender) env with
      | Fail e => Fail e
      | Ok env1 => schedule_after 0 (Resume contender) env1
      end
  end.

(** Whether a run is still going on after its fuel. *)
Definition still_running {R : RandomSource} (o : Outcome R) : bool :=
  match o with
  | OutOfFuel _ => true
  | _ => false
  end.

(** Whether a run completed normally. *)
Definition halted {R : RandomSource} (o : Outcome R) : bool :=
  match o with
  | Halted _ => true
  | _ => false
  end.

(** What is seen of a pool: users and waiting handles. *)
Definition pool_view {R : RandomSource} (p : PoolName) (o : Outcome R)
  : option (list Handle * list Handle) :=
  match final_state o with
  | Some env => Some (users (pool (hospital env) p), waiting (pool (hospital env) p))
  | None => None
  end.

(** ** src/main.py, [report] (lines 112-137): the numbers it prints

    Only the computation of the printed numbers is embedded; formatting,
    printing, the directory and the plots are left out. *)

(** The result of a numpy reduction: a value, or [ValueError]. *)
Inductive NpResult (A : Type) : Type :=
| NpOk (a : A)
| NpValueError.
Arguments NpOk {A} a.
Arguments NpValueError {A}.

Definition Qsum (l : list Q) : Q := fold_right Qplus 0 l.

(** [np.mean]: the mean of an empty list is [nan] ([None]), with a
    warning and no exception. *)
Definition np_mean (l : list Q) : option Q :=
  match l with
  | [] => None
  | _ :: _ => Some (Qsum l / inject_Z (Z.of_nat (length l)))
  end.

Fixpoint np_max_from (m : Q) (l : list Q) : Q :=
  match l with
  | [] => m
  | x :: l' => np_max_from (if Qltb m x then x else m) l'
  end.

(** [np.max]: the maximum of an empty list raises [ValueError]. *)
Definition np_max (l : list Q) : NpResult Q :=
  match l with
  | [] => NpValueError
  | x :: l' => NpOk (np_max_from x l')
  end.

(** Python's [int(x)] on a float: truncation towards zero. *)
Definition py_int (x : Q) : Z := if Qltb x 0 then Qceiling x else Qfloor x.

(** What [report] prints: the two wait times in whole minutes, the two
    average queue lengths and the five average utilizations in percent
    (a mean of an empty series is [nan], [None] here). *)
Record Summary : Type := {
  average_wait : Z;
  maximum_wait : Z;
  average_queue_fast : option Q;
  average_queue_ed : option Q;
  average_util_fast_doc : option Q;
  average_util_fast_nurse : option Q;
  average_util_ed_doc : option Q;
  average_util_ed_nurse : option Q;
  average_util_beds : option Q
}.

Definition percent (m : option Q) : option Q := option_map (Qmult 100) m.

Definition report (wait_times : list Q) (metrics : Metrics) : NpResult Summary :=
  let avg_wait := np_mean wait_times in
  match np_max wait_times with
  | NpValueError => NpValueError
  | NpOk max_wait =>
      match avg_wait with
      | None => NpValueError               (* int(nan) *)
      | Some avg =>
          NpOk {| average_wait := py_int avg;
                  maximum_wait := py_int max_wait;
                  average_queue_fast := np_mean (queue_fast metrics);
                  average_queue_ed := np_mean (queue_ed metrics);
                  average_util_fast_doc := percent (np_mean (util_fast_doc metrics));
                  average_util_fast_nurse := percent (np_mean (util_fast_nurse metrics));
                  average_util_ed_doc := percent (np_mean (util_ed_doc metrics));
                  average_util_ed_nurse := percent (np_mean (util_ed_nurse metrics));
                  average_util_beds := percent (np_mean (util_beds metrics)) |}
      end
  end.

(** ** What the processes of [main] do to the metrics *)

(** A process that never writes a metric and never turns into the monitor
    loop; with [records = false] it never appends a wait time either. *)
Fixpoint calm (records : bool) (p : Proc) : Prop :=
  match p with
  | Done => True
  | GetNow k => forall t, calm records (k t)
  | PyRandom k => forall u, calm records (k u)
  | NpExponential _ k => forall x, calm records (k x)
  | Timeout _ t =>
      match t with
      | Resume k => calm records k
      | MonitorLoop _ => False
      end
  | Process _ k => calm records k
  | Spawn child k => calm records child /\ calm records k
  | Request _ k => forall h, calm records (k h)
  | Release _ _ k => calm records k
  | AppendWait _ k => records = true /\ calm records k
  | QueueLen _ k => forall n, calm records (k n)
  | Count _ k => forall n, calm records (k n)
  | Capacity _ k => forall c, calm records (k c)
  | AppendMetric _ _ _ => False
  end.

(** A pending task of a run of [main]: a calm process, or the monitor
    with its default interval. *)
Definition calm_task (records : bool) (t : Task) : Prop :=
  match t with
  | Resume p => calm records p
  | MonitorLoop i => i = monitor_interval
  end.

Definition is_monitor (e : Event) : bool :=
  match task e with
  | MonitorLoop _ => true
  | Resume _ => false
  end.

(** The metrics after one iteration of [monitor] in the state [env]. *)
Definition monitor_sample {R : RandomSource} (env : Env R) : Metrics :=
  let h := hospital env in
  append_metric K_util_beds (ratio (count (beds h)) (capacity (beds h)))
    (append_metric K_util_ed_nurse
       (ratio (count (ed_nurse h)) (capacity (ed_nurse h)))
       (append_metric K_util_ed_doc
          (ratio (count (ed_doctor h)) (capacity (ed_doctor h)))
          (append_metric K_util_fast_nurse
             (ratio (count (fast_nurse h)) (capacity (fast_nurse h)))
             (append_metric K_util_fast_doc
                (ratio (count (fast_doctor h)) (capacity (fast_doctor h)))
                (append_metric K_queue_ed
                   (inject_Z (Z.of_nat (length (queue (ed_doctor h))
                                        + length (queue (ed_nurse h)))))
                   (append_metric K_queue_fast
                      (inject_Z (Z.of_nat (length (queue (fast_doctor h))
                                           + length (queue (fast_nurse h)))))
                      (append_metric K_timeline (now env) (metrics env)))))))).

(** The eight series have one entry per snapshot. *)
Definition aligned (m : Metrics) : Prop :=
  forall k, length (metric m k) = length (timeline m).

Definition in_unit (x : Q) : Prop := 0 <= x /\ x <= 1.

Definition utilizations_in_unit (m : Metrics) : Prop :=
  Forall in_unit (util_fast_doc m) /\ Forall in_unit (util_fast_nurse m)
  /\ Forall in_unit (util_ed_doc m) /\ Forall in_unit (util_ed_nurse m)
  /\ Forall in_unit (util_beds m).

Definition queues_nonnegative (m : Metrics) : Prop :=
  Forall (fun x => 0 <= x) (queue_fast m) /\ Forall (fun x => 0 <= x) (queue_ed m).

(** The [k]-th snapshot was taken at time [k * interval]. *)
Definition regular (l : list Q) : Prop :=
  forall k, (k < length l)%nat ->
    nth k l 0 == monitor_interval * inject_Z (Z.of_nat k).

(** What a calm process leaves as it is: the metrics [m0], the pending
    monitor events [f0] and, when it does not record, the wait times
    [w0]; and the other pending and waiting processes stay calm. *)
Definition calm_state {R : RandomSource} (records : bool) (m0 : Metrics)
  (f0 : list Event) (w0 : list Q) (env : Env R) : Prop :=
  metrics env = m0
  /\ filter is_monitor (events env) = f0
  /\ Forall (fun e => calm_task records (task e)) (events env)
  /\ (forall q, Forall (fun x => calm records (snd x))
                  (queue (pool (hospital env) q)))
  /\ (records = false -> wait_times env = w0).

(** The state of a run of [main] as far as the monitor is concerned:
    every pending or waiting process other than the monitor is calm; the
    monitor has exactly one pending event, due at the time of its next
    snapshot; the series are aligned, regular and in range. *)
Record monitored {R : RandomSource} (records : bool) (env : Env R) : Prop := {
  mon_tasks : Forall (fun e => calm_task records (task e)) (events env);
  mon_queues :
    forall q, Forall (fun x => calm records (snd x)) (queue (pool (hospital env) q));
  mon_single :
    exists m, filter is_monitor (events env) = [m]
              /\ time m == monitor_interval
                           * inject_Z (Z.of_nat (length (timeline (metrics env))));
  mon_aligned : aligned (metrics env);
  mon_utilizations : utilizations_in_unit (metrics env);
  mon_queue_lengths : queues_nonnegative (metrics env);
  mon_regular : regular (timeline (metrics env));
  mon_past : Forall (fun t => t <= now env) (timeline (metrics env));
  mon_capacity :
    within_capacity (hospital env)
    /\ forall q, (0 < capacity (pool (hospital env) q))%Z;
  mon_waits : records = false -> wait_times env = []
}.

(** A printed percentage that is a number between 0 and 100. *)
Definition percentage (o : option Q) : Prop :=
  exists v, o = Some v /\ 0 <= v /\ v <= 100.

(** A printed average that is a number and not negative. *)
Definition nonnegative_average (o : option Q) : Prop :=
  exists v, o = Some v /\ 0 <= v.

(** Whether a run completed and [report] succeeds on its results. *)
Definition report_succeeds {R : RandomSource} (o : Outcome R) : bool :=
  match o with
  | Halted env =>
      match report (wait_times env) (metrics env) with
      | NpOk _ => true
      | NpValueError => false
      end
  | _ => false
  end.

(** ** The discipline of the with-blocks *)

(** What a process holds: nothing, or one unit of a pool by its handle. *)
Definition Holding : Type := option (PoolName * Handle).

(** A process that, holding [held], goes on as the with-blocks of the
    source prescribe: it requests only while it holds nothing, releases
    only the unit it holds, by the handle that acquired it, returns
    holding nothing, and never asks for a negative delay (given that no
    exponential variate is negative): a delay written in the process is
    not negative, and neither is the delay that the [Hospital] method of a
    timed activity yields, whatever normal variate it draws. *)
Fixpoint disciplined (held : Holding) (p : Proc) : Prop :=
  match p with
  | Done => held = None
  | GetNow k => forall t, disciplined held (k t)
  | PyRandom k => forall u, disciplined held (k u)
  | NpExponential scale k =>
      0 <= scale /\ forall x, 0 <= x -> disciplined held (k x)
  | Timeout delay t =>
      0 <= delay
      /\ match t with
         | Resume k => disciplined held k
         | MonitorLoop interval => held = None /\ 0 <= interval
         end
  | Process a k =>
      (forall (R : RandomSource) (g : NpState R),
          0 <= fst (hospital_method R a g))
      /\ disciplined held k
  | Spawn child k => disciplined None child /\ disciplined held k
  | Request q k => held = None /\ forall h, disciplined (Some (q, h)) (k h)
  | Release q req k => held = Some (q, req) /\ disciplined None k
  | AppendWait _ k => disciplined held k
  | QueueLen _ k => forall n, disciplined held (k n)
  | Count _ k => forall n, disciplined held (k n)
  | Capacity _ k => forall c, disciplined held (k c)
  | AppendMetric _ _ k => disciplined held k
  end.

(** The pending event [e] belongs to a process that holds [h] on [q]. *)
Definition holds_event (e : Event) (q : PoolName) (h : Handle) : Prop :=
  disciplined (Some (q, h)) (resume (task e)).

(** The state of a run in which every process is disciplined, while the
    process that is running holds [held]: every unit held is in use in
    its pool, and every handle belongs to one process only, which either
    holds it or waits with it. *)
Record orderly {R : RandomSource} (held : Holding) (env : Env R) : Prop := {
  ord_events :
    forall e, In e (events env) -> exists hd, disciplined hd (resume (task e));
  ord_waiters :
    forall q w, In w (queue (pool (hospital env) q)) ->
      disciplined (Some (q, fst w)) (snd w);
  ord_held_users :
    forall q h, held = Some (q, h) -> In h (users (pool (hospital env) q));
  ord_event_users :
    forall e q h, In e (events env) -> holds_event e q h ->
      In h (users (pool (hospital env) q));
  ord_held_fresh :
    forall q h, held = Some (q, h) -> (h < next_handle env)%nat;
  ord_event_fresh :
    forall e q h, In e (events env) -> holds_event e q h ->
      (h < next_handle env)%nat;
  ord_waiting_fresh :
    forall q h, In h (waiting (pool (hospital env) q)) ->
      (h < next_handle env)%nat;
  ord_one_event :
    forall e1 e2 q1 q2 h, In e1 (events env) -> In e2 (events env) ->
      holds_event e1 q1 h -> holds_event e2 q2 h -> e1 = e2;
  ord_held_alone :
    forall q h e q', held = Some (q, h) -> In e (events env) ->
      ~ holds_event e q' h;
  ord_held_not_waiting :
    forall q h q', held = Some (q, h) ->
      ~ In h (waiting (pool (hospital env) q'));
  ord_event_not_waiting :
    forall e q h q', In e (events env) -> holds_event e q h ->
      ~ In h (waiting (pool (hospital env) q'));
  ord_waiting_nodup :
    forall q, NoDup (waiting (pool (hospital env) q));
  ord_waiting_one_pool :
    forall q1 q2 h, In h (waiting (pool (hospital env) q1)) ->
      In h (waiting (pool (hospital env) q2)) -> q1 = q2
}.

(** No exponential variate of the random source is negative. *)
Definition exponential_nonnegative (R : RandomSource) : Prop :=
  forall (scale : Q) (g : NpState R),
    0 <= scale -> 0 <= fst (np_exponential R scale g).

Scheme Proc_Task_ind := Induction for Proc Sort Prop
  with Task_Proc_ind := Induction for Task Sort Prop.

(** ** A patient alone in the hospital *)

(** Every unit is free and nobody waits. *)
Definition vacant (h : Hospital) : Prop :=
  forall p, users (pool h p) = [] /\ queue (pool h p) = []
            /\ (0 < capacity (pool h p))%Z.

(** Nothing is going on: the hospital is vacant and no event is pending. *)
Definition alone {R : RandomSource} (env : Env R) : Prop :=
  vacant (hospital env) /\ events env = [].

(** The rest [p] of a patient that arrived at [arrival], resumed while it
    is alone, runs on the scheduler to its end in [n] further turns, at
    most [bound], and has then appended its completion time minus
    [arrival] to the wait times; a run that halts before has reached the
    horizon first and has appended nothing. *)
Definition completes (R : RandomSource) (bound : nat) (arrival : Q) (p : Proc)
  : Prop :=
  forall env : Env R, alone env ->
    exists (n : nat) (env0 : Env R) (completion : Q),
      (n <= bound)%nat /\ exec p env = Ok env0 /\ now env <= completion
      /\ forall until : Q,
           match run n until env0 with
           | OutOfFuel env' =>
               alone env' /\ now env' = completion
               /\ wait_times env' = wait_times env ++ [completion - arrival]
           | Halted env' =>
               until < completion /\ wait_times env' = wait_times env
           | Raised _ => False
           end.

(** A state in which nothing has happened yet: every capacity 1. *)
Definition idle_resource : Resource :=
  {| capacity := 1; users := []; queue := [] |}.

Definition idle_env : Env table_source :=
  {| now := 0; next_seq := 0%nat; events := []; next_handle := 0%nat;
     hospital := {| fast_doctor := idle_resource; fast_nurse := idle_resource;
                    ed_doctor := idle_resource; ed_nurse := idle_resource;
                    beds := idle_resource |};
     py_rng := (0%nat : PyState table_source);
     np_rng := (0%nat : NpState table_source);
     wait_times := []; metrics := empty_metrics; trace := [] |}.

(** * Proofs *)

(** ** Comparisons *)

Lemma Qltb_true_iff (x y : Q) : Qltb x y = true <-> x < y.
Proof.
  unfold Qltb. rewrite negb_true_iff.
  split; intro H.
  - apply Qnot_le_lt. intro Hle. apply Qle_bool_iff in Hle. congruence.
  - destruct (Qle_bool y x) eqn:E; [|reflexivity].
    apply Qle_bool_iff in E. lra.
Qed.

Lemma Qltb_false_iff (x y : Q) : Qltb x y = false <-> y <= x.
Proof.
  unfold Qltb. rewrite negb_false_iff. apply Qle_bool_iff.
Qed.

Lemma py_max_floor (a b : Q) : a <= py_max a b.
Proof.
  unfold py_max. destruct (Qltb a b) eqn:E.
  - apply Qltb_true_iff in E. lra.
  - lra.
Qed.

Lemma py_max_sample (a b : Q) : b <= py_max a b.
Proof.
  unfold py_max. destruct (Qltb a b) eqn:E.
  - lra.
  - apply Qltb_false_iff in E. lra.
Qed.

(** ** The journeys of the patient and of the arrival generator *)

Lemma observe_patient (name : nat) (arrival : Q) (us es lapses : list Q) (h : Handle) :
  exists completion,
    observe (patient name) arrival us es lapses h =
    (spec_path (spec_track (hd 0 us))
       (spec_lab (spec_track (hd 0 us)) (hd 0 (tl us)))
       (spec_admit (hd 0 (tl (tl us))))
     ++ [Record_wait (completion - arrival)], completion).
Proof.
  unfold patient, spec_track, spec_lab, spec_admit, with_request.
  cbn [observe].
  destruct (Qltb (hd 0 us) 0.3); cbn [observe].
  - destruct (Qltb (hd 0 (tl us)) 0.3); cbn [observe spec_path app];
      eexists; reflexivity.
  - destruct (Qltb (hd 0 (tl us)) 0.7); cbn [observe];
      destruct (Qltb (hd 0 (tl (tl us))) 0.5); cbn [observe spec_path app];
      eexists; reflexivity.
Qed.

Lemma observe_generator (rate : Q) (n : nat) :
  forall (i : nat) (clock : Q) (us es lapses : list Q) (h : Handle),
    fst (observe (patient_generator_from i n rate) clock us es lapses h) =
    code_generator_steps i clock rate es n.
Proof.
  induction n as [|n IH]; intros i clock us es lapses h.
  - reflexivity.
  - cbn [patient_generator_from observe code_generator_steps].
    specialize (IH (S i) (clock + hd 0 es) us (tl es) lapses h).
    destruct (observe (patient_generator_from (S i) n rate) _ _ _ _ _) as [s c].
    cbn [fst] in *. now rewrite IH.
Qed.

Lemma spawn_times_generator (rate : Q) (n : nat) :
  forall (i : nat) (clock : Q) (es : list Q),
    spawn_times (code_generator_steps i clock rate es n) = code_arrivals clock es n.
Proof.
  induction n as [|n IH]; intros i clock es.
  - reflexivity.
  - cbn [code_generator_steps code_arrivals spawn_times flat_map app].
    f_equal. apply IH.
Qed.

Lemma spawned_processes_generator (rate : Q) (n : nat) :
  forall (i : nat) (clock : Q) (es : list Q),
    spawned_processes (code_generator_steps i clock rate es n) = patients_from i n.
Proof.
  unfold patients_from.
  induction n as [|n IH]; intros i clock es.
  - reflexivity.
  - cbn [code_generator_steps spawned_processes flat_map app List.seq map].
    f_equal. apply IH.
Qed.

(** ** Pools of a hospital *)

Lemma PoolName_eq_dec (p q : PoolName) : {p = q} + {p <> q}.
Proof. decide equality. Defined.

Lemma pool_set_pool_same (h : Hospital) (p : PoolName) (r : Resource) :
  pool (set_pool h p r) p = r.
Proof. destruct p; reflexivity. Qed.

Lemma pool_set_pool_other (h : Hospital) (p q : PoolName) (r : Resource) :
  p <> q -> pool (set_pool h p r) q = pool h q.
Proof. destruct p, q; intro Hne; try reflexivity; congruence. Qed.

Lemma existsb_eqb_In (h : Handle) (l : list Handle) :
  existsb (Nat.eqb h) l = true <-> In h l.
Proof.
  rewrite existsb_exists. split.
  - intros [x [Hin Heq]]. apply Nat.eqb_eq in Heq. now subst.
  - intro Hin. exists h. split; [assumption | apply Nat.eqb_refl].
Qed.

Lemma remove_first_length (h : Handle) (l : list Handle) :
  In h l -> S (length (remove_first h l)) = length l.
Proof.
  induction l as [|x l IH]; simpl; [tauto|].
  intros Hin. destruct (Nat.eqb h x) eqn:E; [reflexivity|].
  apply Nat.eqb_neq in E. simpl. f_equal. apply IH.
  destruct Hin as [Hx | Hin]; [congruence | assumption].
Qed.

(** The two outcomes of [acquire]. *)
Lemma acquire_granted (h : Handle) (cont : Proc) (r : Resource) :
  (Z.of_nat (count r) < capacity r)%Z ->
  acquire h cont r =
  (true, {| capacity := capacity r; users := users r ++ [h]; queue := queue r |}).
Proof.
  intro Hlt. unfold acquire.
  destruct (Z.ltb_spec (Z.of_nat (count r)) (capacity r)); [reflexivity | lia].
Qed.

Lemma acquire_parked (h : Handle) (cont : Proc) (r : Resource) :
  (capacity r <= Z.of_nat (count r))%Z ->
  acquire h cont r =
  (false, {| capacity := capacity r; users := users r;
             queue := queue r ++ [(h, cont)] |}).
Proof.
  intro Hle. unfold acquire.
  destruct (Z.ltb_spec (Z.of_nat (count r)) (capacity r)); [lia | reflexivity].
Qed.

(** What a successful [release] leaves behind. *)
Lemma release_ok (h : Handle) (r r' : Resource) (w : option (Handle * Proc)) :
  release h r = Ok (r', w) ->
  In h (users r)
  /\ capacity r' = capacity r
  /\ queue r' = tl (queue r)
  /\ w = hd_error (queue r)
  /\ users r' = remove_first h (users r)
                ++ match w with Some x => [fst x] | None => [] end.
Proof.
  unfold release. destruct (existsb (Nat.eqb h) (users r)) eqn:E; [|discriminate].
  apply existsb_eqb_In in E.
  destruct (queue r) as [|x ws] eqn:Eq; intro H; inversion H; subst; simpl;
    repeat split; try assumption; try reflexivity.
  now rewrite app_nil_r.
Qed.

Lemma acquire_capacity (h : Handle) (cont : Proc) (r : Resource) :
  (0 <= Z.of_nat (count r) <= capacity r)%Z ->
  (0 <= Z.of_nat (count (snd (acquire h cont r)))
   <= capacity (snd (acquire h cont r)))%Z.
Proof.
  intro Hr. unfold acquire.
  destruct (Z.ltb_spec (Z.of_nat (count r)) (capacity r)); simpl.
  - unfold count in *. simpl. rewrite length_app. simpl. lia.
  - assumption.
Qed.

Lemma release_capacity (h : Handle) (r r' : Resource) (w : option (Handle * Proc)) :
  (0 <= Z.of_nat (count r) <= capacity r)%Z ->
  release h r = Ok (r', w) ->
  (0 <= Z.of_nat (count r') <= capacity r')%Z.
Proof.
  intros Hr Hrel. apply release_ok in Hrel.
  destruct Hrel as (Hin & Hcap & _ & _ & Hus).
  apply remove_first_length in Hin.
  unfold count in *. rewrite Hcap, Hus, length_app.
  destruct w; simpl; lia.
Qed.

(** ** A process step preserves what its primitive operations preserve *)

Section ExecInvariant.

Variable R : RandomSource.
Variable I : Env R -> Prop.

Hypothesis I_py : forall env g, I env -> I (set_py_rng g env).
Hypothesis I_np : forall env g, I env -> I (set_np_rng g env).
Hypothesis I_wait : forall env w, I env -> I (set_wait_times w env).
Hypothesis I_metrics : forall env m, I env -> I (set_metrics m env).
Hypothesis I_push :
  forall env t at_time, I env -> now env <= at_time -> I (push_event t at_time env).
Hypothesis I_request :
  forall env p cont, I env -> I (snd (do_request p cont env)).
Hypothesis I_release :
  forall env p h r w, I env ->
    release h (pool (hospital env) p) = Ok (r, w) ->
    I (set_hospital (set_pool (hospital env) p r) env).

Lemma schedule_after_invariant (d : Q) (t : Task) (env env' : Env R) :
  I env -> schedule_after d t env = Ok env' -> I env'.
Proof.
  unfold schedule_after. intros HI H.
  destruct (Qltb d 0) eqn:E; [discriminate|].
  apply Qltb_false_iff in E. inversion H; subst.
  apply I_push; [assumption | lra].
Qed.

Lemma do_release_invariant (p : PoolName) (h : Handle) (env env' : Env R) :
  I env -> do_release p h env = Ok env' -> I env'.
Proof.
  unfold do_release. intros HI H.
  destruct (release h (pool (hospital env) p)) as [[r w]|e] eqn:E; [|discriminate].
  pose proof (I_release _ _ _ _ _ HI E) as HI'.
  destruct w as [x|].
  - eapply schedule_after_invariant; eassumption.
  - inversion H; subst. assumption.
Qed.

Lemma exec_invariant (p : Proc) :
  forall env env', I env -> exec p env = Ok env' -> I env'.
Proof.
  induction p as [ | k IH | k IH | scale k IH | delay t | a p IH
                 | child _ p IH | q k IH | q req p IH | w p IH
                 | q k IH | q k IH | q k IH | key0 v p IH ];
    intros env env' HI H; cbn [exec] in H.
  - inversion H; subst; assumption.
  - eapply IH; eassumption.
  - destruct (py_random R (py_rng env)) as [u g].
    eapply IH; [|eassumption]. now apply I_py.
  - destruct (np_exponential R scale (np_rng env)) as [x g].
    eapply IH; [|eassumption]. now apply I_np.
  - eapply schedule_after_invariant; eassumption.
  - destruct (hospital_method R a (np_rng env)) as [d g].
    eapply schedule_after_invariant; [|eassumption]. now apply I_np.
  - destruct (schedule_after 0 (Resume child) env) as [env1|e] eqn:E; [|discriminate].
    eapply IH; [|eassumption].
    eapply schedule_after_invariant; eassumption.
  - pose proof (I_request env q (k (next_handle env)) HI) as HI'.
    destruct (do_request q (k (next_handle env)) env) as [granted env1].
    cbn [snd] in HI'. destruct granted.
    + eapply IH; eassumption.
    + inversion H; subst; assumption.
  - destruct (do_release q req env) as [env1|e] eqn:E; [|discriminate].
    eapply IH; [|eassumption].
    eapply do_release_invariant; eassumption.
  - eapply IH; [|eassumption]. now apply I_wait.
  - eapply IH; eassumption.
  - eapply IH; eassumption.
  - eapply IH; eassumption.
  - eapply IH; [|eassumption]. now apply I_metrics.
Qed.

End ExecInvariant.

(** ** A run preserves what process steps and the pop of an event preserve *)

Section RunInvariant.

Variable R : RandomSource.
Variable until : Q.
Variable I : Env R -> Prop.

Hypothesis I_exec :
  forall p env env', I env -> exec p env = Ok env' -> I env'.
Hypothesis I_pop :
  forall env e rest, I env -> events env = e :: rest -> time e <= until ->
    I (set_clock (time e) rest ((time e, seq e) :: trace env) env).

Lemma step_continue_invariant (env env' : Env R) :
  I env -> step until env = Continue env' -> I env'.
Proof.
  unfold step. intros HI H.
  destruct (events env) as [|e rest] eqn:Ev; [discriminate|].
  destruct (Qltb until (time e)) eqn:E; [discriminate|].
  apply Qltb_false_iff in E.
  destruct (exec _ _) as [env1|err] eqn:Ex; [|discriminate].
  inversion H; subst.
  eapply I_exec; [|eassumption]. now apply I_pop.
Qed.

Lemma step_stop_shape (env env' : Env R) :
  step until env = Stop env' ->
  env' = set_clock until (events env) (trace env) env.
Proof.
  unfold step. intro H.
  destruct (events env) as [|e rest] eqn:Ev.
  - now inversion H.
  - destruct (Qltb until (time e)); [now inversion H|].
    destruct (exec _ _); discriminate.
Qed.

Lemma run_out_of_fuel_invariant (fuel : nat) :
  forall env env', I env -> run fuel until env = OutOfFuel env' -> I env'.
Proof.
  induction fuel as [|fuel IH]; intros env env' HI H; cbn [run] in H.
  - inversion H; subst; assumption.
  - destruct (step until env) as [env1|env1|err] eqn:St; try discriminate.
    eapply IH; [|eassumption].
    eapply step_continue_invariant; eassumption.
Qed.

Lemma run_halted_invariant (fuel : nat) :
  forall env env', I env -> run fuel until env = Halted env' ->
    exists env0, I env0 /\ env' = set_clock until (events env0) (trace env0) env0.
Proof.
  induction fuel as [|fuel IH]; intros env env' HI H; cbn [run] in H.
  - discriminate.
  - destruct (step until env) as [env1|env1|err] eqn:St; try discriminate.
    + eapply IH; [|eassumption].
      eapply step_continue_invariant; eassumption.
    + inversion H; subst. exists env. split; [assumption|].
      now apply step_stop_shape.
Qed.

End RunInvariant.

(** Running [n] events and then [m] more is running [n + m]. *)
Lemma run_add {R : RandomSource} (until : Q) (n m : nat) :
  forall env env' : Env R,
    run n until env = OutOfFuel env' ->
    run (n + m) until env = run m until env'.
Proof.
  induction n as [|n IH]; intros env env' H; cbn [run] in H.
  - now inversion H.
  - cbn [Nat.add run].
    destruct (step until env) as [env1|env1|err]; try discriminate.
    now apply IH.
Qed.

(** ** Occupancy stays within capacity *)

Lemma exec_within_capacity {R : RandomSource} (p : Proc) (env env' : Env R) :
  within_capacity (hospital env) -> exec p env = Ok env' ->
  within_capacity (hospital env').
Proof.
  apply (exec_invariant R (fun e => within_capacity (hospital e)));
    try (intros; assumption).
  - intros e q cont HI. unfold do_request.
    destruct (acquire (next_handle e) cont (pool (hospital e) q)) as [g r] eqn:E.
    cbn [snd hospital set_hospital]. intro q'.
    destruct (PoolName_eq_dec q q') as [<-|Hne].
    + rewrite pool_set_pool_same.
      pose proof (acquire_capacity (next_handle e) cont _ (HI q)) as H.
      now rewrite E in H.
    + rewrite pool_set_pool_other by assumption. apply HI.
  - intros e q h r w HI Hrel. cbn [hospital set_hospital]. intro q'.
    destruct (PoolName_eq_dec q q') as [<-|Hne].
    + rewrite pool_set_pool_same. eapply release_capacity; [apply HI | eassumption].
    + rewrite pool_set_pool_other by assumption. apply HI.
Qed.

Lemma run_within_capacity {R : RandomSource} (fuel : nat) (until : Q)
  (env env' : Env R) :
  within_capacity (hospital env) ->
  final_state (run fuel until env) = Some env' ->
  within_capacity (hospital env').
Proof.
  intros HI H.
  destruct (run fuel until env) as [e|err|e] eqn:Hrun; cbn [final_state] in H;
    inversion H; subst.
  - apply (run_halted_invariant R until (fun e => within_capacity (hospital e)))
      in Hrun; try assumption.
    + destruct Hrun as (env0 & H0 & ->). exact H0.
    + intros. eapply exec_within_capacity; eassumption.
    + intros; assumption.
  - apply (run_out_of_fuel_invariant R until (fun e => within_capacity (hospital e)))
      in Hrun; try assumption.
    + intros. eapply exec_within_capacity; eassumption.
    + intros; assumption.
Qed.

Lemma new_resource_ok (cap : Z) (r : Resource) :
  new_resource cap = Ok r ->
  (0 < cap)%Z /\ capacity r = cap /\ users r = [] /\ queue r = [].
Proof.
  unfold new_resource. destruct (Z.leb_spec cap 0) as [Hle|Hlt]; [discriminate|].
  intro Hr; inversion Hr; subst; simpl. repeat split; try reflexivity; lia.
Qed.

Lemma new_resource_fail (cap : Z) (e : Error) :
  new_resource cap = Fail e -> (cap <= 0)%Z /\ e = InvalidConfiguration.
Proof.
  unfold new_resource. destruct (Z.leb_spec cap 0) as [Hle|Hlt]; [|discriminate].
  intro Hr; inversion Hr; split; [assumption | reflexivity].
Qed.

Lemma Hospital_init_ok (a b c d e : Z) (h : Hospital) :
  Hospital_init a b c d e = Ok h ->
  (0 < a /\ 0 < b /\ 0 < c /\ 0 < d /\ 0 < e)%Z
  /\ (forall p, users (pool h p) = [] /\ queue (pool h p) = []
                /\ (0 < capacity (pool h p))%Z)
  /\ capacity (fast_doctor h) = a /\ capacity (fast_nurse h) = b
  /\ capacity (ed_doctor h) = c /\ capacity (ed_nurse h) = d
  /\ capacity (beds h) = e.
Proof.
  unfold Hospital_init.
  destruct (new_resource a) as [ra|] eqn:Ea; [|discriminate].
  destruct (new_resource b) as [rb|] eqn:Eb; [|discriminate].
  destruct (new_resource c) as [rc|] eqn:Ec; [|discriminate].
  destruct (new_resource d) as [rd|] eqn:Ed; [|discriminate].
  destruct (new_resource e) as [re|] eqn:Ee; [|discriminate].
  apply new_resource_ok in Ea, Eb, Ec, Ed, Ee.
  intro H; inversion H; subst; cbn [fast_doctor fast_nurse ed_doctor ed_nurse beds].
  repeat split; try tauto; try (destruct p; cbn [pool fast_doctor fast_nurse ed_doctor ed_nurse beds]; try tauto; lia).
Qed.

Lemma Hospital_init_fail (a b c d e : Z) (err : Error) :
  Hospital_init a b c d e = Fail err ->
  (a <= 0 \/ b <= 0 \/ c <= 0 \/ d <= 0 \/ e <= 0)%Z /\ err = InvalidConfiguration.
Proof.
  unfold Hospital_init.
  destruct (new_resource a) as [ra|] eqn:Ea;
    [|intro H; inversion H; subst; apply new_resource_fail in Ea; tauto].
  destruct (new_resource b) as [rb|] eqn:Eb;
    [|intro H; inversion H; subst; apply new_resource_fail in Eb; tauto].
  destruct (new_resource c) as [rc|] eqn:Ec;
    [|intro H; inversion H; subst; apply new_resource_fail in Ec; tauto].
  destruct (new_resource d) as [rd|] eqn:Ed;
    [|intro H; inversion H; subst; apply new_resource_fail in Ed; tauto].
  destruct (new_resource e) as [re|] eqn:Ee;
    [|intro H; inversion H; subst; apply new_resource_fail in Ee; tauto].
  discriminate.
Qed.

(** ** Order of the event queue *)

Lemma key_ltb_spec (t1 : Q) (s1 : nat) (t2 : Q) (s2 : nat) :
  key_ltb t1 s1 t2 s2 = true <-> key_lt (t1, s1) (t2, s2).
Proof.
  unfold key_ltb, key_lt. cbn [fst snd].
  rewrite orb_true_iff, andb_true_iff, Qltb_true_iff, Qeq_bool_iff, Nat.ltb_lt.
  reflexivity.
Qed.

Lemma key_lt_trans (a b c : Q * nat) : key_lt a b -> key_lt b c -> key_lt a c.
Proof.
  unfold key_lt. intros [H1 | [H1 H1']] [H2 | [H2 H2']].
  - left; lra.
  - left; lra.
  - left; lra.
  - right; split; [lra | lia].
Qed.

Lemma key_lt_total (a b : Q * nat) :
  snd a <> snd b -> key_lt a b \/ key_lt b a.
Proof.
  unfold key_lt. intro Hne.
  destruct (Q_dec (fst a) (fst b)) as [[Hlt | Hgt] | Heq].
  - left; left; assumption.
  - right; left; assumption.
  - destruct (Nat.lt_gt_cases (snd a) (snd b)) as [Hc _].
    destruct (Hc Hne) as [Hl | Hg].
    + left; right; split; assumption.
    + right; right; split; [symmetry; assumption | assumption].
Qed.

Lemma key_lt_time (a b : Q * nat) : key_lt a b -> fst a <= fst b.
Proof. unfold key_lt. intros [H | [H _]]; lra. Qed.

Lemma insert_event_In (e x : Event) (q : list Event) :
  In x (insert_event e q) <-> x = e \/ In x q.
Proof.
  induction q as [|y q IH]; cbn [insert_event].
  - simpl. intuition.
  - destruct (event_ltb e y).
    + simpl. intuition.
    + simpl. rewrite IH. intuition.
Qed.

Lemma insert_event_sorted (e : Event) (q : list Event) :
  StronglySorted (fun e1 e2 => key_lt (key e1) (key e2)) q ->
  Forall (fun x => (seq x < seq e)%nat) q ->
  StronglySorted (fun e1 e2 => key_lt (key e1) (key e2)) (insert_event e q).
Proof.
  induction q as [|y q IH]; intros Hs Hseq; cbn [insert_event].
  - constructor; constructor.
  - apply StronglySorted_inv in Hs. destruct Hs as [Hs Hy].
    inversion Hseq as [|? ? Hy_seq Hq_seq]; subst.
    destruct (event_ltb e y) eqn:E.
    + apply key_ltb_spec in E.
      constructor; [constructor; assumption|].
      constructor; [exact E|].
      rewrite Forall_forall in *. intros z Hz.
      eapply key_lt_trans; [exact E | apply Hy; assumption].
    + assert (Hye : key_lt (key y) (key e)).
      { destruct (key_lt_total (key y) (key e)) as [H | H].
        - unfold key; simpl; lia.
        - assumption.
        - apply key_ltb_spec in H. unfold event_ltb in E. congruence. }
      constructor; [apply IH; assumption|].
      rewrite Forall_forall in *. intros z Hz.
      apply insert_event_In in Hz. destruct Hz as [-> | Hz];
        [assumption | apply Hy; assumption].
Qed.

(** ** The scheduler state stays consistent *)

Lemma scheduled_same {R : RandomSource} (env env' : Env R) :
  now env' = now env -> next_seq env' = next_seq env ->
  events env' = events env -> trace env' = trace env ->
  scheduled env -> scheduled env'.
Proof.
  intros Hn Hs He Ht [H1 H2 H3 H4 H5].
  constructor; rewrite ?Hn, ?Hs, ?He, ?Ht; assumption.
Qed.

Lemma scheduled_push {R : RandomSource} (env : Env R) (t : Task) (at_time : Q) :
  scheduled env -> now env <= at_time -> scheduled (push_event t at_time env).
Proof.
  intros [H1 H2 H3 H4 H5] Hle.
  constructor; cbn [push_event now next_seq events trace].
  - apply insert_event_sorted; [assumption|].
    eapply Forall_impl; [|exact H2]. cbn [seq]. intros x [_ Hx]. exact Hx.
  - rewrite Forall_forall in *. intros x Hx.
    apply insert_event_In in Hx. destruct Hx as [-> | Hx].
    + cbn [time seq]. split; [assumption | lia].
    + destruct (H2 x Hx). split; [assumption | lia].
  - eapply Forall_impl; [|exact H3]. intros k [Hk1 Hk2]. split; [assumption | lia].
  - assumption.
  - intros k x Hk Hx. apply insert_event_In in Hx. destruct Hx as [-> | Hx].
    + rewrite Forall_forall in H3. destruct (H3 k Hk) as [Hk1 Hk2].
      unfold key_lt, key. cbn [fst snd time seq].
      destruct (Qle_lt_or_eq (fst k) at_time) as [Hlt | Heq]; [lra | left | right];
        [assumption | split; assumption].
    + apply H5; assumption.
Qed.

Lemma scheduled_pop {R : RandomSource} (env : Env R) (e : Event) (rest : list Event) :
  scheduled env -> events env = e :: rest ->
  scheduled (set_clock (time e) rest ((time e, seq e) :: trace env) env).
Proof.
  intros [H1 H2 H3 H4 H5] Hev. rewrite Hev in *.
  apply StronglySorted_inv in H1. destruct H1 as [Hs He].
  inversion H2 as [|? ? [He1 He2] Hrest]; subst.
  constructor; cbn [set_clock now next_seq events trace].
  - assumption.
  - rewrite Forall_forall in *. intros x Hx.
    destruct (Hrest x Hx) as [_ Hx2]. split; [|assumption].
    apply (key_lt_time (key e) (key x)). apply He; assumption.
  - constructor.
    + cbn [fst snd]. split; [lra | assumption].
    + rewrite Forall_forall in *. intros k Hk.
      destruct (H3 k Hk) as [_ Hk2]. split; [|assumption].
      apply (key_lt_time k (key e)). apply H5; [assumption | left; reflexivity].
  - constructor; [assumption|].
    rewrite Forall_forall. intros k Hk.
    apply (H5 k e); [assumption | left; reflexivity].
  - intros k x [<- | Hk] Hx.
    + rewrite Forall_forall in He. apply He; assumption.
    + apply H5; [assumption | right; assumption].
Qed.

Lemma exec_scheduled {R : RandomSource} (p : Proc) (env env' : Env R) :
  scheduled env -> exec p env = Ok env' -> scheduled env'.
Proof.
  apply (exec_invariant R (@scheduled R)).
  - intros e g. apply scheduled_same; reflexivity.
  - intros e g. apply scheduled_same; reflexivity.
  - intros e w. apply scheduled_same; reflexivity.
  - intros e m. apply scheduled_same; reflexivity.
  - intros e t at_time. apply scheduled_push.
  - intros e q cont. unfold do_request.
    destruct (acquire _ _ _) as [g r]. apply scheduled_same; reflexivity.
  - intros e q h r w He _. revert He. apply scheduled_same; reflexivity.
Qed.

(** A process step leaves the clock and the history alone. *)
Lemma exec_clock {R : RandomSource} (p : Proc) (env env' : Env R) :
  exec p env = Ok env' -> now env' = now env /\ trace env' = trace env.
Proof.
  intro H.
  apply (exec_invariant R (fun e => now e = now env /\ trace e = trace env)
           ltac:(intros; assumption) ltac:(intros; assumption)
           ltac:(intros; assumption) ltac:(intros; assumption)
           ltac:(intros; assumption)) with (p := p) (env := env);
    try assumption.
  - intros e q cont He. unfold do_request.
    destruct (acquire _ _ _) as [g r]. exact He.
  - intros e q h r w He _. exact He.
  - split; reflexivity.
Qed.

Lemma schedule_after_zero {R : RandomSource} (t : Task) (env : Env R) :
  schedule_after 0 t env = Ok (push_event t (now env + 0) env).
Proof. reflexivity. Qed.

Lemma step_continue_shape {R : RandomSource} (until : Q) (env env' : Env R) :
  step until env = Continue env' ->
  exists e rest,
    events env = e :: rest /\ time e <= until
    /\ exec (resume (task e))
         (set_clock (time e) rest ((time e, seq e) :: trace env) env) = Ok env'.
Proof.
  unfold step. intro H.
  destruct (events env) as [|e rest] eqn:Ev; [discriminate|].
  destruct (Qltb until (time e)) eqn:E; [discriminate|].
  apply Qltb_false_iff in E.
  destruct (exec _ _) as [env1|err] eqn:Ex; [|discriminate].
  inversion H; subst. exists e, rest. repeat split; assumption.
Qed.

Lemma exec_on_schedule {R : RandomSource} (until : Q) (p : Proc) (env env' : Env R) :
  on_schedule until env -> exec p env = Ok env' -> on_schedule until env'.
Proof.
  intros [Hs Hn] H. split.
  - eapply exec_scheduled; eassumption.
  - apply exec_clock in H. destruct H as [-> _]. assumption.
Qed.

Lemma pop_on_schedule {R : RandomSource} (until : Q) (env : Env R) (e : Event)
  (rest : list Event) :
  on_schedule until env -> events env = e :: rest -> time e <= until ->
  on_schedule until (set_clock (time e) rest ((time e, seq e) :: trace env) env).
Proof.
  intros [Hs Hn] Hev Hle. split.
  - now apply scheduled_pop.
  - assumption.
Qed.

Lemma run_on_schedule {R : RandomSource} (fuel : nat) (until : Q) (env env' : Env R) :
  on_schedule until env ->
  final_state (run fuel until env) = Some env' ->
  now env' <= until
  /\ StronglySorted (fun later earlier => key_lt earlier later) (trace env')
  /\ Forall (fun k => fst k <= now env') (trace env').
Proof.
  intros HI H.
  destruct (run fuel until env) as [e|err|e] eqn:Hrun; cbn [final_state] in H;
    inversion H; subst.
  - apply (run_halted_invariant R until (on_schedule until)) in Hrun;
      try assumption.
    + destruct Hrun as (env0 & [[_ _ H3 H4 _] Hn] & ->).
      cbn [set_clock now trace]. repeat split; [lra | assumption |].
      eapply Forall_impl; [|exact H3]. cbn. intros k [Hk _]. lra.
    + intros; eapply exec_on_schedule; eassumption.
    + intros; apply pop_on_schedule; assumption.
  - apply (run_out_of_fuel_invariant R until (on_schedule until)) in Hrun;
      try assumption.
    + destruct Hrun as [[_ _ H3 H4 _] Hn]. repeat split; try assumption.
      eapply Forall_impl; [|exact H3]. cbn. intros k [Hk _]. exact Hk.
    + intros; eapply exec_on_schedule; eassumption.
    + intros; apply pop_on_schedule; assumption.
Qed.

Lemma run_clock_monotone {R : RandomSource} (until : Q) (fuel : nat) :
  forall env env' : Env R,
    on_schedule until env ->
    final_state (run fuel until env) = Some env' ->
    now env <= now env'.
Proof.
  induction fuel as [|fuel IH]; intros env env' HI H; cbn [run] in H.
  - cbn in H. inversion H; subst. lra.
  - destruct (step until env) as [env1|env1|err] eqn:St.
    + pose proof St as Hshape. apply step_continue_shape in Hshape.
      destruct Hshape as (e & rest & Hev & Hle & Hex).
      assert (H1 : on_schedule until env1).
      { eapply exec_on_schedule; [|eassumption]. now apply pop_on_schedule. }
      apply exec_clock in Hex. destruct Hex as [Hnow _]. cbn in Hnow.
      destruct HI as [[_ H2 _ _ _] _]. rewrite Hev in H2.
      inversion H2 as [|? ? [Hfut _] _]; subst.
      specialize (IH env1 env' H1 H). rewrite Hnow in IH. lra.
    + cbn in H. inversion H; subst.
      apply step_stop_shape in St. subst. cbn. apply HI.
    + discriminate.
Qed.

Lemma run_halted_clock {R : RandomSource} (until : Q) (fuel : nat) :
  forall env env' : Env R, run fuel until env = Halted env' -> now env' = until.
Proof.
  induction fuel as [|fuel IH]; intros env env' H; cbn [run] in H.
  - discriminate.
  - destruct (step until env) as [env1|env1|err] eqn:St.
    + eapply IH; eassumption.
    + inversion H; subst. apply step_stop_shape in St. now subst.
    + discriminate.
Qed.

(** ** The state from which [main] runs *)

Lemma setup_state {R : RandomSource} (py0 : PyState R) (np0 : NpState R)
  (args : Args.t) (env : Env R) :
  setup R py0 np0 args = Ok env ->
  now env = 0 /\ scheduled env /\ within_capacity (hospital env)
  /\ (forall p, queue (pool (hospital env) p) = []).
Proof.
  unfold setup.
  destruct (Hospital_init _ _ _ _ _) as [h|err] eqn:Eh; [|discriminate].
  rewrite !schedule_after_zero. intro H; inversion H; subst; clear H.
  apply Hospital_init_ok in Eh. destruct Eh as (_ & Hp & _).
  split; [reflexivity|]. split; [|split].
  - apply scheduled_push; [apply scheduled_push|].
    + constructor; cbn [events trace];
        [constructor | constructor | constructor | constructor | intros ? ? []].
    + cbn. lra.
    + cbn. lra.
  - intro p. cbn [hospital push_event]. destruct (Hp p) as (Hu & _ & Hc).
    unfold count. rewrite Hu. simpl. lia.
  - intro p. cbn [hospital push_event]. apply Hp.
Qed.

(** ** Wait lists are first in, first out *)

Lemma ahead_In_l (a b : Handle) (l : list Handle) : ahead a b l -> In a l.
Proof.
  intros (l1 & l2 & l3 & ->). apply in_or_app. right. left. reflexivity.
Qed.

Lemma ahead_snoc (a b x : Handle) (l : list Handle) :
  ahead a b l -> ahead a b (l ++ [x]).
Proof.
  intros (l1 & l2 & l3 & ->). exists l1, l2, (l3 ++ [x]).
  rewrite <- app_assoc. cbn [app]. f_equal. f_equal.
  rewrite <- app_assoc. reflexivity.
Qed.

Lemma ahead_tl (a b : Handle) (l : list Handle) :
  NoDup l -> ahead a b l -> In a (tl l) -> ahead a b (tl l).
Proof.
  intros Hnd (l1 & l2 & l3 & ->) Hin.
  destruct l1 as [|x l1]; cbn [app tl] in *.
  - inversion Hnd; subst. contradiction.
  - exists l1, l2, l3. reflexivity.
Qed.

Lemma NoDup_snoc (x : Handle) (l : list Handle) :
  NoDup l -> ~ In x l -> NoDup (l ++ [x]).
Proof.
  induction l as [|y l IH]; intros Hnd Hin; cbn [app].
  - constructor; [intros [] | constructor].
  - inversion Hnd; subst. constructor.
    + intro H. apply in_app_or in H. destruct H as [H | [H | []]].
      * contradiction.
      * subst. apply Hin. left. reflexivity.
    + apply IH; [assumption|]. intro H. apply Hin. right. assumption.
Qed.

Lemma NoDup_tl (l : list Handle) : NoDup l -> NoDup (tl l).
Proof. destruct l; intro H; [assumption | now inversion H]. Qed.

Lemma Forall_tl (P : Handle -> Prop) (l : list Handle) :
  Forall P l -> Forall P (tl l).
Proof. destruct l; intro H; [assumption | now inversion H]. Qed.

Lemma waiting_acquire (h : Handle) (cont : Proc) (r : Resource) :
  waiting (snd (acquire h cont r)) = waiting r
  \/ waiting (snd (acquire h cont r)) = waiting r ++ [h].
Proof.
  unfold acquire, waiting. destruct (_ <? _)%Z; cbn [snd queue].
  - left; reflexivity.
  - right. rewrite map_app. reflexivity.
Qed.

Lemma waiting_release (h : Handle) (r r' : Resource) (w : option (Handle * Proc)) :
  release h r = Ok (r', w) -> waiting r' = tl (waiting r).
Proof.
  intro H. apply release_ok in H. destruct H as (_ & _ & Hq & _).
  unfold waiting. rewrite Hq. destruct (queue r); reflexivity.
Qed.

Lemma request_handles_fresh {R : RandomSource} (env : Env R) (q : PoolName)
  (cont : Proc) :
  handles_fresh env -> handles_fresh (snd (do_request q cont env)).
Proof.
  intro Hf. unfold do_request.
  pose proof (waiting_acquire (next_handle env) cont (pool (hospital env) q)) as Hw.
  destruct (acquire (next_handle env) cont (pool (hospital env) q)) as [g r].
  cbn [snd] in *. unfold handles_fresh.
  cbn [hospital next_handle set_hospital fresh_handle].
  intro x. destruct (Hf x) as [Hnd Hall].
  destruct (PoolName_eq_dec q x) as [<-|Hne].
  - rewrite pool_set_pool_same.
    destruct Hw as [-> | ->].
    + split; [assumption|].
      eapply Forall_impl; [|exact Hall]. cbn. intros; lia.
    + split.
      * apply NoDup_snoc; [assumption|].
        intro Hin. rewrite Forall_forall in Hall.
        apply Hall in Hin. lia.
      * apply Forall_app. split.
        -- eapply Forall_impl; [|exact Hall]. cbn. intros; lia.
        -- constructor; [lia | constructor].
  - rewrite pool_set_pool_other by assumption. split; [assumption|].
    eapply Forall_impl; [|exact Hall]. cbn. intros; lia.
Qed.

Lemma release_handles_fresh {R : RandomSource} (env : Env R) (q : PoolName)
  (h : Handle) (r : Resource) (w : option (Handle * Proc)) :
  handles_fresh env ->
  release h (pool (hospital env) q) = Ok (r, w) ->
  handles_fresh (set_hospital (set_pool (hospital env) q r) env).
Proof.
  intros Hf Hrel. apply waiting_release in Hrel.
  unfold handles_fresh. cbn [hospital next_handle set_hospital].
  intro x. destruct (Hf x) as [Hnd Hall].
  destruct (PoolName_eq_dec q x) as [<-|Hne].
  - rewrite pool_set_pool_same, Hrel.
    split; [now apply NoDup_tl | now apply Forall_tl].
  - rewrite pool_set_pool_other by assumption. split; assumption.
Qed.

Lemma exec_handles_fresh {R : RandomSource} (p : Proc) (env env' : Env R) :
  handles_fresh env -> exec p env = Ok env' -> handles_fresh env'.
Proof.
  apply (exec_invariant R (@handles_fresh R)); try (intros; assumption).
  - intros e q cont. apply request_handles_fresh.
  - intros e q h r w. apply release_handles_fresh.
Qed.

Lemma exec_keeps_order {R : RandomSource} (q : PoolName) (a b : Handle)
  (p : Proc) (env env' : Env R) :
  keeps_order q a b env -> exec p env = Ok env' -> keeps_order q a b env'.
Proof.
  apply (exec_invariant R (keeps_order q a b)); try (intros; assumption).
  - intros e q' cont (Hf & Ha & Hord).
    split; [now apply request_handles_fresh|].
    unfold do_request.
    pose proof (waiting_acquire (next_handle e) cont (pool (hospital e) q')) as Hw.
    destruct (acquire (next_handle e) cont (pool (hospital e) q')) as [g r].
    cbn [snd hospital next_handle set_hospital fresh_handle] in *.
    split; [lia|].
    destruct (PoolName_eq_dec q' q) as [->|Hne].
    + rewrite pool_set_pool_same.
      destruct Hw as [-> | ->]; [assumption|].
      intro Hin. apply ahead_snoc. apply Hord.
      apply in_app_or in Hin. destruct Hin as [Hin | [Hin | []]];
        [assumption | lia].
    + rewrite pool_set_pool_other by assumption. assumption.
  - intros e q' h r w (Hf & Ha & Hord) Hrel.
    split; [eapply release_handles_fresh; eassumption|].
    apply waiting_release in Hrel.
    cbn [hospital next_handle set_hospital].
    split; [assumption|].
    destruct (PoolName_eq_dec q' q) as [->|Hne].
    + rewrite pool_set_pool_same, Hrel. intro Hin.
      destruct (Hf q) as [Hnd _].
      apply ahead_tl; [assumption | | assumption].
      apply Hord. destruct (waiting (pool (hospital e) q));
        [assumption | right; assumption].
    + rewrite pool_set_pool_other by assumption. assumption.
Qed.

Lemma run_keeps_order {R : RandomSource} (q : PoolName) (a b : Handle)
  (fuel : nat) (until : Q) (env env' : Env R) :
  keeps_order q a b env ->
  final_state (run fuel until env) = Some env' ->
  keeps_order q a b env'.
Proof.
  intros HI H.
  destruct (run fuel until env) as [e|err|e] eqn:Hrun; cbn [final_state] in H;
    inversion H; subst.
  - apply (run_halted_invariant R until (keeps_order q a b)) in Hrun;
      try assumption.
    + destruct Hrun as (env0 & H0 & ->). exact H0.
    + intros; eapply exec_keeps_order; eassumption.
    + intros; assumption.
  - apply (run_out_of_fuel_invariant R until (keeps_order q a b)) in Hrun;
      try assumption.
    + intros; eapply exec_keeps_order; eassumption.
    + intros; assumption.
Qed.

Lemma run_handles_fresh {R : RandomSource} (fuel : nat) (until : Q)
  (env env' : Env R) :
  handles_fresh env ->
  final_state (run fuel until env) = Some env' ->
  handles_fresh env'.
Proof.
  intros HI H.
  destruct (run fuel until env) as [e|err|e] eqn:Hrun; cbn [final_state] in H;
    inversion H; subst.
  - apply (run_halted_invariant R until (@handles_fresh R)) in Hrun;
      try assumption.
    + destruct Hrun as (env0 & H0 & ->). exact H0.
    + intros; eapply exec_handles_fresh; eassumption.
    + intros; assumption.
  - apply (run_out_of_fuel_invariant R until (@handles_fresh R)) in Hrun;
      try assumption.
    + intros; eapply exec_handles_fresh; eassumption.
    + intros; assumption.
Qed.

(** ** Requests on the scheduler *)

Lemma exec_request_granted {R : RandomSource} (env : Env R) (p : PoolName)
  (k : Handle -> Proc) :
  (Z.of_nat (count (pool (hospital env) p)) < capacity (pool (hospital env) p))%Z ->
  exec (Request p k) env =
  exec (k (next_handle env))
    (set_hospital
       (set_pool (hospital env) p
          {| capacity := capacity (pool (hospital env) p);
             users := users (pool (hospital env) p) ++ [next_handle env];
             queue := queue (pool (hospital env) p) |})
       (fresh_handle env)).
Proof.
  intro Hlt. cbn [exec]. unfold do_request.
  rewrite acquire_granted by assumption. reflexivity.
Qed.

Lemma exec_request_parked {R : RandomSource} (env : Env R) (p : PoolName)
  (k : Handle -> Proc) :
  (capacity (pool (hospital env) p) <= Z.of_nat (count (pool (hospital env) p)))%Z ->
  exec (Request p k) env =
  Ok (set_hospital
        (set_pool (hospital env) p
           {| capacity := capacity (pool (hospital env) p);
              users := users (pool (hospital env) p);
              queue := queue (pool (hospital env) p)
                       ++ [(next_handle env, k (next_handle env))] |})
        (fresh_handle env)).
Proof.
  intro Hle. cbn [exec]. unfold do_request.
  rewrite acquire_parked by assumption. reflexivity.
Qed.

Lemma do_release_head {R : RandomSource} (env : Env R) (p : PoolName)
  (h : Handle) (w : Handle * Proc) (ws : list (Handle * Proc)) :
  In h (users (pool (hospital env) p)) ->
  queue (pool (hospital env) p) = w :: ws ->
  do_release p h env =
  Ok (push_event (Resume (snd w)) (now env + 0)
        (set_hospital
           (set_pool (hospital env) p
              {| capacity := capacity (pool (hospital env) p);
                 users := remove_first h (users (pool (hospital env) p)) ++ [fst w];
                 queue := ws |})
           env)).
Proof.
  intros Hin Hq. unfold do_release, release.
  apply existsb_eqb_In in Hin. rewrite Hin, Hq. reflexivity.
Qed.

(** ** Reading the outcome of a run *)

Lemma still_running_state {R : RandomSource} (o : Outcome R) :
  still_running o = true -> exists env, o = OutOfFuel env.
Proof. destruct o; try discriminate. intros _. eexists; reflexivity. Qed.

Lemma halted_state {R : RandomSource} (o : Outcome R) :
  halted o = true -> exists env, o = Halted env.
Proof. destruct o; try discriminate. intros _. eexists; reflexivity. Qed.

Lemma pool_view_final_state {R : RandomSource} (p : PoolName) (o : Outcome R)
  (v : list Handle * list Handle) :
  pool_view p o = Some v -> exists env, final_state o = Some env.
Proof.
  unfold pool_view. destruct (final_state o) as [env|]; [|discriminate].
  intros _. eexists; reflexivity.
Qed.

Lemma pool_view_state {R : RandomSource} (p : PoolName) (o : Outcome R)
  (u w : list Handle) :
  pool_view p o = Some (u, w) ->
  forall env, final_state o = Some env ->
    users (pool (hospital env) p) = u /\ waiting (pool (hospital env) p) = w.
Proof.
  unfold pool_view. intros H env E. rewrite E in H.
  inversion H; subst. split; reflexivity.
Qed.

(** ** The lists of a run of [main] are ordered *)

Lemma run_scheduled {R : RandomSource} (fuel : nat) (until : Q) (env env' : Env R) :
  scheduled env ->
  final_state (run fuel until env) = Some env' ->
  StronglySorted (fun e1 e2 => key_lt (key e1) (key e2)) (events env')
  /\ StronglySorted (fun later earlier => key_lt earlier later) (trace env').
Proof.
  intros HI H.
  destruct (run fuel until env) as [e|err|e] eqn:Hrun; cbn [final_state] in H;
    inversion H; subst.
  - apply (run_halted_invariant R until (@scheduled R)) in Hrun; try assumption.
    + destruct Hrun as (e0 & [H1 _ _ H4 _] & ->). split; assumption.
    + intros; eapply exec_scheduled; eassumption.
    + intros; apply scheduled_pop; assumption.
  - apply (run_out_of_fuel_invariant R until (@scheduled R)) in Hrun;
      try assumption.
    + destruct Hrun as [H1 _ _ H4 _]. split; assumption.
    + intros; eapply exec_scheduled; eassumption.
    + intros; apply scheduled_pop; assumption.
Qed.

Lemma main_scheduled {R : RandomSource} (py0 : PyState R) (np0 : NpState R)
  (args : Args.t) (fuel : nat) (env : Env R) :
  final_state (main R py0 np0 args fuel) = Some env ->
  StronglySorted (fun e1 e2 => key_lt (key e1) (key e2)) (events env)
  /\ StronglySorted (fun later earlier => key_lt earlier later) (trace env).
Proof.
  unfold main. intro H.
  destruct (setup R py0 np0 args) as [env0|err] eqn:Es; [|discriminate].
  apply setup_state in Es. destruct Es as (_ & Hsch & _ & _).
  eapply run_scheduled; eassumption.
Qed.

(** Every executed event precedes every pending one. *)
Lemma run_executed_before_pending {R : RandomSource} (fuel : nat) (until : Q)
  (env env' : Env R) :
  scheduled env ->
  final_state (run fuel until env) = Some env' ->
  forall k e, In k (trace env') -> In e (events env') -> key_lt k (key e).
Proof.
  intros HI H.
  destruct (run fuel until env) as [e|err|e] eqn:Hrun; cbn [final_state] in H;
    inversion H; subst.
  - apply (run_halted_invariant R until (@scheduled R)) in Hrun; try assumption.
    + destruct Hrun as (e0 & [_ _ _ _ H5] & ->). exact H5.
    + intros; eapply exec_scheduled; eassumption.
    + intros; apply scheduled_pop; assumption.
  - apply (run_out_of_fuel_invariant R until (@scheduled R)) in Hrun;
      try assumption.
    + destruct Hrun as [_ _ _ _ H5]. exact H5.
    + intros; eapply exec_scheduled; eassumption.
    + intros; apply scheduled_pop; assumption.
Qed.

Lemma main_executed_before_pending {R : RandomSource} (py0 : PyState R)
  (np0 : NpState R) (args : Args.t) (fuel : nat) (env : Env R) :
  final_state (main R py0 np0 args fuel) = Some env ->
  forall k e, In k (trace env) -> In e (events env) -> key_lt k (key e).
Proof.
  unfold main. intro H.
  destruct (setup R py0 np0 args) as [env0|err] eqn:Es; [|discriminate].
  apply setup_state in Es. destruct Es as (_ & Hsch & _ & _).
  eapply run_executed_before_pending; eassumption.
Qed.

(** ** Errors of a run *)

Lemma schedule_after_error {R : RandomSource} (d : Q) (t : Task) (env : Env R)
  (e : Error) :
  schedule_after d t env = Fail e -> e = InvalidDelay.
Proof.
  unfold schedule_after. destruct (Qltb d 0); intro H; now inversion H.
Qed.

Lemma do_release_error {R : RandomSource} (p : PoolName) (h : Handle)
  (env : Env R) (e : Error) :
  do_release p h env = Fail e -> e = DoubleRelease.
Proof.
  unfold do_release, release.
  destruct (existsb (Nat.eqb h) (users (pool (hospital env) p)));
    [|intro H; now inversion H].
  destruct (queue (pool (hospital env) p)) as [|w ws]; [discriminate|].
  rewrite schedule_after_zero. discriminate.
Qed.

Lemma exec_error {R : RandomSource} (p : Proc) :
  forall (env : Env R) (e : Error),
    exec p env = Fail e -> e <> InvalidConfiguration.
Proof.
  induction p as [ | k IH | k IH | scale k IH | delay t | a p IH
                 | child _ p IH | q k IH | q req p IH | w p IH
                 | q k IH | q k IH | q k IH | key0 v p IH ];
    intros env e H; cbn [exec] in H.
  - discriminate.
  - eapply IH; eassumption.
  - destruct (py_random R (py_rng env)). eapply IH; eassumption.
  - destruct (np_exponential R scale (np_rng env)). eapply IH; eassumption.
  - apply schedule_after_error in H. subst. discriminate.
  - destruct (hospital_method R a (np_rng env)).
    apply schedule_after_error in H. subst. discriminate.
  - rewrite schedule_after_zero in H. eapply IH; eassumption.
  - destruct (do_request q (k (next_handle env)) env) as [granted env1].
    destruct granted; [eapply IH; eassumption | discriminate].
  - destruct (do_release q req env) as [env1|e1] eqn:E.
    + eapply IH; eassumption.
    + inversion H; subst. apply do_release_error in E. subst. discriminate.
  - eapply IH; eassumption.
  - eapply IH; eassumption.
  - eapply IH; eassumption.
  - eapply IH; eassumption.
  - eapply IH; eassumption.
Qed.

Lemma run_error {R : RandomSource} (until : Q) (fuel : nat) :
  forall (env : Env R) (e : Error),
    run fuel until env = Raised e -> e <> InvalidConfiguration.
Proof.
  induction fuel as [|fuel IH]; intros env e H; cbn [run] in H.
  - discriminate.
  - destruct (step until env) as [env1|env1|err] eqn:St.
    + eapply IH; eassumption.
    + discriminate.
    + inversion H; subst. unfold step in St.
      destruct (events env) as [|ev rest]; [discriminate|].
      destruct (Qltb until (time ev)); [discriminate|].
      destruct (exec _ _) as [env1|err] eqn:Ex; [discriminate|].
      inversion St; subst. eapply exec_error; eassumption.
Qed.

(** One iteration of the arrival generator on the scheduler. *)
Lemma exec_generator_iteration {R : RandomSource} (i n : nat) (rate : Q)
  (env : Env R) :
  let d := fst (np_exponential R rate (np_rng env)) in
  match exec (patient_generator_from i (S n) rate) env with
  | Ok env' =>
      0 <= d
      /\ events env'
         = insert_event
             {| time := now env + d; seq := S (next_seq env);
                task := Resume (patient_generator_from (S i) n rate) |}
             (insert_event
                {| time := now env + 0; seq := next_seq env;
                   task := Resume (patient (i + 1)) |}
                (events env))
      /\ now env' = now env /\ wait_times env' = wait_times env
  | Fail e => d < 0 /\ e = InvalidDelay
  end.
Proof.
  cbn [patient_generator_from exec]. rewrite schedule_after_zero.
  cbn [push_event np_rng].
  destruct (np_exponential R rate (np_rng env)) as [d g]. cbn [fst exec].
  unfold schedule_after. destruct (Qltb d 0) eqn:E.
  - apply Qltb_true_iff in E. split; [exact E | reflexivity].
  - apply Qltb_false_iff in E. split; [exact E|].
    cbn [push_event set_np_rng events now next_seq wait_times].
    repeat split.
Qed.

(** No [Hospital] method yields a negative delay. *)
Lemma hospital_method_nonnegative (R : RandomSource) (a : Activity) (g : NpState R) :
  0 <= fst (hospital_method R a g).
Proof.
  destruct a; cbn [hospital_method];
    unfold consult, medication, review, admit_, fast_lab, fast_lab_wait,
      ed_lab_wait, ed_lab;
    match goal with
    | |- context [np_normal R ?m ?s g] => destruct (np_normal R m s g) as [x g']
    end;
    cbn [fst];
    match goal with
    | |- 0 <= py_max ?fl ?y => pose proof (py_max_floor fl y); lra
    end.
Qed.

(** ** A patient alone in the hospital runs to its end *)

Lemma completes_le (R : RandomSource) (b b' : nat) (a : Q) (p : Proc) :
  (b <= b')%nat -> completes R b a p -> completes R b' a p.
Proof.
  intros Hb H env Ha.
  destruct (H env Ha) as (n & env0 & T & Hn & Hrest).
  exists n, env0, T. split; [lia | exact Hrest].
Qed.

(** The last statement of [patient]. *)
Lemma completes_record (R : RandomSource) (a : Q) :
  completes R 0 a (GetNow (fun t => AppendWait (t - a) Done)).
Proof.
  intros env Ha.
  exists 0%nat, (set_wait_times (wait_times env ++ [now env - a]) env), (now env).
  split; [lia|]. split; [reflexivity|]. split; [lra|].
  intro until. cbn [run]. split; [exact Ha|]. split; reflexivity.
Qed.

Lemma completes_random (R : RandomSource) (b : nat) (a : Q) (k : Q -> Proc) :
  (forall u, completes R b a (k u)) -> completes R b a (PyRandom k).
Proof.
  intros H env Ha. cbn [exec].
  destruct (py_random R (py_rng env)) as [u g].
  destruct (H u (set_py_rng g env) Ha) as (n & env0 & T & Hn & Hex & HT & Hrun).
  exists n, env0, T. exact (conj Hn (conj Hex (conj HT Hrun))).
Qed.

(** A statement after which the patient is suspended in one event, and is
    alone again when the scheduler resumes it. *)
Lemma completes_turn (R : RandomSource) (b : nat) (a : Q) (p k : Proc) :
  (forall env : Env R, alone env ->
     exists (env1 env3 : Env R) (e : Event),
       exec p env = Ok env1 /\ events env1 = [e] /\ now env <= time e
       /\ wait_times env1 = wait_times env
       /\ alone env3 /\ now env3 = time e /\ wait_times env3 = wait_times env
       /\ exec (resume (task e))
            (set_clock (time e) [] ((time e, seq e) :: trace env1) env1)
          = exec k env3) ->
  completes R b a k -> completes R (S b) a p.
Proof.
  intros Hturn Hk env Ha.
  destruct (Hturn env Ha)
    as (env1 & env3 & e & Hex & Hev & Hle & Hw1 & Ha3 & Hn3 & Hw3 & Hres).
  destruct (Hk env3 Ha3) as (n & env0 & T & Hn & Hexk & HT & Hrun).
  rewrite Hn3 in HT.
  exists (S n), env1, T. split; [lia|]. split; [exact Hex|]. split; [lra|].
  intro until. cbn [run]. unfold step. rewrite Hev.
  destruct (Qltb until (time e)) eqn:E.
  - apply Qltb_true_iff in E. split; [lra|]. exact Hw1.
  - rewrite Hres, Hexk. specialize (Hrun until). rewrite Hw3 in Hrun.
    exact Hrun.
Qed.

Lemma release_sole (h : Handle) (r : Resource) :
  users r = [h] -> queue r = [] ->
  release h r = Ok ({| capacity := capacity r; users := []; queue := [] |}, None).
Proof.
  intros Hu Hq. unfold release. rewrite Hu, Hq. cbn [existsb remove_first].
  rewrite Nat.eqb_refl. reflexivity.
Qed.

Lemma vacant_restored (h : Hospital) (q : PoolName) (r : Resource) :
  vacant h ->
  vacant (set_pool (set_pool h q r) q
            {| capacity := capacity (pool h q); users := []; queue := [] |}).
Proof.
  intros Hv p. destruct (PoolName_eq_dec q p) as [<-|Hne].
  - rewrite pool_set_pool_same. cbn [users queue capacity].
    split; [reflexivity|]. split; [reflexivity|]. apply Hv.
  - rewrite !pool_set_pool_other by assumption. apply Hv.
Qed.

(** A timed activity outside a with-block. *)
Lemma completes_process (R : RandomSource) (b : nat) (a : Q) (act : Activity)
  (k : Proc) :
  completes R b a k -> completes R (S b) a (Process act k).
Proof.
  apply completes_turn. intros env [Hv He]. cbn [exec].
  pose proof (hospital_method_nonnegative R act (np_rng env)) as Hd.
  destruct (hospital_method R act (np_rng env)) as [d g]. cbn [fst] in Hd.
  unfold schedule_after.
  assert (Hd' : Qltb d 0 = false) by now apply Qltb_false_iff.
  rewrite Hd'.
  exists (push_event (Resume k) (now env + d) (set_np_rng g env)),
    (set_clock (now env + d) [] ((now env + d, next_seq env) :: trace env)
       (push_event (Resume k) (now env + d) (set_np_rng g env))),
    {| time := now env + d; seq := next_seq env; task := Resume k |}.
  split; [reflexivity|]. split.
  { cbn [push_event events set_np_rng]. rewrite He. reflexivity. }
  split; [cbn [time]; lra|]. split; [reflexivity|]. split.
  { split; [exact Hv | reflexivity]. }
  split; [reflexivity|]. split; reflexivity.
Qed.

(** A with-block around a timed activity. *)
Lemma completes_with_request (R : RandomSource) (b : nat) (a : Q)
  (q : PoolName) (act : Activity) (k : Proc) :
  completes R b a k ->
  completes R (S b) a (with_request q (Process act) k).
Proof.
  apply completes_turn. intros env [Hv He].
  destruct (Hv q) as (Hu & Hq & Hc).
  unfold with_request. cbn [exec]. unfold do_request, acquire, count.
  rewrite Hu. cbn [length Z.of_nat].
  assert (Hlt : (0 <? capacity (pool (hospital env) q))%Z = true)
    by now apply Z.ltb_lt.
  rewrite Hlt. cbn [exec np_rng set_hospital fresh_handle].
  pose proof (hospital_method_nonnegative R act (np_rng env)) as Hd.
  destruct (hospital_method R act (np_rng env)) as [d g]. cbn [fst] in Hd.
  unfold schedule_after.
  assert (Hd' : Qltb d 0 = false) by now apply Qltb_false_iff.
  rewrite Hd'.
  set (h := next_handle env).
  set (r := {| capacity := capacity (pool (hospital env) q);
               users := [] ++ [h]; queue := queue (pool (hospital env) q) |}).
  set (env1 := push_event (Resume (Release q h k)) _ _).
  set (e := {| time := now env + d; seq := next_seq env;
               task := Resume (Release q h k) |}).
  exists env1,
    (set_hospital
       (set_pool (set_pool (hospital env) q r) q
          {| capacity := capacity (pool (hospital env) q);
             users := []; queue := [] |})
       (set_clock (time e) [] ((time e, seq e) :: trace env1) env1)),
    e.
  split; [reflexivity|]. split.
  { subst env1. cbn [push_event events set_np_rng set_hospital fresh_handle].
    rewrite He. reflexivity. }
  split; [unfold e; cbn [time]; lra|]. split; [reflexivity|]. split.
  { split; [|reflexivity]. cbn [hospital set_hospital].
    now apply vacant_restored. }
  split; [reflexivity|]. split; [reflexivity|].
  unfold e at 1. cbn [resume task exec]. unfold do_release.
  cbn [hospital set_clock].
  change (hospital env1) with (set_pool (hospital env) q r).
  rewrite pool_set_pool_same.
  rewrite (release_sole h r eq_refl Hq). reflexivity.
Qed.

(** A patient that is alone when it arrives runs to its end in at most
    five turns of the scheduler. *)
Lemma patient_completes (R : RandomSource) (name : nat) (env : Env R) :
  alone env ->
  exists (n : nat) (env0 : Env R) (completion : Q),
    (n <= 5)%nat /\ exec (patient name) env = Ok env0 /\ now env <= completion
    /\ forall until : Q,
         match run n until env0 with
         | OutOfFuel env' =>
             alone env' /\ now env' = completion
             /\ wait_times env' = wait_times env ++ [completion - now env]
         | Halted env' =>
             until < completion /\ wait_times env' = wait_times env
         | Raised _ => False
         end.
Proof.
  intro Ha. unfold patient. cbn [exec].
  assert (Hrec : forall b, completes R b (now env)
                   (GetNow (fun t => AppendWait (t - now env) Done))).
  { intro b. apply (completes_le R 0); [lia | apply completes_record]. }
  assert (H : completes R 5 (now env)
                (PyRandom (fun u =>
                   if Qltb u 0.3 then
                     with_request Fast_doctor (Process Consult) (
                       PyRandom (fun u1 =>
                         if Qltb u1 0.3 then
                           with_request Fast_nurse (Process Fast_lab) (
                           Process Fast_lab_wait (
                           with_request Fast_doctor (Process Review) (
                           with_request Fast_nurse (Process Medication)
                             (GetNow (fun t => AppendWait (t - now env) Done)))))
                         else
                           with_request Fast_nurse (Process Medication)
                             (GetNow (fun t => AppendWait (t - now env) Done))))
                   else
                     with_request Ed_doctor (Process Consult) (
                       PyRandom (fun u1 =>
                         if Qltb u1 0.7 then
                           with_request Ed_nurse (Process Ed_lab) (
                           Process Ed_lab_wait (
                           with_request Ed_doctor (Process Review) (
                           PyRandom (fun u2 =>
                             if Qltb u2 0.5 then
                               with_request Beds_pool (Process Admit)
                                 (GetNow (fun t => AppendWait (t - now env) Done))
                             else
                               with_request Ed_nurse (Process Medication)
                                 (GetNow (fun t => AppendWait (t - now env) Done))))))
                         else
                           PyRandom (fun u2 =>
                             if Qltb u2 0.5 then
                               with_request Beds_pool (Process Admit)
                                 (GetNow (fun t => AppendWait (t - now env) Done))
                             else
                               with_request Ed_nurse (Process Medication)
                                 (GetNow (fun t => AppendWait (t - now env) Done)))))))).
  { repeat match goal with
           | |- completes _ _ _ (PyRandom _) => apply completes_random; intro
           | |- completes _ _ _ (if ?c then _ else _) => destruct c
           | |- completes _ (S _) _ (with_request _ (Process _) _) =>
               apply completes_with_request
           | |- completes _ (S _) _ (Process _ _) => apply completes_process
           | |- completes _ _ _ (GetNow _) => apply Hrec
           end. }
  exact (H env Ha).
Qed.

(** * The claims *)

(** C1. For every pool and at every point of a run of [main], the
    occupancy lies between 0 and the capacity.  In particular, for a pool
    of capacity 1 and two requests in a row: the first is granted, the
    second is parked with the occupancy still 1, and it is the release of
    the first that admits the second; on the scheduler a request on a full
    pool suspends the caller without scheduling anything for it, and it
    is the release by a holder that schedules the resumption of the head
    of the wait list. *)
Theorem occupancy_within_capacity :
  (forall (R : RandomSource) (py0 : PyState R) (np0 : NpState R)
          (args : Args.t) (fuel : nat) (env : Env R),
      final_state (main R py0 np0 args fuel) = Some env ->
      within_capacity (hospital env))
  /\ (forall (h1 h2 : Handle) (c1 c2 : Proc) (r : Resource),
         capacity r = 1%Z -> users r = [] -> queue r = [] ->
         exists r1 r2 r3,
           acquire h1 c1 r = (true, r1)
           /\ acquire h2 c2 r1 = (false, r2)
           /\ count r1 = 1%nat /\ count r2 = 1%nat /\ waiting r2 = [h2]
           /\ release h1 r2 = Ok (r3, Some (h2, c2))
           /\ users r3 = [h2] /\ waiting r3 = [])
  /\ (forall (R : RandomSource) (env : Env R) (p : PoolName) (k : Handle -> Proc),
         (capacity (pool (hospital env) p)
          <= Z.of_nat (count (pool (hospital env) p)))%Z ->
         exists env',
           exec (Request p k) env = Ok env'
           /\ events env' = events env
           /\ users (pool (hospital env') p) = users (pool (hospital env) p)
           /\ waiting (pool (hospital env') p)
              = waiting (pool (hospital env) p) ++ [next_handle env])
  /\ (forall (R : RandomSource) (env : Env R) (p : PoolName) (h : Handle)
             (w : Handle * Proc) (ws : list (Handle * Proc)),
         In h (users (pool (hospital env) p)) ->
         queue (pool (hospital env) p) = w :: ws ->
         do_release p h env =
         Ok (push_event (Resume (snd w)) (now env + 0)
               (set_hospital
                  (set_pool (hospital env) p
                     {| capacity := capacity (pool (hospital env) p);
                        users := remove_first h (users (pool (hospital env) p))
                                 ++ [fst w];
                        queue := ws |})
                  env))).
Proof.
  split; [|split; [|split]].
  4:{ intros. now apply do_release_head. }
  - intros R py0 np0 args fuel env H. unfold main in H.
    destruct (setup R py0 np0 args) as [env0|err] eqn:Es; [|discriminate].
    apply setup_state in Es. destruct Es as (_ & _ & Hc & _).
    eapply run_within_capacity; eassumption.
  - intros h1 h2 c1 c2 r Hcap Hu Hq.
    destruct r as [cap us q]. cbn in Hcap, Hu, Hq. subst.
    exists {| capacity := 1; users := [h1]; queue := [] |},
           {| capacity := 1; users := [h1]; queue := [(h2, c2)] |},
           {| capacity := 1; users := [h2]; queue := [] |}.
    unfold acquire, release, count, waiting.
    cbn [capacity users queue length app map fst existsb remove_first].
    rewrite Nat.eqb_refl. cbn.
    repeat split; reflexivity.
  - intros R env p k Hle. eexists. split; [now apply exec_request_parked|].
    cbn [events set_hospital fresh_handle hospital].
    rewrite pool_set_pool_same. unfold waiting. cbn [users queue].
    rewrite map_app. repeat split; reflexivity.
Qed.

(** The occupancy bound on a run with contention, and the two contenders
    on the scheduler: after both have requested at time 0 the first holds
    the unit and the second waits; the third event, the end of the first
    consultation, hands the unit over. *)
Lemma occupancy_within_capacity_witness :
  (exists env,
      final_state (main table_source 0%nat 0%nat crowded_args 12) = Some env
      /\ users (pool (hospital env) Ed_doctor) = [1%nat]
      /\ within_capacity (hospital env))
  /\ (exists env,
         two_contenders table_source 0%nat 0%nat = Ok env
         /\ pool_view Fast_doctor (run 2 100 env) = Some ([0%nat], [1%nat])
         /\ pool_view Fast_doctor (run 3 100 env) = Some ([1%nat], [])).
Proof.
  split.
  - assert (V : pool_view Ed_doctor
                  (main table_source 0%nat 0%nat crowded_args 12)
                = Some ([1%nat], [3%nat; 4%nat])) by (vm_compute; reflexivity).
    destruct (pool_view_final_state _ _ _ V) as [env E].
    exists env. split; [exact E|]. split.
    + apply (pool_view_state _ _ _ _ V env E).
    + exact (proj1 occupancy_within_capacity table_source 0%nat 0%nat
               crowded_args 12%nat env E).
  - eexists. split; [reflexivity|]. split; vm_compute; reflexivity.
Defined.

(** C2. Admission to a pool is first in, first out.  A request on a pool
    with room left is granted at once and the caller goes on running; on
    a full pool the caller is appended to the wait list and suspended.  A
    release with a non-empty wait list admits exactly its head, and the
    event that resumes it is scheduled at the current instant.  Hence, if
    [a] waits ahead of [b], then as long as [a] is still waiting [b] is
    waiting behind it: [a] is admitted no later than [b].  This holds from
    any state with distinct handles, and every state of a run of [main] is
    such a state. *)
Theorem fifo_admission :
  (forall (R : RandomSource) (env : Env R) (p : PoolName) (k : Handle -> Proc),
      (Z.of_nat (count (pool (hospital env) p))
       < capacity (pool (hospital env) p))%Z ->
      exec (Request p k) env =
      exec (k (next_handle env))
        (set_hospital
           (set_pool (hospital env) p
              {| capacity := capacity (pool (hospital env) p);
                 users := users (pool (hospital env) p) ++ [next_handle env];
                 queue := queue (pool (hospital env) p) |})
           (fresh_handle env)))
  /\ (forall (R : RandomSource) (env : Env R) (p : PoolName) (k : Handle -> Proc),
         (capacity (pool (hospital env) p)
          <= Z.of_nat (count (pool (hospital env) p)))%Z ->
         exec (Request p k) env =
         Ok (set_hospital
               (set_pool (hospital env) p
                  {| capacity := capacity (pool (hospital env) p);
                     users := users (pool (hospital env) p);
                     queue := queue (pool (hospital env) p)
                              ++ [(next_handle env, k (next_handle env))] |})
               (fresh_handle env)))
  /\ (forall (R : RandomSource) (env : Env R) (p : PoolName) (h : Handle)
             (w : Handle * Proc) (ws : list (Handle * Proc)),
         In h (users (pool (hospital env) p)) ->
         queue (pool (hospital env) p) = w :: ws ->
         exists env' e,
           do_release p h env = Ok env'
           /\ users (pool (hospital env') p)
              = remove_first h (users (pool (hospital env) p)) ++ [fst w]
           /\ queue (pool (hospital env') p) = ws
           /\ now env' = now env
           /\ task e = Resume (snd w) /\ time e == now env
           /\ seq e = next_seq env
           /\ (forall x, In x (events env') <-> x = e \/ In x (events env)))
  /\ (forall (R : RandomSource) (fuel : nat) (until : Q) (env env' : Env R)
             (p : PoolName) (a b : Handle),
         handles_fresh env ->
         ahead a b (waiting (pool (hospital env) p)) ->
         final_state (run fuel until env) = Some env' ->
         In a (waiting (pool (hospital env') p)) ->
         ahead a b (waiting (pool (hospital env') p)))
  /\ (forall (R : RandomSource) (py0 : PyState R) (np0 : NpState R)
             (args : Args.t) (n m : nat) (e1 e2 : Env R)
             (p : PoolName) (a b : Handle),
         main R py0 np0 args n = OutOfFuel e1 ->
         final_state (main R py0 np0 args (n + m)) = Some e2 ->
         ahead a b (waiting (pool (hospital e1) p)) ->
         In a (waiting (pool (hospital e2) p)) ->
         ahead a b (waiting (pool (hospital e2) p))).
Proof.
  assert (Hgen : forall (R : RandomSource) (fuel : nat) (until : Q)
                        (env env' : Env R) (p : PoolName) (a b : Handle),
             handles_fresh env ->
             ahead a b (waiting (pool (hospital env) p)) ->
             final_state (run fuel until env) = Some env' ->
             In a (waiting (pool (hospital env') p)) ->
             ahead a b (waiting (pool (hospital env') p))).
  { intros R fuel until env env' p a b Hf Hab Hrun Hin.
    assert (Hk : keeps_order p a b env).
    { split; [assumption|]. split; [|intros _; assumption].
      destruct (Hf p) as [_ Hall]. rewrite Forall_forall in Hall.
      apply Hall. eapply ahead_In_l; eassumption. }
    pose proof (run_keeps_order p a b fuel until env env' Hk Hrun) as (_ & _ & H).
    apply H; assumption. }
  split; [|split; [|split; [|split]]].
  - intros. now apply exec_request_granted.
  - intros. now apply exec_request_parked.
  - intros R env p h w ws Hin Hq.
    exists (push_event (Resume (snd w)) (now env + 0)
              (set_hospital
                 (set_pool (hospital env) p
                    {| capacity := capacity (pool (hospital env) p);
                       users := remove_first h (users (pool (hospital env) p))
                                ++ [fst w];
                       queue := ws |})
                 env)),
           {| time := now env + 0; seq := next_seq env; task := Resume (snd w) |}.
    split; [now apply do_release_head|].
    cbn [hospital push_event set_hospital now events next_seq time seq task].
    rewrite pool_set_pool_same. cbn [users queue].
    repeat split; try reflexivity.
    + lra.
    + apply insert_event_In.
    + apply insert_event_In.
  - exact Hgen.
  - intros R py0 np0 args n m e1 e2 p a b H1 H2 Hab Hin.
    unfold main in H1, H2.
    destruct (setup R py0 np0 args) as [env0|err] eqn:Es; [|discriminate].
    apply setup_state in Es. destruct Es as (_ & _ & _ & Hq).
    assert (Hf0 : handles_fresh env0).
    { intro x. unfold waiting. rewrite Hq. cbn. split; constructor. }
    assert (Hf1 : handles_fresh e1).
    { eapply run_handles_fresh; [exact Hf0|]. rewrite H1. reflexivity. }
    rewrite (run_add _ n m env0 e1 H1) in H2.
    eapply Hgen; eassumption.
Qed.


(** In the crowded run, handles 3 and 4 wait for the main-department
    doctor after 12 events, in this order; three events later both still
    wait, in the same order. *)
Lemma fifo_admission_witness :
  exists e1 e2,
    main table_source 0%nat 0%nat crowded_args 12 = OutOfFuel e1
    /\ final_state (main table_source 0%nat 0%nat crowded_args (12 + 3)) = Some e2
    /\ waiting (pool (hospital e1) Ed_doctor) = [3%nat; 4%nat]
    /\ ahead 3%nat 4%nat (waiting (pool (hospital e2) Ed_doctor)).
Proof.
  assert (S1 : still_running (main table_source 0%nat 0%nat crowded_args 12)
               = true) by (vm_compute; reflexivity).
  assert (V1 : pool_view Ed_doctor
                 (main table_source 0%nat 0%nat crowded_args 12)
               = Some ([1%nat], [3%nat; 4%nat])) by (vm_compute; reflexivity).
  assert (V2 : pool_view Ed_doctor
                 (main table_source 0%nat 0%nat crowded_args (12 + 3))
               = Some ([1%nat], [3%nat; 4%nat])) by (vm_compute; reflexivity).
  destruct (still_running_state _ S1) as [e1 E1].
  destruct (pool_view_final_state _ _ _ V2) as [e2 E2].
  assert (F1 : final_state (main table_source 0%nat 0%nat crowded_args 12)
               = Some e1) by (rewrite E1; reflexivity).
  destruct (pool_view_state _ _ _ _ V1 e1 F1) as [_ W1].
  destruct (pool_view_state _ _ _ _ V2 e2 E2) as [_ W2].
  exists e1, e2. split; [exact E1|]. split; [exact E2|]. split; [exact W1|].
  apply (proj2 (proj2 (proj2 (proj2 fifo_admission))) table_source 0%nat 0%nat
           crowded_args 12%nat 3%nat e1 e2 Ed_doctor 3%nat 4%nat E1 E2).
  - rewrite W1. exists [], [], []. reflexivity.
  - rewrite W2. left. reflexivity.
Defined.

(** C3. For a horizon that is not before the start of the run: at every
    point of a run of [main] the clock lies between 0 and the horizon, it
    never decreases from one point of the run to a later one, and when
    the run completes normally the clock is the horizon. *)
Theorem clock_monotone_within_horizon (R : RandomSource) (py0 : PyState R)
  (np0 : NpState R) (args : Args.t) :
  (0 <= Args.sim_time args)%Z ->
  (forall (fuel : nat) (env : Env R),
      final_state (main R py0 np0 args fuel) = Some env ->
      0 <= now env /\ now env <= inject_Z (Args.sim_time args))
  /\ (forall (n m : nat) (e1 e2 : Env R),
         main R py0 np0 args n = OutOfFuel e1 ->
         final_state (main R py0 np0 args (n + m)) = Some e2 ->
         now e1 <= now e2)
  /\ (forall (fuel : nat) (env : Env R),
         main R py0 np0 args fuel = Halted env ->
         now env = inject_Z (Args.sim_time args)).
Proof.
  intro Hpos. unfold main.
  destruct (setup R py0 np0 args) as [env0|err] eqn:Es.
  2:{ repeat split; intros; discriminate. }
  apply setup_state in Es. destruct Es as (Hnow & Hsch & _ & _).
  assert (H0 : on_schedule (inject_Z (Args.sim_time args)) env0).
  { split; [assumption|]. rewrite Hnow.
    change 0 with (inject_Z 0). rewrite <- Zle_Qle. assumption. }
  split; [|split].
  - intros fuel env H. split.
    + pose proof (run_clock_monotone _ fuel env0 env H0 H) as Hm.
      rewrite Hnow in Hm. exact Hm.
    + now destruct (run_on_schedule fuel _ env0 env H0 H).
  - intros n m e1 e2 H1 H2.
    rewrite (run_add _ n m env0 e1 H1) in H2.
    assert (H1' : on_schedule (inject_Z (Args.sim_time args)) e1).
    { eapply (run_out_of_fuel_invariant R _ (on_schedule _)); try eassumption.
      - intros; eapply exec_on_schedule; eassumption.
      - intros; apply pop_on_schedule; assumption. }
    eapply run_clock_monotone; eassumption.
  - intros fuel env H. eapply run_halted_clock; eassumption.
Qed.

(** The small run: the clock is 6 after 12 events, and the run completes
    within 40 events with the clock at the horizon, 30. *)
Lemma clock_monotone_within_horizon_witness :
  (0 <= Args.sim_time small_args)%Z
  /\ exists e1 e2,
       main table_source 0%nat 0%nat small_args 12 = OutOfFuel e1
       /\ main table_source 0%nat 0%nat small_args (12 + 28) = Halted e2
       /\ now e1 <= now e2
       /\ now e2 = 30.
Proof.
  assert (Hpos : (0 <= Args.sim_time small_args)%Z) by (cbn; lia).
  split; [exact Hpos|].
  assert (S1 : still_running (main table_source 0%nat 0%nat small_args 12)
               = true) by (vm_compute; reflexivity).
  assert (S2 : halted (main table_source 0%nat 0%nat small_args (12 + 28))
               = true) by (vm_compute; reflexivity).
  destruct (still_running_state _ S1) as [e1 E1].
  destruct (halted_state _ S2) as [e2 E2].
  destruct (clock_monotone_within_horizon table_source 0%nat 0%nat small_args
              Hpos) as (_ & Hmono & Hend).
  exists e1, e2. split; [exact E1|]. split; [exact E2|]. split.
  - apply (Hmono 12%nat 28%nat e1 e2 E1). rewrite E2. reflexivity.
  - exact (Hend _ _ E2).
Defined.

(** C4. Events are executed in the order of the event queue: by
    timestamp, and among events of equal timestamp by sequence number,
    which is the order of the schedule calls.  The history of every run
    of [main], latest event first, is strictly ordered in this way; each
    schedule call takes the next sequence number; each turn of the
    scheduler pops the head of the queue, whose timestamp is within the
    horizon, and resumes the process of that very event; in every state
    of a run of [main] the pending events are strictly ordered in the
    same way and every executed event precedes every pending one, so the
    head is the earliest of them. *)
Theorem events_in_schedule_order :
  (forall (R : RandomSource) (py0 : PyState R) (np0 : NpState R)
          (args : Args.t) (fuel : nat) (env : Env R),
      final_state (main R py0 np0 args fuel) = Some env ->
      StronglySorted (fun later earlier => key_lt earlier later) (trace env))
  /\ (forall (R : RandomSource) (d : Q) (t : Task) (env env' : Env R),
         schedule_after d t env = Ok env' ->
         next_seq env' = S (next_seq env)
         /\ In {| time := now env + d; seq := next_seq env; task := t |}
              (events env'))
  /\ (forall (R : RandomSource) (until : Q) (env env' : Env R),
         step until env = Continue env' ->
         exists e rest,
           events env = e :: rest /\ trace env' = (time e, seq e) :: trace env
           /\ time e <= until
           /\ exec (resume (task e))
                (set_clock (time e) rest ((time e, seq e) :: trace env) env)
              = Ok env')
  /\ (forall (R : RandomSource) (py0 : PyState R) (np0 : NpState R)
             (args : Args.t) (fuel : nat) (env : Env R),
         final_state (main R py0 np0 args fuel) = Some env ->
         StronglySorted (fun e1 e2 => key_lt (key e1) (key e2)) (events env)
         /\ (forall k e, In k (trace env) -> In e (events env) ->
               key_lt k (key e))
         /\ (forall e rest, events env = e :: rest ->
               Forall (fun e' => key_lt (key e) (key e')) rest)).
Proof.
  split; [|split; [|split]].
  - intros R py0 np0 args fuel env H.
    now destruct (main_scheduled py0 np0 args fuel env H).
  - intros R d t env env' H. unfold schedule_after in H.
    destruct (Qltb d 0); [discriminate|]. inversion H; subst.
    cbn [push_event next_seq events]. split; [reflexivity|].
    apply insert_event_In. left. reflexivity.
  - intros R until env env' H. apply step_continue_shape in H.
    destruct H as (e & rest & Hev & Hle & Hex).
    exists e, rest. split; [assumption|]. split; [|split; assumption].
    apply exec_clock in Hex. destruct Hex as [_ Ht]. exact Ht.
  - intros R py0 np0 args fuel env H.
    destruct (main_scheduled py0 np0 args fuel env H) as [Hs _].
    split; [exact Hs|]. split.
    + exact (main_executed_before_pending py0 np0 args fuel env H).
    + intros e rest Hev. rewrite Hev in Hs.
      apply StronglySorted_inv in Hs. exact (proj2 Hs).
Qed.

(** The history of the small run after 12 events is ordered. *)
Lemma events_in_schedule_order_witness :
  exists env,
    main table_source 0%nat 0%nat small_args 12 = OutOfFuel env
    /\ length (trace env) = 12%nat
    /\ StronglySorted (fun later earlier => key_lt earlier later) (trace env).
Proof.
  assert (S1 : still_running (main table_source 0%nat 0%nat small_args 12)
               = true) by (vm_compute; reflexivity).
  assert (L1 : option_map (fun e => length (trace e))
                 (final_state (main table_source 0%nat 0%nat small_args 12))
               = Some 12%nat) by (vm_compute; reflexivity).
  destruct (still_running_state _ S1) as [env E].
  exists env. split; [exact E|].
  rewrite E in L1. cbn [final_state option_map] in L1.
  split; [now inversion L1|].
  apply (proj1 events_in_schedule_order table_source 0%nat 0%nat small_args
           12%nat env).
  rewrite E. reflexivity.
Defined.

(** C5. A run of [main] is determined by its arguments: whatever the
    states of the two global generators when [main] is entered, it seeds
    both, and two runs with the same arguments end in the same outcome, in
    particular with the same wait-time list and the same metrics.  Nothing
    is left to choice on the way: at every point of the run the pending
    events are strictly ordered, so the event executed next is unique. *)
Theorem main_deterministic (R : RandomSource) (py0 py0' : PyState R)
  (np0 np0' : NpState R) (args : Args.t) (fuel : nat) :
  main R py0 np0 args fuel = main R py0' np0' args fuel
  /\ option_map (fun env => (wait_times env, metrics env))
       (final_state (main R py0 np0 args fuel))
     = option_map (fun env => (wait_times env, metrics env))
         (final_state (main R py0' np0' args fuel))
  /\ (forall env : Env R,
         final_state (main R py0 np0 args fuel) = Some env ->
         StronglySorted (fun e1 e2 => key_lt (key e1) (key e2)) (events env)
         /\ forall e1 e2, In e1 (events env) -> In e2 (events env) ->
              time e1 == time e2 -> seq e1 = seq e2 -> e1 = e2).
Proof.
  assert (H : main R py0 np0 args fuel = main R py0' np0' args fuel)
    by reflexivity.
  split; [exact H|]. split; [now rewrite H|].
  intros env Hfin.
  destruct (main_scheduled py0 np0 args fuel env Hfin) as [Hs _].
  split; [exact Hs|].
  clear Hfin H. induction (events env) as [|x l IH]; intros e1 e2 H1 H2 Ht Hq.
  - destruct H1.
  - apply StronglySorted_inv in Hs. destruct Hs as [Hs Hx].
    rewrite Forall_forall in Hx.
    destruct H1 as [<- | H1], H2 as [<- | H2].
    + reflexivity.
    + exfalso. specialize (Hx e2 H2). unfold key_lt, key in Hx.
      cbn [fst snd] in Hx. destruct Hx as [Hx | [_ Hx]]; [lra | lia].
    + exfalso. specialize (Hx e1 H1). unfold key_lt, key in Hx.
      cbn [fst snd] in Hx. destruct Hx as [Hx | [_ Hx]]; [lra | lia].
    + apply IH; assumption.
Qed.

(** C6. Every patient follows the state machine of section 4.4.  The
    track is decided once, by the first uniform draw (fast track when it is
    below 0.3).  Whatever time passes at each request and activity, the
    journey of [patient] is the path of the specification for the three
    decisions: lab sub-sequence when the second draw is below 0.3 (fast
    track) or 0.7 (main department) and, in the main department,
    admission to a bed when the third draw is below 0.5, medication
    otherwise; it ends by recording the completion time minus the arrival
    time.  On the scheduler, a patient that is alone in the hospital when
    it arrives runs to its end in at most five turns, and the shared list
    of wait times has then gained exactly one entry, its completion time
    minus its arrival time; a run that halts before has reached the
    horizon first and the list is as it was. *)
Theorem patient_follows_state_machine :
  (forall (name : nat) (arrival u0 u1 u2 : Q) (us es lapses : list Q) (h : Handle),
      exists completion,
        observe (patient name) arrival (u0 :: u1 :: u2 :: us) es lapses h =
        (spec_path (spec_track u0) (spec_lab (spec_track u0) u1) (spec_admit u2)
         ++ [Record_wait (completion - arrival)], completion))
  /\ (forall u : Q,
         (spec_track u = FastTrack <-> u < 3 # 10)
         /\ (spec_lab FastTrack u = true <-> u < 3 # 10)
         /\ (spec_lab MainDepartment u = true <-> u < 7 # 10)
         /\ (spec_admit u = true <-> u < 1 # 2))
  /\ (forall (R : RandomSource) (name : nat) (env : Env R),
         alone env ->
         exists (n : nat) (env0 : Env R) (completion : Q),
           (n <= 5)%nat /\ exec (patient name) env = Ok env0
           /\ now env <= completion
           /\ forall until : Q,
                match run n until env0 with
                | OutOfFuel env' =>
                    alone env' /\ now env' = completion
                    /\ wait_times env'
                       = wait_times env ++ [completion - now env]
                | Halted env' =>
                    until < completion /\ wait_times env' = wait_times env
                | Raised _ => False
                end).
Proof.
  split; [|split].
  - intros name arrival u0 u1 u2 us es lapses h.
    exact (observe_patient name arrival (u0 :: u1 :: u2 :: us) es lapses h).
  - intro u. unfold spec_track, spec_lab, spec_admit.
    rewrite !Qltb_true_iff.
    split; [|split; [reflexivity | split; [reflexivity | split; intro; lra]]].
    destruct (Qltb u 0.3) eqn:E.
    + apply Qltb_true_iff in E. split; [intros _; exact E | reflexivity].
    + apply Qltb_false_iff in E. split; [discriminate | intro; lra].
  - intros R name env Ha. now apply patient_completes.
Qed.

(** The first patient of the tabulated random source, alone in a hospital
    of capacity 1 everywhere. *)
Lemma patient_follows_state_machine_witness :
  alone idle_env
  /\ (exists (n : nat) (env0 : Env table_source) (completion : Q),
         (n <= 5)%nat /\ exec (patient 1) idle_env = Ok env0
         /\ now idle_env <= completion
         /\ forall until : Q,
              match run n until env0 with
              | OutOfFuel env' =>
                  alone env' /\ now env' = completion
                  /\ wait_times env'
                     = wait_times idle_env ++ [completion - now idle_env]
              | Halted env' =>
                  until < completion /\ wait_times env' = wait_times idle_env
              | Raised _ => False
              end).
Proof.
  assert (Ha : alone idle_env).
  { split; [|reflexivity].
    intro p. destruct p; (split; [reflexivity|]); (split; [reflexivity|]);
      reflexivity. }
  split; [exact Ha|].
  exact (proj2 (proj2 patient_follows_state_machine) table_source 1%nat
           idle_env Ha).
Defined.

(** C7. The delay of every timed activity is [max(floor, sample)] for a
    sample drawn from the normal distribution with the mean and standard
    deviation of the parameter table, so it is at least its floor. *)
Theorem activity_duration_floor (R : RandomSource) (a : Activity) (g : NpState R) :
  let '(mean, stddev, floor) := spec_parameters a in
  fst (hospital_method R a g) = py_max floor (fst (np_normal R mean stddev g))
  /\ snd (hospital_method R a g) = snd (np_normal R mean stddev g)
  /\ fst (hospital_method R a g) == fst (spec_normal_floor R mean stddev floor g)
  /\ snd (hospital_method R a g) = snd (spec_normal_floor R mean stddev floor g)
  /\ floor <= fst (hospital_method R a g)
  /\ fst (np_normal R mean stddev g) <= fst (hospital_method R a g).
Proof.
  assert (Hmax : forall fl x, py_max fl x == (if Qle_bool fl x then x else fl)).
  { intros fl x. unfold py_max.
    destruct (Qltb fl x) eqn:E1, (Qle_bool fl x) eqn:E2; try reflexivity.
    - apply Qltb_true_iff in E1.
      assert (fl <= x) as Hle by lra. apply Qle_bool_iff in Hle. congruence.
    - apply Qltb_false_iff in E1. apply Qle_bool_iff in E2. lra. }
  destruct a; cbn [spec_parameters hospital_method];
    unfold consult, medication, review, admit_, fast_lab, fast_lab_wait,
      ed_lab_wait, ed_lab, spec_normal_floor;
    match goal with
    | |- context [np_normal R ?m ?s g] => destruct (np_normal R m s g) as [x g']
    end;
    cbn [fst snd];
    (split; [reflexivity|]); (split; [reflexivity|]);
    (split; [apply Hmax|]); (split; [reflexivity|]);
    (split; [apply py_max_floor | apply py_max_sample]).
Qed.

(** C8 as stated fails.  With one patient and a first delay of 7, the
    patient is spawned at time 0, not at time 7. *)
Lemma first_patient_arrives_at_start :
  spawn_times (fst (observe (patient_generator 1 10) 0 [] [7] [] 0%nat))
  <> spec_arrivals 0 [7] 1.
Proof. vm_compute. discriminate. Qed.

(** C8, amended.  For each of the [n_patients] iterations (none when the
    count is not positive) the arrival generator spawns a patient at the
    current time, then samples an exponential delay whose scale is the
    arrival-rate parameter and waits for it.  The processes spawned are
    the patients 1 to [n_patients], in this order.  So the first patient
    arrives when the generator starts and each later one at the sum of
    the delays sampled before it.  On the scheduler one iteration puts the
    patient in the event queue at the current instant and then the rest
    of the generator at the current instant plus the sampled delay,
    without advancing the clock; it fails only for a negative delay. *)
Theorem generator_arrivals :
  (forall (n_patients : Z) (rate clock : Q) (us es lapses : list Q) (h : Handle),
      fst (observe (patient_generator n_patients rate) clock us es lapses h)
      = code_generator_steps 0 clock rate es (Z.to_nat n_patients)
      /\ spawned_processes
           (fst (observe (patient_generator n_patients rate) clock us es lapses h))
         = patients_from 0 (Z.to_nat n_patients)
      /\ spawn_times
           (fst (observe (patient_generator n_patients rate) clock us es lapses h))
         = code_arrivals clock es (Z.to_nat n_patients))
  /\ (forall (clock d : Q) (ds : list Q) (n : nat),
         code_arrivals clock (d :: ds) (S n)
         = clock :: code_arrivals (clock + d) ds n)
  /\ (forall (R : RandomSource) (i n : nat) (rate : Q) (env : Env R),
         let d := fst (np_exponential R rate (np_rng env)) in
         match exec (patient_generator_from i (S n) rate) env with
         | Ok env' =>
             0 <= d
             /\ events env'
                = insert_event
                    {| time := now env + d; seq := S (next_seq env);
                       task := Resume (patient_generator_from (S i) n rate) |}
                    (insert_event
                       {| time := now env + 0; seq := next_seq env;
                          task := Resume (patient (i + 1)) |}
                       (events env))
             /\ now env' = now env /\ wait_times env' = wait_times env
         | Fail e => d < 0 /\ e = InvalidDelay
         end).
Proof.
  split; [|split].
  - intros n_patients rate clock us es lapses h. unfold patient_generator.
    rewrite observe_generator. split; [reflexivity|]. split.
    + apply spawned_processes_generator.
    + apply spawn_times_generator.
  - reflexivity.
  - intros R i n rate env. apply exec_generator_iteration.
Qed.

(** C9 as stated fails.  A patient count of 0 with positive capacities
    raises no error: the run completes normally. *)
Lemma no_patient_run_completes :
  (Args.n_patients no_patient_args <= 0)%Z
  /\ main table_source 0%nat 0%nat no_patient_args 10 <> Raised InvalidConfiguration.
Proof.
  split; [cbn; lia|].
  assert (H : halted (main table_source 0%nat 0%nat no_patient_args 10) = true)
    by (vm_compute; reflexivity).
  intro E. rewrite E in H. discriminate H.
Qed.

(** C9, amended.  [main] is aborted by [InvalidConfiguration] exactly when
    one of the five capacities is not positive, whatever the patient
    count; the error is raised while the pools are created, before
    anything is scheduled, so no event is ever executed. *)
Theorem invalid_configuration_iff (R : RandomSource) (py0 : PyState R)
  (np0 : NpState R) (args : Args.t) (fuel : nat) :
  (main R py0 np0 args fuel = Raised InvalidConfiguration
   <-> (Args.fast_doctors args <= 0 \/ Args.fast_nurses args <= 0
        \/ Args.ed_doctors args <= 0 \/ Args.ed_nurses args <= 0
        \/ Args.beds args <= 0)%Z)
  /\ (main R py0 np0 args fuel = Raised InvalidConfiguration
      <-> setup R py0 np0 args = Fail InvalidConfiguration).
Proof.
  assert (Hsetup :
            setup R py0 np0 args = Fail InvalidConfiguration
            <-> (Args.fast_doctors args <= 0 \/ Args.fast_nurses args <= 0
                 \/ Args.ed_doctors args <= 0 \/ Args.ed_nurses args <= 0
                 \/ Args.beds args <= 0)%Z).
  { unfold setup.
    destruct (Hospital_init _ _ _ _ _) as [h|err] eqn:Eh.
    - rewrite !schedule_after_zero. apply Hospital_init_ok in Eh.
      split; [discriminate | lia].
    - apply Hospital_init_fail in Eh. destruct Eh as [Hle ->].
      split; [intros _; exact Hle | reflexivity]. }
  assert (Hmain :
            main R py0 np0 args fuel = Raised InvalidConfiguration
            <-> setup R py0 np0 args = Fail InvalidConfiguration).
  { unfold main. destruct (setup R py0 np0 args) as [env|err] eqn:Es.
    - split; [|discriminate]. intro H. exfalso.
      exact (run_error _ fuel env InvalidConfiguration H eq_refl).
    - split; intro H; inversion H; reflexivity. }
  split; [|exact Hmain].
  rewrite Hmain. exact Hsetup.
Qed.

(** C10. A patient only ever touches the pools of its own track: the
    fast-track doctor and nurse on the fast track; the main-department
    doctor and nurse and the beds in the main department.  The two sets
    of pools have nothing in common. *)
Theorem track_isolation :
  (forall (name : nat) (arrival : Q) (us es lapses : list Q) (h : Handle),
      Forall (fun p => In p (track_pools (spec_track (hd 0 us))))
        (pools_touched (fst (observe (patient name) arrival us es lapses h))))
  /\ (forall p : PoolName,
         In p (track_pools FastTrack) -> ~ In p (track_pools MainDepartment)).
Proof.
  split.
  - intros name arrival us es lapses h.
    destruct (observe_patient name arrival us es lapses h) as [c ->].
    cbn [fst]. unfold spec_track, spec_lab, spec_admit.
    destruct (Qltb (hd 0 us) 0.3).
    + destruct (Qltb (hd 0 (tl us)) 0.3);
        cbn [spec_path app pools_touched flat_map track_pools];
        repeat (constructor; [cbn [In]; tauto|]); constructor.
    + destruct (Qltb (hd 0 (tl us)) 0.7), (Qltb (hd 0 (tl (tl us))) 0.5);
        cbn [spec_path app pools_touched flat_map track_pools];
        repeat (constructor; [cbn [In]; tauto|]); constructor.
  - intros p Hf Hm. cbn in Hf, Hm.
    destruct Hf as [<- | [<- | []]];
      destruct Hm as [Hm | [Hm | [Hm | []]]]; discriminate.
Qed.

(** * Further properties of the source *)

(** ** [report]: means, maxima and truncation *)

Lemma Qsum_bounds (a b : Q) (l : list Q) :
  Forall (fun x => a <= x /\ x <= b) l ->
  a * inject_Z (Z.of_nat (length l)) <= Qsum l
  /\ Qsum l <= b * inject_Z (Z.of_nat (length l)).
Proof.
  induction 1 as [|x l [Hx1 Hx2] _ [IH1 IH2]].
  - cbn [length Qsum fold_right Z.of_nat]. change (inject_Z 0) with 0. lra.
  - cbn [length Qsum fold_right]. fold (Qsum l).
    rewrite Nat2Z.inj_succ. unfold Z.succ. rewrite inject_Z_plus.
    change (inject_Z 1) with 1. split; nra.
Qed.

Lemma np_mean_bounds (a b : Q) (l : list Q) (m : Q) :
  Forall (fun x => a <= x /\ x <= b) l ->
  np_mean l = Some m -> a <= m /\ m <= b.
Proof.
  intros Hall Hm. destruct l as [|x l]; [discriminate|].
  cbn [np_mean] in Hm. inversion Hm; subst; clear Hm.
  destruct (Qsum_bounds a b _ Hall) as [H1 H2].
  assert (Hpos : 0 < inject_Z (Z.of_nat (length (x :: l)))).
  { change 0 with (inject_Z 0). rewrite <- Zlt_Qlt. cbn [length]. lia. }
  split.
  - apply Qle_shift_div_l; assumption.
  - apply Qle_shift_div_r; assumption.
Qed.

Lemma np_max_from_spec (l : list Q) :
  forall m : Q,
    m <= np_max_from m l
    /\ Forall (fun x => x <= np_max_from m l) l
    /\ (np_max_from m l = m \/ In (np_max_from m l) l).
Proof.
  induction l as [|x l IH]; intro m; cbn [np_max_from].
  - split; [lra|]. split; [constructor | left; reflexivity].
  - destruct (IH (if Qltb m x then x else m)) as (H1 & H2 & H3).
    destruct (Qltb m x) eqn:E.
    + apply Qltb_true_iff in E. split; [lra|]. split.
      * constructor; assumption.
      * right. destruct H3 as [-> | H3]; [left; reflexivity | right; assumption].
    + apply Qltb_false_iff in E. split; [assumption|]. split.
      * constructor; [lra | assumption].
      * destruct H3 as [H3 | H3]; [left; assumption | right; right; assumption].
Qed.

Lemma np_max_spec (l : list Q) (m : Q) :
  np_max l = NpOk m -> In m l /\ Forall (fun x => x <= m) l.
Proof.
  destruct l as [|x l]; [discriminate|]. cbn [np_max].
  intro H; inversion H; subst; clear H.
  destruct (np_max_from_spec l x) as (H1 & H2 & H3). split.
  - destruct H3 as [-> | H3]; [left; reflexivity | right; assumption].
  - constructor; assumption.
Qed.

Lemma py_int_monotone (x y : Q) : x <= y -> (py_int x <= py_int y)%Z.
Proof.
  intro Hle. unfold py_int.
  destruct (Qltb x 0) eqn:Ex, (Qltb y 0) eqn:Ey.
  - now apply Qceiling_resp_le.
  - apply Qltb_true_iff in Ex. apply Qltb_false_iff in Ey.
    apply Z.le_trans with 0%Z.
    + change 0%Z with (Qceiling 0). apply Qceiling_resp_le. lra.
    + change 0%Z with (Qfloor 0). now apply Qfloor_resp_le.
  - apply Qltb_false_iff in Ex. apply Qltb_true_iff in Ey. lra.
  - now apply Qfloor_resp_le.
Qed.

Lemma py_int_nonneg (x : Q) : 0 <= x -> (0 <= py_int x)%Z.
Proof.
  intro H. change 0%Z with (py_int 0). now apply py_int_monotone.
Qed.

(** ** The monitor and the other processes *)

Lemma exec_monitor {R : RandomSource} (interval : Q) (env : Env R) :
  exec (monitor interval) env
  = schedule_after interval (MonitorLoop interval)
      (set_metrics (monitor_sample env) env).
Proof. reflexivity. Qed.

Lemma monitor_sample_length {R : RandomSource} (env : Env R) (k : MetricKey) :
  length (metric (monitor_sample env) k) = S (length (metric (metrics env) k)).
Proof.
  destruct k; cbn [monitor_sample append_metric metric timeline queue_fast
                   queue_ed util_fast_doc util_fast_nurse util_ed_doc
                   util_ed_nurse util_beds];
    rewrite length_app; cbn [length]; lia.
Qed.

Lemma ratio_in_unit (n : nat) (d : Z) :
  (0 <= Z.of_nat n <= d)%Z -> (0 < d)%Z -> in_unit (ratio n d).
Proof.
  intros [H0 Hn] Hd. unfold in_unit, ratio.
  assert (Hd' : 0 < inject_Z d).
  { change 0 with (inject_Z 0). now rewrite <- Zlt_Qlt. }
  assert (Hn0 : 0 <= inject_Z (Z.of_nat n)).
  { change 0 with (inject_Z 0). now rewrite <- Zle_Qle. }
  assert (Hnd : inject_Z (Z.of_nat n) <= inject_Z d) by now rewrite <- Zle_Qle.
  split.
  - apply Qle_shift_div_l; [assumption | lra].
  - apply Qle_shift_div_r; [assumption | lra].
Qed.

Lemma filter_insert_event_other (e : Event) (q : list Event) :
  is_monitor e = false ->
  filter is_monitor (insert_event e q) = filter is_monitor q.
Proof.
  intro He. induction q as [|x q IH]; cbn [insert_event filter].
  - now rewrite He.
  - destruct (event_ltb e x); cbn [filter].
    + now rewrite He.
    + now rewrite IH.
Qed.

Lemma filter_insert_event_monitor (e : Event) (q : list Event) :
  is_monitor e = true -> filter is_monitor q = [] ->
  filter is_monitor (insert_event e q) = [e].
Proof.
  intros He. induction q as [|x q IH]; cbn [insert_event filter]; intro Hq.
  - now rewrite He.
  - destruct (is_monitor x) eqn:Ex; [discriminate|].
    destruct (event_ltb e x); cbn [filter].
    + rewrite He, Ex, Hq. reflexivity.
    + rewrite Ex. now apply IH.
Qed.

Lemma push_event_calm {R : RandomSource} (records : bool) (m0 : Metrics)
  (f0 : list Event) (w0 : list Q) (k : Proc) (at_time : Q) (env : Env R) :
  calm records k -> calm_state records m0 f0 w0 env ->
  calm_state records m0 f0 w0 (push_event (Resume k) at_time env).
Proof.
  intros Hk (Hm & Hf & Ht & Hq & Hw).
  unfold calm_state. cbn [push_event metrics events hospital wait_times].
  split; [assumption|]. split.
  - rewrite filter_insert_event_other; [assumption | reflexivity].
  - split; [|split; assumption].
    rewrite Forall_forall in *. intros x Hx.
    apply insert_event_In in Hx. destruct Hx as [-> | Hx];
      [exact Hk | apply Ht; assumption].
Qed.

Lemma schedule_after_calm {R : RandomSource} (records : bool) (m0 : Metrics)
  (f0 : list Event) (w0 : list Q) (k : Proc) (d : Q) (env env' : Env R) :
  calm records k -> calm_state records m0 f0 w0 env ->
  schedule_after d (Resume k) env = Ok env' ->
  calm_state records m0 f0 w0 env'.
Proof.
  unfold schedule_after. intros Hk Hs H.
  destruct (Qltb d 0); [discriminate|]. inversion H; subst.
  now apply push_event_calm.
Qed.

Lemma do_request_calm {R : RandomSource} (records : bool) (m0 : Metrics)
  (f0 : list Event) (w0 : list Q) (q : PoolName) (cont : Proc) (env : Env R) :
  calm records cont -> calm_state records m0 f0 w0 env ->
  calm_state records m0 f0 w0 (snd (do_request q cont env)).
Proof.
  intros Hk (Hm & Hf & Ht & Hq & Hw). unfold do_request, acquire.
  destruct (_ <? _)%Z; cbn [snd]; unfold calm_state;
    cbn [metrics events hospital wait_times set_hospital fresh_handle];
    (split; [assumption|]); (split; [assumption|]); (split; [assumption|]);
    (split; [|assumption]); intro q';
    (destruct (PoolName_eq_dec q q') as [<-|Hne];
     [rewrite pool_set_pool_same | rewrite pool_set_pool_other by assumption;
                                   apply Hq]);
    cbn [queue].
  - apply Hq.
  - apply Forall_app. split; [apply Hq|]. constructor; [exact Hk | constructor].
Qed.

Lemma do_release_calm {R : RandomSource} (records : bool) (m0 : Metrics)
  (f0 : list Event) (w0 : list Q) (q : PoolName) (h : Handle)
  (env env' : Env R) :
  calm_state records m0 f0 w0 env ->
  do_release q h env = Ok env' ->
  calm_state records m0 f0 w0 env'.
Proof.
  intros (Hm & Hf & Ht & Hq & Hw) H. unfold do_release in H.
  destruct (release h (pool (hospital env) q)) as [[r w]|e] eqn:E; [|discriminate].
  apply release_ok in E. destruct E as (_ & _ & Hqr & Hwr & _).
  assert (Hs : calm_state records m0 f0 w0
                 (set_hospital (set_pool (hospital env) q r) env)).
  { unfold calm_state. cbn [metrics events hospital wait_times set_hospital].
    repeat (split; [assumption|]). split; [|assumption]. intro q'.
    destruct (PoolName_eq_dec q q') as [<-|Hne].
    - rewrite pool_set_pool_same, Hqr.
      specialize (Hq q). destruct (queue (pool (hospital env) q));
        [constructor | now inversion Hq].
    - rewrite pool_set_pool_other by assumption. apply Hq. }
  destruct w as [x|].
  - eapply schedule_after_calm; [|exact Hs|exact H].
    specialize (Hq q). destruct (queue (pool (hospital env) q)) as [|y ys];
      [discriminate|]. cbn in Hwr. inversion Hwr; subst. now inversion Hq.
  - inversion H; subst. exact Hs.
Qed.

Lemma exec_calm {R : RandomSource} (records : bool) (m0 : Metrics)
  (f0 : list Event) (w0 : list Q) (p : Proc) :
  forall env env' : Env R,
    calm records p -> calm_state records m0 f0 w0 env ->
    exec p env = Ok env' -> calm_state records m0 f0 w0 env'.
Proof.
  induction p as [ | k IH | k IH | scale k IH | delay t | a p IH
                 | child _ p IH | q k IH | q req p IH | w p IH
                 | q k IH | q k IH | q k IH | key0 v p IH ];
    intros env env' Hc Hs H; cbn [exec] in H; cbn [calm] in Hc.
  - now inversion H; subst.
  - eapply IH; [apply Hc | exact Hs | exact H].
  - destruct (py_random R (py_rng env)) as [u g].
    eapply IH; [apply Hc | | exact H]. exact Hs.
  - destruct (np_exponential R scale (np_rng env)) as [x g].
    eapply IH; [apply Hc | | exact H]. exact Hs.
  - destruct t as [k|i]; [|contradiction].
    eapply schedule_after_calm; eassumption.
  - destruct (hospital_method R a (np_rng env)) as [d g].
    eapply schedule_after_calm; [exact Hc | | exact H]. exact Hs.
  - destruct Hc as [Hc1 Hc2].
    destruct (schedule_after 0 (Resume child) env) as [env1|e] eqn:E; [|discriminate].
    eapply IH; [exact Hc2 | | exact H].
    eapply schedule_after_calm; [exact Hc1 | exact Hs | exact E].
  - pose proof (do_request_calm records m0 f0 w0 q (k (next_handle env)) env
                  (Hc _) Hs) as Hs1.
    destruct (do_request q (k (next_handle env)) env) as [granted env1].
    cbn [snd] in Hs1. destruct granted.
    + eapply IH; [apply Hc | exact Hs1 | exact H].
    + now inversion H; subst.
  - destruct (do_release q req env) as [env1|e] eqn:E; [|discriminate].
    eapply IH; [exact Hc | | exact H].
    eapply do_release_calm; eassumption.
  - destruct Hc as [Hrec Hc].
    eapply IH; [exact Hc | | exact H].
    destruct Hs as (Hm & Hf & Ht & Hq & Hw).
    repeat (split; [assumption|]). intro Hfalse. congruence.
  - eapply IH; [apply Hc | exact Hs | exact H].
  - eapply IH; [apply Hc | exact Hs | exact H].
  - eapply IH; [apply Hc | exact Hs | exact H].
  - contradiction.
Qed.

Lemma patient_calm (name : nat) : calm true (patient name).
Proof.
  unfold patient, with_request. cbn [calm]. intros t u.
  destruct (Qltb u 0.3); cbn [calm].
  - intros h u1. destruct (Qltb u1 0.3); cbn [calm]; intros; auto.
  - intros h u1. destruct (Qltb u1 0.7); cbn [calm].
    + intros h1 h2 u2. destruct (Qltb u2 0.5); cbn [calm]; intros; auto.
    + intros u2. destruct (Qltb u2 0.5); cbn [calm]; intros; auto.
Qed.

Lemma patient_generator_calm (rate : Q) (n : nat) :
  forall i, calm true (patient_generator_from i n rate).
Proof.
  induction n as [|n IH]; intro i; cbn [patient_generator_from calm].
  - exact I.
  - split; [apply patient_calm | intro x; apply IH].
Qed.

Lemma exec_capacity {R : RandomSource} (p : Proc) (env env' : Env R) :
  exec p env = Ok env' ->
  forall q, capacity (pool (hospital env') q) = capacity (pool (hospital env) q).
Proof.
  intro H.
  apply (exec_invariant R
           (fun e => forall q, capacity (pool (hospital e) q)
                               = capacity (pool (hospital env) q))
           ltac:(intros; auto) ltac:(intros; auto) ltac:(intros; auto)
           ltac:(intros; auto) ltac:(intros; auto)) with (p := p) (env := env);
    try assumption.
  - intros e q cont He q'. unfold do_request, acquire.
    destruct (_ <? _)%Z; cbn [snd hospital set_hospital];
      (destruct (PoolName_eq_dec q q') as [<-|Hne];
       [rewrite pool_set_pool_same; cbn [capacity]; apply He
       | rewrite pool_set_pool_other by assumption; apply He]).
  - intros e q h r w He Hrel q'. apply release_ok in Hrel.
    destruct Hrel as (_ & Hcap & _). cbn [hospital set_hospital].
    destruct (PoolName_eq_dec q q') as [<-|Hne].
    + rewrite pool_set_pool_same, Hcap. apply He.
    + rewrite pool_set_pool_other by assumption. apply He.
  - reflexivity.
Qed.

Lemma inject_Z_succ (n : nat) :
  inject_Z (Z.of_nat (S n)) == inject_Z (Z.of_nat n) + 1.
Proof.
  rewrite Nat2Z.inj_succ. unfold Z.succ. rewrite inject_Z_plus. reflexivity.
Qed.

Lemma inject_Z_of_nat_nonneg (n : nat) : 0 <= inject_Z (Z.of_nat n).
Proof. change 0 with (inject_Z 0). rewrite <- Zle_Qle. lia. Qed.

Lemma regular_snoc (l : list Q) (x : Q) :
  regular l ->
  x == monitor_interval * inject_Z (Z.of_nat (length l)) ->
  regular (l ++ [x]).
Proof.
  intros Hl Hx k Hk. rewrite length_app in Hk. cbn [length] in Hk.
  destruct (Nat.lt_ge_cases k (length l)) as [Hlt | Hge].
  - rewrite app_nth1 by assumption. now apply Hl.
  - assert (k = length l) by lia. subst k.
    rewrite app_nth2 by lia. rewrite Nat.sub_diag. exact Hx.
Qed.

(** One iteration of the monitor in a state within capacity keeps the
    series aligned and in range. *)
Lemma monitor_sample_in_range {R : RandomSource} (env : Env R) :
  within_capacity (hospital env) ->
  (forall q, (0 < capacity (pool (hospital env) q))%Z) ->
  aligned (metrics env) ->
  utilizations_in_unit (metrics env) ->
  queues_nonnegative (metrics env) ->
  aligned (monitor_sample env)
  /\ utilizations_in_unit (monitor_sample env)
  /\ queues_nonnegative (monitor_sample env).
Proof.
  intros Hw Hc Ha (U1 & U2 & U3 & U4 & U5) (Q1 & Q2).
  split; [|split].
  - intro k. rewrite monitor_sample_length.
    change (timeline (monitor_sample env))
      with (metric (monitor_sample env) K_timeline).
    rewrite monitor_sample_length. cbn [metric]. f_equal. apply Ha.
  - unfold utilizations_in_unit.
    cbn [monitor_sample append_metric metric timeline queue_fast
         queue_ed util_fast_doc util_fast_nurse util_ed_doc
         util_ed_nurse util_beds].
    repeat split; apply Forall_app; (split; [assumption|]);
      (constructor; [|constructor]); apply ratio_in_unit.
    + apply (Hw Fast_doctor).
    + apply (Hc Fast_doctor).
    + apply (Hw Fast_nurse).
    + apply (Hc Fast_nurse).
    + apply (Hw Ed_doctor).
    + apply (Hc Ed_doctor).
    + apply (Hw Ed_nurse).
    + apply (Hc Ed_nurse).
    + apply (Hw Beds_pool).
    + apply (Hc Beds_pool).
  - unfold queues_nonnegative.
    cbn [monitor_sample append_metric metric timeline queue_fast
         queue_ed util_fast_doc util_fast_nurse util_ed_doc
         util_ed_nurse util_beds].
    split; apply Forall_app; (split; [assumption|]);
      (constructor; [|constructor]); apply inject_Z_of_nat_nonneg.
Qed.

(** One turn of the scheduler keeps the state monitored. *)
Lemma step_monitored {R : RandomSource} (records : bool) (until : Q)
  (env env' : Env R) :
  monitored records env -> scheduled env ->
  step until env = Continue env' -> monitored records env'.
Proof.
  intros [Mt Mq Ms Ma Mu Ml Mr Mp Mc Mw] Hs H.
  apply step_continue_shape in H. destruct H as (e & rest & Hev & Hle & Hex).
  assert (Hnow : now env <= time e).
  { destruct Hs as [_ H2 _ _ _]. rewrite Hev in H2.
    inversion H2 as [|? ? [Hfut _] _]; subst. exact Hfut. }
  rewrite Hev in Mt, Ms. inversion Mt as [|? ? Hte Hrest]; subst.
  destruct Ms as (m & Hfil & Htime). cbn [filter] in Hfil.
  destruct (task e) as [p|i] eqn:Et; cbn [calm_task] in Hte.
  - (* another process runs *)
    assert (Hfe : is_monitor e = false) by (unfold is_monitor; now rewrite Et).
    rewrite Hfe in Hfil. cbn [resume] in Hex.
    assert (Hcs : calm_state records (metrics env) [m] (wait_times env)
                    (set_clock (time e) rest ((time e, seq e) :: trace env) env)).
    { unfold calm_state. cbn [set_clock metrics events hospital wait_times].
      repeat split; try assumption; reflexivity. }
    pose proof (exec_calm records _ _ _ p _ _ Hte Hcs Hex)
      as (Hm' & Hf' & Ht' & Hq' & Hw').
    pose proof (exec_clock _ _ _ Hex) as [Hn' _]. cbn [set_clock now] in Hn'.
    pose proof (exec_capacity _ _ _ Hex) as Hcap. cbn [set_clock hospital] in Hcap.
    constructor; rewrite ?Hm'; try assumption.
    + exists m. split; assumption.
    + rewrite Hn'. eapply Forall_impl; [|exact Mp]. cbn. intros; lra.
    + destruct Mc as [Mc1 Mc2]. split.
      * eapply exec_within_capacity; [|exact Hex]. exact Mc1.
      * intro q. rewrite Hcap. apply Mc2.
    + intro Hr. rewrite (Hw' Hr). now apply Mw.
  - (* the monitor takes a snapshot *)
    assert (Hfe : is_monitor e = true) by (unfold is_monitor; now rewrite Et).
    rewrite Hfe in Hfil. inversion Hfil as [[Hme Hnone]]. subst m i.
    cbn [resume] in Hex. rewrite exec_monitor in Hex.
    change (schedule_after monitor_interval (MonitorLoop monitor_interval)
              (set_metrics
                 (monitor_sample
                    (set_clock (time e) rest ((time e, seq e) :: trace env) env))
                 (set_clock (time e) rest ((time e, seq e) :: trace env) env)))
      with (Ok (push_event (MonitorLoop monitor_interval)
                  (time e + monitor_interval)
                  (set_metrics
                     (monitor_sample
                        (set_clock (time e) rest ((time e, seq e) :: trace env) env))
                     (set_clock (time e) rest ((time e, seq e) :: trace env) env))))
      in Hex.
    inversion Hex; subst env'; clear Hex.
    destruct Mc as [Mc1 Mc2].
    destruct (monitor_sample_in_range
                (set_clock (time e) rest ((time e, seq e) :: trace env) env)
                Mc1 Mc2 Ma Mu Ml) as (Ha' & Hu' & Hl').
    assert (Htl : timeline
                    (monitor_sample
                       (set_clock (time e) rest ((time e, seq e) :: trace env) env))
                  = timeline (metrics env) ++ [time e]) by reflexivity.
    constructor;
      cbn [push_event set_metrics set_clock events hospital metrics now
           wait_times]; try assumption.
    + rewrite Forall_forall in *. intros x Hx.
      apply insert_event_In in Hx. destruct Hx as [-> | Hx];
        [reflexivity | apply Hrest; assumption].
    + eexists. split.
      * apply filter_insert_event_monitor; [reflexivity | assumption].
      * cbn [time]. rewrite Htl, length_app. cbn [length].
        rewrite Nat.add_1_r, inject_Z_succ, Htime.
        unfold monitor_interval. ring.
    + rewrite Htl. apply regular_snoc; assumption.
    + rewrite Htl. apply Forall_app. split.
      * eapply Forall_impl; [|exact Mp]. cbn. intros; lra.
      * constructor; [lra | constructor].
    + split; assumption.
Qed.

(** ** A run keeps what each turn of the scheduler keeps *)

Section RunSteps.

Variable R : RandomSource.
Variable until : Q.
Variable I : Env R -> Prop.

Hypothesis I_step :
  forall env env', I env -> step until env = Continue env' -> I env'.

Lemma run_steps_out_of_fuel (fuel : nat) :
  forall env env', I env -> run fuel until env = OutOfFuel env' -> I env'.
Proof.
  induction fuel as [|fuel IH]; intros env env' HI H; cbn [run] in H.
  - now inversion H; subst.
  - destruct (step until env) as [env1|env1|err] eqn:St; try discriminate.
    eapply IH; [|exact H]. eapply I_step; eassumption.
Qed.

Lemma run_steps_halted (fuel : nat) :
  forall env env', I env -> run fuel until env = Halted env' ->
    exists env0, I env0 /\ step until env0 = Stop env'.
Proof.
  induction fuel as [|fuel IH]; intros env env' HI H; cbn [run] in H.
  - discriminate.
  - destruct (step until env) as [env1|env1|err] eqn:St; try discriminate.
    + eapply IH; [|exact H]. eapply I_step; eassumption.
    + inversion H; subst. exists env. split; assumption.
Qed.

End RunSteps.

Lemma step_stop_condition {R : RandomSource} (until : Q) (env env' : Env R) :
  step until env = Stop env' ->
  forall e, In e (events env) -> scheduled env -> until < time e.
Proof.
  unfold step. intros H e Hin Hs.
  destruct (events env) as [|x rest] eqn:Ev; [destruct Hin|].
  destruct (Qltb until (time x)) eqn:E.
  - apply Qltb_true_iff in E. destruct Hin as [<- | Hin]; [assumption|].
    destruct Hs as [H1 _ _ _ _]. rewrite Ev in H1.
    apply StronglySorted_inv in H1. destruct H1 as [_ Hx].
    rewrite Forall_forall in Hx. apply Hx in Hin.
    apply key_lt_time in Hin. cbn in Hin. lra.
  - destruct (exec _ _); discriminate.
Qed.

Lemma step_scheduled {R : RandomSource} (until : Q) (env env' : Env R) :
  scheduled env -> step until env = Continue env' ->
  scheduled env' /\ now env' <= until /\ now env <= now env'.
Proof.
  intros Hs H. apply step_continue_shape in H.
  destruct H as (e & rest & Hev & Hle & Hex).
  pose proof (exec_clock _ _ _ Hex) as [Hn _]. cbn [set_clock now] in Hn.
  split; [|split].
  - eapply exec_scheduled; [|exact Hex]. now apply scheduled_pop.
  - now rewrite Hn.
  - rewrite Hn. destruct Hs as [_ H2 _ _ _]. rewrite Hev in H2.
    inversion H2 as [|? ? [Hfut _] _]; subst. exact Hfut.
Qed.

(** The state from which [main] runs is monitored. *)
Lemma setup_monitored {R : RandomSource} (records : bool) (py0 : PyState R)
  (np0 : NpState R) (args : Args.t) (env : Env R) :
  calm records (patient_generator (Args.n_patients args) (Args.arrival_rate args)) ->
  setup R py0 np0 args = Ok env ->
  monitored records env.
Proof.
  intros Hgen Hsetup.
  pose proof (setup_state py0 np0 args env Hsetup) as (_ & _ & Hcap & Hqs).
  unfold setup in Hsetup.
  destruct (Hospital_init _ _ _ _ _) as [h|err] eqn:Eh; [|discriminate].
  rewrite !schedule_after_zero in Hsetup. inversion Hsetup; subst; clear Hsetup.
  apply Hospital_init_ok in Eh. destruct Eh as (_ & Hp & _).
  constructor; cbn [push_event events hospital metrics now wait_times].
  - rewrite Forall_forall. intros x Hx.
    apply insert_event_In in Hx. destruct Hx as [-> | Hx]; [reflexivity|].
    apply insert_event_In in Hx. destruct Hx as [-> | []]. exact Hgen.
  - intro q. destruct (Hp q) as (_ & -> & _). constructor.
  - eexists. split.
    + apply filter_insert_event_monitor; [reflexivity|].
      rewrite filter_insert_event_other; reflexivity.
    + cbn. reflexivity.
  - intro k. destruct k; reflexivity.
  - repeat split; constructor.
  - split; constructor.
  - intros k Hk. cbn in Hk. lia.
  - constructor.
  - split; [exact Hcap|]. intro q. apply Hp.
  - reflexivity.
Qed.

(** What holds of the metrics in every state of a run of [main]. *)
Lemma main_monitored {R : RandomSource} (records : bool) (py0 : PyState R)
  (np0 : NpState R) (args : Args.t) (fuel : nat) (env : Env R) :
  calm records (patient_generator (Args.n_patients args) (Args.arrival_rate args)) ->
  final_state (main R py0 np0 args fuel) = Some env ->
  exists env0 : Env R,
    monitored records env0 /\ scheduled env0
    /\ metrics env = metrics env0 /\ wait_times env = wait_times env0
    /\ events env = events env0 /\ hospital env = hospital env0
    /\ ((0 <= Args.sim_time args)%Z -> now env0 <= inject_Z (Args.sim_time args))
    /\ (main R py0 np0 args fuel = Halted env ->
        forall e, In e (events env0) -> inject_Z (Args.sim_time args) < time e).
Proof.
  intros Hgen H. unfold main in *.
  destruct (setup R py0 np0 args) as [env1|err] eqn:Es; [|discriminate].
  pose proof (setup_monitored records py0 np0 args env1 Hgen Es) as Hm1.
  apply setup_state in Es. destruct Es as (Hnow1 & Hs1 & _ & _).
  set (until := inject_Z (Args.sim_time args)) in *.
  set (J := fun e : Env R =>
              monitored records e /\ scheduled e
              /\ ((0 <= Args.sim_time args)%Z -> now e <= until)).
  assert (J1 : J env1).
  { split; [assumption|]. split; [assumption|]. intro Hpos. rewrite Hnow1.
    unfold until. change 0 with (inject_Z 0). now rewrite <- Zle_Qle. }
  assert (Jstep : forall e e', J e -> step until e = Continue e' -> J e').
  { intros e e' (Hm & Hs & Hn) Hst.
    destruct (step_scheduled until e e' Hs Hst) as (Hs' & Hn' & _).
    split; [eapply step_monitored; eassumption|]. split; [assumption|].
    intros _. exact Hn'. }
  destruct (run fuel until env1) as [e|err|e] eqn:Hrun; cbn [final_state] in H;
    inversion H; subst.
  - destruct (run_steps_halted R until J Jstep fuel env1 env J1 Hrun)
      as (env0 & (Hm & Hs & Hn) & Hstop).
    exists env0. pose proof (step_stop_shape R until env0 env Hstop) as ->.
    repeat (split; [first [assumption | reflexivity]|]).
    intros _ e He. eapply step_stop_condition; eassumption.
  - pose proof (run_steps_out_of_fuel R until J Jstep fuel env1 env J1 Hrun)
      as (Hm & Hs & Hn).
    exists env. repeat (split; [first [assumption | reflexivity]|]).
    discriminate.
Qed.

(** ** Properties of [monitor] in the runs of [main] *)

Lemma generator_calm_true (args : Args.t) :
  calm true (patient_generator (Args.n_patients args) (Args.arrival_rate args)).
Proof. apply patient_generator_calm. Qed.

(** X1. In every state of a run of [main] the eight series written by
    [monitor] have the same length: one entry each per snapshot. *)
Theorem metrics_series_aligned (R : RandomSource) (py0 : PyState R)
  (np0 : NpState R) (args : Args.t) (fuel : nat) (env : Env R) :
  final_state (main R py0 np0 args fuel) = Some env ->
  length (queue_fast (metrics env)) = length (timeline (metrics env))
  /\ length (queue_ed (metrics env)) = length (timeline (metrics env))
  /\ length (util_fast_doc (metrics env)) = length (timeline (metrics env))
  /\ length (util_fast_nurse (metrics env)) = length (timeline (metrics env))
  /\ length (util_ed_doc (metrics env)) = length (timeline (metrics env))
  /\ length (util_ed_nurse (metrics env)) = length (timeline (metrics env))
  /\ length (util_beds (metrics env)) = length (timeline (metrics env)).
Proof.
  intro H.
  destruct (main_monitored true py0 np0 args fuel env (generator_calm_true args) H)
    as (env0 & Hm & _ & -> & _).
  destruct Hm as [_ _ _ Ha _ _ _ _ _ _].
  repeat split.
  - apply (Ha K_queue_fast).
  - apply (Ha K_queue_ed).
  - apply (Ha K_util_fast_doc).
  - apply (Ha K_util_fast_nurse).
  - apply (Ha K_util_ed_doc).
  - apply (Ha K_util_ed_nurse).
  - apply (Ha K_util_beds).
Qed.

Lemma metrics_series_aligned_witness :
  exists env,
    final_state (main table_source 0%nat 0%nat small_args 12) = Some env
    /\ length (util_beds (metrics env)) = length (timeline (metrics env)).
Proof.
  assert (S1 : still_running (main table_source 0%nat 0%nat small_args 12)
               = true) by (vm_compute; reflexivity).
  destruct (still_running_state _ S1) as [env E].
  assert (F : final_state (main table_source 0%nat 0%nat small_args 12)
              = Some env) by (rewrite E; reflexivity).
  exists env. split; [exact F|].
  apply (metrics_series_aligned table_source 0%nat 0%nat small_args 12 env F).
Defined.

(** X2. In every state of a run of [main] every utilization recorded by
    [monitor] lies between 0 and 1, and every recorded queue length is
    non-negative. *)
Theorem recorded_utilizations_in_unit (R : RandomSource) (py0 : PyState R)
  (np0 : NpState R) (args : Args.t) (fuel : nat) (env : Env R) :
  final_state (main R py0 np0 args fuel) = Some env ->
  utilizations_in_unit (metrics env) /\ queues_nonnegative (metrics env).
Proof.
  intro H.
  destruct (main_monitored true py0 np0 args fuel env (generator_calm_true args) H)
    as (env0 & Hm & _ & -> & _).
  destruct Hm as [_ _ _ _ Hu Hq _ _ _ _]. split; assumption.
Qed.

Lemma recorded_utilizations_in_unit_witness :
  exists env,
    final_state (main table_source 0%nat 0%nat crowded_args 12) = Some env
    /\ utilizations_in_unit (metrics env) /\ queues_nonnegative (metrics env).
Proof.
  assert (S1 : still_running (main table_source 0%nat 0%nat crowded_args 12)
               = true) by (vm_compute; reflexivity).
  destruct (still_running_state _ S1) as [env E].
  assert (F : final_state (main table_source 0%nat 0%nat crowded_args 12)
              = Some env) by (rewrite E; reflexivity).
  exists env. split; [exact F|].
  apply (recorded_utilizations_in_unit table_source 0%nat 0%nat crowded_args
           12 env F).
Defined.

(** X3. The monitor samples at regular times: in every state of a run of
    [main] with a horizon that is not negative, the [k]-th entry of the
    timeline is [5 * k], and no entry is later than the horizon. *)
Theorem snapshots_every_interval (R : RandomSource) (py0 : PyState R)
  (np0 : NpState R) (args : Args.t) (fuel : nat) (env : Env R) :
  (0 <= Args.sim_time args)%Z ->
  final_state (main R py0 np0 args fuel) = Some env ->
  (forall k, (k < length (timeline (metrics env)))%nat ->
     nth k (timeline (metrics env)) 0 == 5 * inject_Z (Z.of_nat k))
  /\ Forall (fun t => t <= inject_Z (Args.sim_time args)) (timeline (metrics env)).
Proof.
  intros Hpos H.
  destruct (main_monitored true py0 np0 args fuel env (generator_calm_true args) H)
    as (env0 & Hm & _ & -> & _ & _ & _ & Hn & _).
  destruct Hm as [_ _ _ _ _ _ Hr Hp _ _]. split.
  - exact Hr.
  - specialize (Hn Hpos). eapply Forall_impl; [|exact Hp]. cbn. intros; lra.
Qed.

Lemma snapshots_every_interval_witness :
  (0 <= Args.sim_time small_args)%Z
  /\ exists env,
       final_state (main table_source 0%nat 0%nat small_args 12) = Some env
       /\ Forall (fun t => t <= 30) (timeline (metrics env)).
Proof.
  assert (Hpos : (0 <= Args.sim_time small_args)%Z) by (cbn; lia).
  split; [exact Hpos|].
  assert (S1 : still_running (main table_source 0%nat 0%nat small_args 12)
               = true) by (vm_compute; reflexivity).
  destruct (still_running_state _ S1) as [env E].
  assert (F : final_state (main table_source 0%nat 0%nat small_args 12)
              = Some env) by (rewrite E; reflexivity).
  exists env. split; [exact F|].
  apply (snapshots_every_interval table_source 0%nat 0%nat small_args 12 env
           Hpos F).
Defined.

(** The snapshots taken when a run completes. *)
Lemma halted_snapshots (R : RandomSource) (py0 : PyState R)
  (np0 : NpState R) (args : Args.t) (fuel : nat) (env : Env R) :
  (0 <= Args.sim_time args)%Z ->
  main R py0 np0 args fuel = Halted env ->
  let n := length (timeline (metrics env)) in
  (1 <= n)%nat
  /\ 5 * inject_Z (Z.of_nat (n - 1)) <= inject_Z (Args.sim_time args)
  /\ inject_Z (Args.sim_time args) <= 5 * inject_Z (Z.of_nat n).
Proof.
  intros Hpos H.
  assert (F : final_state (main R py0 np0 args fuel) = Some env)
    by (rewrite H; reflexivity).
  destruct (main_monitored true py0 np0 args fuel env (generator_calm_true args) F)
    as (env0 & Hm & Hs & Hmet & _ & _ & _ & Hn & Hstop).
  rewrite Hmet. specialize (Hn Hpos). specialize (Hstop H).
  destruct Hm as [_ _ (m & Hfil & Htime) _ _ _ Hr Hp _ _].
  assert (Hin : In m (events env0)).
  { assert (Hin' : In m (filter is_monitor (events env0)))
      by (rewrite Hfil; left; reflexivity).
    apply filter_In in Hin'. tauto. }
  specialize (Hstop m Hin). unfold monitor_interval in Htime.
  assert (Hu : 0 <= inject_Z (Args.sim_time args)).
  { change 0 with (inject_Z 0). now rewrite <- Zle_Qle. }
  cbn zeta.
  destruct (length (timeline (metrics env0))) as [|n] eqn:El.
  - exfalso. change (inject_Z (Z.of_nat 0)) with 0 in Htime. lra.
  - split; [lia|]. split.
    + cbn [Nat.sub]. rewrite Nat.sub_0_r.
      assert (Hk : (n < length (timeline (metrics env0)))%nat) by lia.
      pose proof (Hr n Hk) as Hnth. unfold monitor_interval in Hnth.
      rewrite <- Hnth.
      rewrite Forall_forall in Hp.
      assert (Hle : nth n (timeline (metrics env0)) 0 <= now env0).
      { apply Hp. apply nth_In. exact Hk. }
      lra.
    + lra.
Qed.

(** X4. When a run of [main] with a horizon that is not negative
    completes, the monitor has sampled up to the horizon: there is at
    least one snapshot, the last one was taken within 5 minutes of the
    horizon and not after it. *)
Theorem snapshots_reach_horizon (R : RandomSource) (py0 : PyState R)
  (np0 : NpState R) (args : Args.t) (fuel : nat) (env : Env R) :
  (0 <= Args.sim_time args)%Z ->
  main R py0 np0 args fuel = Halted env ->
  let n := length (timeline (metrics env)) in
  (1 <= n)%nat
  /\ 5 * inject_Z (Z.of_nat (n - 1)) <= inject_Z (Args.sim_time args)
  /\ inject_Z (Args.sim_time args) <= 5 * inject_Z (Z.of_nat n).
Proof. apply halted_snapshots. Qed.

Lemma snapshots_reach_horizon_witness :
  (0 <= Args.sim_time small_args)%Z
  /\ exists env,
       main table_source 0%nat 0%nat small_args 40 = Halted env
       /\ (1 <= length (timeline (metrics env)))%nat.
Proof.
  assert (Hpos : (0 <= Args.sim_time small_args)%Z) by (cbn; lia).
  split; [exact Hpos|].
  assert (S1 : halted (main table_source 0%nat 0%nat small_args 40) = true)
    by (vm_compute; reflexivity).
  destruct (halted_state _ S1) as [env E].
  exists env. split; [exact E|].
  apply (snapshots_reach_horizon table_source 0%nat 0%nat small_args 40 env
           Hpos E).
Defined.

(** ** Properties of [report] *)

Lemma Qsum_upper (b : Q) (l : list Q) :
  Forall (fun x => x <= b) l ->
  Qsum l <= b * inject_Z (Z.of_nat (length l)).
Proof.
  induction 1 as [|x l Hx _ IH].
  - cbn [length Qsum fold_right Z.of_nat]. change (inject_Z 0) with 0. lra.
  - cbn [length Qsum fold_right]. fold (Qsum l).
    rewrite inject_Z_succ. nra.
Qed.

Lemma Qsum_lower (a : Q) (l : list Q) :
  Forall (fun x => a <= x) l ->
  a * inject_Z (Z.of_nat (length l)) <= Qsum l.
Proof.
  induction 1 as [|x l Hx _ IH].
  - cbn [length Qsum fold_right Z.of_nat]. change (inject_Z 0) with 0. lra.
  - cbn [length Qsum fold_right]. fold (Qsum l).
    rewrite inject_Z_succ. nra.
Qed.

Lemma length_positive (x : Q) (l : list Q) :
  0 < inject_Z (Z.of_nat (length (x :: l))).
Proof. change 0 with (inject_Z 0). rewrite <- Zlt_Qlt. cbn [length]. lia. Qed.

Lemma np_mean_upper (b : Q) (l : list Q) (m : Q) :
  Forall (fun x => x <= b) l -> np_mean l = Some m -> m <= b.
Proof.
  intros Hall Hm. destruct l as [|x l]; [discriminate|].
  cbn [np_mean] in Hm. inversion Hm; subst; clear Hm.
  apply Qle_shift_div_r;
    [exact (length_positive x l) | exact (Qsum_upper b (x :: l) Hall)].
Qed.

Lemma np_mean_lower (a : Q) (l : list Q) (m : Q) :
  Forall (fun x => a <= x) l -> np_mean l = Some m -> a <= m.
Proof.
  intros Hall Hm. destruct l as [|x l]; [discriminate|].
  cbn [np_mean] in Hm. inversion Hm; subst; clear Hm.
  apply Qle_shift_div_l;
    [exact (length_positive x l) | exact (Qsum_lower a (x :: l) Hall)].
Qed.

Lemma report_empty_raises (wait_times : list Q) (metrics : Metrics) :
  wait_times = [] -> report wait_times metrics = NpValueError.
Proof. intros ->. reflexivity. Qed.

(** X5. [report] raises [ValueError] exactly when the wait-time list is
    empty (the maximum of an empty list), whatever the metrics. *)
Theorem report_fails_without_waits (wait_times : list Q) (metrics : Metrics) :
  report wait_times metrics = NpValueError <-> wait_times = [].
Proof.
  split; [|apply report_empty_raises].
  unfold report. destruct wait_times as [|x l]; cbn [np_max np_mean].
  - reflexivity.
  - discriminate.
Qed.

(** X6. When [report] succeeds, the average wait it prints is at most the
    maximum wait it prints, the maximum is the truncation of one of the
    recorded waits that bounds them all, and neither number is negative
    when no recorded wait is. *)
Theorem report_average_below_maximum (wait_times : list Q) (metrics : Metrics)
  (s : Summary) :
  report wait_times metrics = NpOk s ->
  (average_wait s <= maximum_wait s)%Z
  /\ (exists longest,
         In longest wait_times /\ Forall (fun w => w <= longest) wait_times
         /\ maximum_wait s = py_int longest)
  /\ (Forall (fun w => 0 <= w) wait_times ->
      (0 <= average_wait s)%Z /\ (0 <= maximum_wait s)%Z).
Proof.
  unfold report. intro H.
  destruct (np_max wait_times) as [mx|] eqn:Emax; [|discriminate].
  destruct (np_mean wait_times) as [avg|] eqn:Eavg; [|discriminate].
  inversion H; subst; clear H. cbn [average_wait maximum_wait].
  destruct (np_max_spec _ _ Emax) as [Hin Hall].
  pose proof (np_mean_upper mx wait_times avg Hall Eavg) as Hup.
  split; [|split].
  - now apply py_int_monotone.
  - exists mx. repeat split; assumption.
  - intro Hpos.
    pose proof (np_mean_lower 0 wait_times avg Hpos Eavg) as Hlow. split.
    + now apply py_int_nonneg.
    + apply py_int_nonneg. lra.
Qed.

Lemma report_average_below_maximum_witness :
  exists s,
    report [30; 125 # 2; 93] empty_metrics = NpOk s
    /\ average_wait s = 61%Z /\ maximum_wait s = 93%Z
    /\ (average_wait s <= maximum_wait s)%Z.
Proof.
  eexists. split; [reflexivity|]. split; [reflexivity|]. split; [reflexivity|].
  apply (report_average_below_maximum [30; 125 # 2; 93] empty_metrics).
  reflexivity.
Defined.

Lemma np_mean_in_unit (l : list Q) :
  l <> [] -> Forall in_unit l -> percentage (percent (np_mean l)).
Proof.
  intros Hne Hall. destruct (np_mean l) as [m|] eqn:Em.
  - destruct (np_mean_bounds 0 1 l m Hall Em) as [H0 H1].
    exists (100 * m). split; [reflexivity|]. split; lra.
  - destruct l; [contradiction | discriminate].
Qed.

Lemma np_mean_nonnegative (l : list Q) :
  l <> [] -> Forall (fun x => 0 <= x) l -> nonnegative_average (np_mean l).
Proof.
  intros Hne Hall. destruct (np_mean l) as [m|] eqn:Em.
  - exists m. split; [reflexivity|]. now apply (np_mean_lower 0 l m).
  - destruct l; [contradiction | discriminate].
Qed.

Lemma length_nonempty (A : Type) (l l' : list A) :
  length l = length l' -> l' <> [] -> l <> [].
Proof. destruct l, l'; cbn; intros; congruence. Qed.

(** X7. After a completed run of [main] with a horizon that is not
    negative, every average utilization that [report] prints is a number
    between 0 and 100 percent and both average queue lengths are numbers
    that are not negative. *)
Theorem report_percentages_in_range (R : RandomSource) (py0 : PyState R)
  (np0 : NpState R) (args : Args.t) (fuel : nat) (env : Env R) (s : Summary) :
  (0 <= Args.sim_time args)%Z ->
  main R py0 np0 args fuel = Halted env ->
  report (wait_times env) (metrics env) = NpOk s ->
  percentage (average_util_fast_doc s)
  /\ percentage (average_util_fast_nurse s)
  /\ percentage (average_util_ed_doc s)
  /\ percentage (average_util_ed_nurse s)
  /\ percentage (average_util_beds s)
  /\ nonnegative_average (average_queue_fast s)
  /\ nonnegative_average (average_queue_ed s).
Proof.
  intros Hpos H Hrep.
  assert (F : final_state (main R py0 np0 args fuel) = Some env)
    by (rewrite H; reflexivity).
  pose proof (halted_snapshots R py0 np0 args fuel env Hpos H) as [Hn _].
  destruct (main_monitored true py0 np0 args fuel env (generator_calm_true args) F)
    as (env0 & Hm & _ & Hmet & _).
  destruct Hm as [_ _ _ Ha (U1 & U2 & U3 & U4 & U5) (Q1 & Q2) _ _ _ _].
  rewrite <- Hmet in Ha, U1, U2, U3, U4, U5, Q1, Q2.
  assert (Hne : timeline (metrics env) <> []).
  { intro E. rewrite E in Hn. cbn in Hn. lia. }
  unfold report in Hrep.
  destruct (np_max (wait_times env)); [|discriminate].
  destruct (np_mean (wait_times env)); [|discriminate].
  inversion Hrep; subst; clear Hrep.
  cbn [average_util_fast_doc average_util_fast_nurse average_util_ed_doc
       average_util_ed_nurse average_util_beds average_queue_fast
       average_queue_ed].
  repeat split.
  - apply np_mean_in_unit; [|assumption].
    apply (length_nonempty _ _ _ (Ha K_util_fast_doc) Hne).
  - apply np_mean_in_unit; [|assumption].
    apply (length_nonempty _ _ _ (Ha K_util_fast_nurse) Hne).
  - apply np_mean_in_unit; [|assumption].
    apply (length_nonempty _ _ _ (Ha K_util_ed_doc) Hne).
  - apply np_mean_in_unit; [|assumption].
    apply (length_nonempty _ _ _ (Ha K_util_ed_nurse) Hne).
  - apply np_mean_in_unit; [|assumption].
    apply (length_nonempty _ _ _ (Ha K_util_beds) Hne).
  - apply np_mean_nonnegative; [|assumption].
    apply (length_nonempty _ _ _ (Ha K_queue_fast) Hne).
  - apply np_mean_nonnegative; [|assumption].
    apply (length_nonempty _ _ _ (Ha K_queue_ed) Hne).
Qed.

Lemma report_succeeds_state {R : RandomSource} (o : Outcome R) :
  report_succeeds o = true ->
  exists env s, o = Halted env /\ report (wait_times env) (metrics env) = NpOk s.
Proof.
  destruct o as [env|err|env]; try discriminate. cbn [report_succeeds].
  destruct (report (wait_times env) (metrics env)) as [s|] eqn:E; [|discriminate].
  intros _. exists env, s. split; [reflexivity | exact E].
Qed.

Lemma report_percentages_in_range_witness :
  (0 <= Args.sim_time crowded_args)%Z
  /\ exists env s,
       main table_source 0%nat 0%nat crowded_args 100 = Halted env
       /\ report (wait_times env) (metrics env) = NpOk s
       /\ percentage (average_util_beds s).
Proof.
  assert (Hpos : (0 <= Args.sim_time crowded_args)%Z) by (cbn; lia).
  split; [exact Hpos|].
  assert (S1 : report_succeeds (main table_source 0%nat 0%nat crowded_args 100)
               = true) by (vm_compute; reflexivity).
  destruct (report_succeeds_state _ S1) as (env & s & E & Hrep).
  exists env, s. split; [exact E|]. split; [exact Hrep|].
  apply (report_percentages_in_range table_source 0%nat 0%nat crowded_args
           100 env s Hpos E Hrep).
Defined.

(** ** Runs without patients *)

(** X8. With a patient count that is not positive no wait time is ever
    recorded in a run of [main], so that [report] on the results of the
    run raises [ValueError]. *)
Theorem no_patients_no_report (R : RandomSource) (py0 : PyState R)
  (np0 : NpState R) (args : Args.t) (fuel : nat) (env : Env R) :
  (Args.n_patients args <= 0)%Z ->
  final_state (main R py0 np0 args fuel) = Some env ->
  wait_times env = []
  /\ report (wait_times env) (metrics env) = NpValueError.
Proof.
  intros Hn H.
  assert (Hgen : calm false (patient_generator (Args.n_patients args)
                               (Args.arrival_rate args))).
  { unfold patient_generator.
    replace (Z.to_nat (Args.n_patients args)) with 0%nat by lia. exact I. }
  destruct (main_monitored false py0 np0 args fuel env Hgen H)
    as (env0 & Hm & _ & _ & Hw & _).
  destruct Hm as [_ _ _ _ _ _ _ _ _ Hwaits].
  assert (Hw0 : wait_times env = []) by (rewrite Hw; now apply Hwaits).
  split; [exact Hw0|]. now apply report_empty_raises.
Qed.

Lemma no_patients_no_report_witness :
  (Args.n_patients no_patient_args <= 0)%Z
  /\ exists env,
       main table_source 0%nat 0%nat no_patient_args 10 = Halted env
       /\ wait_times env = []
       /\ report (wait_times env) (metrics env) = NpValueError.
Proof.
  assert (Hn : (Args.n_patients no_patient_args <= 0)%Z) by (cbn; lia).
  split; [exact Hn|].
  assert (S1 : halted (main table_source 0%nat 0%nat no_patient_args 10) = true)
    by (vm_compute; reflexivity).
  destruct (halted_state _ S1) as [env E].
  exists env. split; [exact E|].
  apply (no_patients_no_report table_source 0%nat 0%nat no_patient_args 10 env Hn).
  rewrite E. reflexivity.
Defined.

(** ** The arrival generator *)

Lemma code_arrivals_length (n : nat) :
  forall (clock : Q) (ds : list Q), length (code_arrivals clock ds n) = n.
Proof.
  induction n as [|n IH]; intros clock ds; cbn [code_arrivals length].
  - reflexivity.
  - now rewrite IH.
Qed.

Lemma hd_nonnegative (ds : list Q) :
  Forall (fun d => 0 <= d) ds -> 0 <= hd 0 ds.
Proof. destruct 1; cbn [hd]; lra. Qed.

Lemma tl_nonnegative (ds : list Q) :
  Forall (fun d => 0 <= d) ds -> Forall (fun d => 0 <= d) (tl ds).
Proof. destruct 1; cbn [tl]; [constructor | assumption]. Qed.

Lemma code_arrivals_ordered (n : nat) :
  forall (clock : Q) (ds : list Q),
    Forall (fun d => 0 <= d) ds ->
    Forall (fun t => clock <= t) (code_arrivals clock ds n)
    /\ StronglySorted Qle (code_arrivals clock ds n).
Proof.
  induction n as [|n IH]; intros clock ds Hds; cbn [code_arrivals].
  - split; constructor.
  - pose proof (hd_nonnegative ds Hds) as Hd.
    destruct (IH (clock + hd 0 ds) (tl ds) (tl_nonnegative ds Hds)) as [Hall Hs].
    assert (Hall' : Forall (fun t => clock <= t)
                      (code_arrivals (clock + hd 0 ds) (tl ds) n)).
    { eapply Forall_impl; [|exact Hall]. cbn. intros; lra. }
    split.
    + constructor; [lra | exact Hall'].
    + constructor; assumption.
Qed.

(** X9. The arrival generator spawns exactly [n_patients] processes (none
    when the count is not positive), and they are the patients 1 to
    [n_patients] in this order.  When no sampled delay is negative, the
    patients arrive in the order in which they are spawned: the arrival
    times never decrease and none is before the generator starts. *)
Theorem generator_spawns_in_order (n_patients : Z) (rate clock : Q)
  (us es lapses : list Q) (h : Handle) :
  Forall (fun d => 0 <= d) es ->
  let steps :=
    fst (observe (patient_generator n_patients rate) clock us es lapses h) in
  let arrivals := spawn_times steps in
  spawned_processes steps = patients_from 0 (Z.to_nat n_patients)
  /\ length (spawned_processes steps) = Z.to_nat n_patients
  /\ length arrivals = Z.to_nat n_patients
  /\ StronglySorted Qle arrivals
  /\ Forall (fun t => clock <= t) arrivals.
Proof.
  intros Hes steps arrivals. subst arrivals steps. unfold patient_generator.
  rewrite observe_generator, spawn_times_generator, spawned_processes_generator.
  destruct (code_arrivals_ordered (Z.to_nat n_patients) clock es Hes) as [Ha Hs].
  split; [reflexivity|].
  split; [unfold patients_from; now rewrite length_map, length_seq|].
  split; [apply code_arrivals_length|]. split; assumption.
Qed.

Lemma generator_spawns_in_order_witness :
  Forall (fun d => 0 <= d) [3; 0; 2]
  /\ spawned_processes
       (fst (observe (patient_generator 3 10) 1 [] [3; 0; 2] [] 0%nat))
     = [patient 1; patient 2; patient 3]
  /\ spawn_times (fst (observe (patient_generator 3 10) 1 [] [3; 0; 2] [] 0%nat))
     = [1; 1 + 3; 1 + 3 + 0]
  /\ StronglySorted Qle
       (spawn_times
          (fst (observe (patient_generator 3 10) 1 [] [3; 0; 2] [] 0%nat))).
Proof.
  assert (H : Forall (fun d => 0 <= d) [3; 0; 2]).
  { repeat constructor; lra. }
  split; [exact H|]. split; [reflexivity|]. split; [reflexivity|].
  apply (generator_spawns_in_order 3 10 1 [] [3; 0; 2] [] 0%nat H).
Defined.

(** ** The discipline of the processes of [main] *)

Lemma disciplined_holding (p : Proc) :
  forall hd hd', disciplined hd p -> disciplined hd' p -> hd = hd'.
Proof.
  induction p as [ | k IH | k IH | scale k IH | delay t IHt | a p IH
                 | child _ p IH | q k IH | q req p IH | w p IH
                 | q k IH | q k IH | q k IH | key0 v p IH | p IH | i ]
    using Proc_Task_ind
    with (P0 := fun t =>
                  match t with
                  | Resume k =>
                      forall hd hd', disciplined hd k -> disciplined hd' k ->
                                     hd = hd'
                  | MonitorLoop _ => True
                  end);
    try (intros hd hd' H H'; cbn [disciplined] in H, H').
  - congruence.
  - exact (IH 0 _ _ (H 0) (H' 0)).
  - exact (IH 0 _ _ (H 0) (H' 0)).
  - destruct H as [_ H], H' as [_ H'].
    apply (IH 0); [apply H | apply H']; lra.
  - destruct H as [_ H], H' as [_ H']. destruct t as [k|i].
    + eapply IHt; eassumption.
    + destruct H as [-> _], H' as [-> _]. reflexivity.
  - destruct H as [_ H], H' as [_ H']. eapply IH; eassumption.
  - destruct H as [_ H], H' as [_ H']. eapply IH; eassumption.
  - destruct H as [-> _], H' as [-> _]. reflexivity.
  - destruct H as [-> _], H' as [-> _]. reflexivity.
  - eapply IH; eassumption.
  - exact (IH 0%nat _ _ (H 0%nat) (H' 0%nat)).
  - exact (IH 0%nat _ _ (H 0%nat) (H' 0%nat)).
  - exact (IH 0%Z _ _ (H 0%Z) (H' 0%Z)).
  - eapply IH; eassumption.
  - eapply IH; eassumption.
  - exact I.
Qed.

Lemma patient_disciplined_lemma (name : nat) : disciplined None (patient name).
Proof.
  unfold patient, with_request.
  repeat match goal with
         | |- _ /\ _ => split
         | |- forall _, _ => intro
         | |- @eq Holding _ _ => reflexivity
         | |- 0 <= fst (hospital_method _ _ _) => apply hospital_method_nonnegative
         | |- disciplined _ (if ?b then _ else _) => destruct b
         | |- disciplined _ _ => progress cbn [disciplined]
         end.
Qed.

Lemma patient_generator_disciplined (rate : Q) (n : nat) :
  0 <= rate -> forall i, disciplined None (patient_generator_from i n rate).
Proof.
  intro Hr. induction n as [|n IH]; intro i;
    cbn [patient_generator_from disciplined].
  - reflexivity.
  - split; [apply patient_disciplined_lemma|]. split; [exact Hr|].
    intros x Hx. split; [exact Hx | apply IH].
Qed.

Lemma monitor_disciplined (interval : Q) :
  0 <= interval -> disciplined None (monitor interval).
Proof.
  intro Hi. unfold monitor. cbn [disciplined]. intros. repeat split; assumption.
Qed.

Lemma remove_first_In_other (h r : Handle) (l : list Handle) :
  In h l -> h <> r -> In h (remove_first r l).
Proof.
  induction l as [|x l IH]; cbn [remove_first]; [tauto|].
  intros [-> | Hin] Hne.
  - destruct (Nat.eqb r h) eqn:E.
    + apply Nat.eqb_eq in E. congruence.
    + left. reflexivity.
  - destruct (Nat.eqb r x); [assumption|]. right. now apply IH.
Qed.

Lemma scheduled_head_not_in_rest {R : RandomSource} (env : Env R) (e : Event)
  (rest : list Event) :
  scheduled env -> events env = e :: rest -> ~ In e rest.
Proof.
  intros [H1 _ _ _ _] Hev Hin. rewrite Hev in H1.
  apply StronglySorted_inv in H1. destruct H1 as [_ He].
  rewrite Forall_forall in He. specialize (He e Hin).
  unfold key_lt, key in He. cbn [fst snd] in He.
  destruct He as [He | [_ He]]; [lra | lia].
Qed.

Lemma orderly_same {R : RandomSource} (held : Holding) (env env' : Env R) :
  events env' = events env -> hospital env' = hospital env ->
  next_handle env' = next_handle env ->
  orderly held env -> orderly held env'.
Proof.
  intros He Hh Hn [H1 H2 H3 H4 H5 H6 H7 H8 H9 H10 H11 H12 H13].
  constructor; rewrite ?He, ?Hh, ?Hn; assumption.
Qed.

(** Scheduling a disciplined process keeps the state orderly. *)
Lemma orderly_push {R : RandomSource} (held held' hd : Holding) (t : Task)
  (at_time : Q) (env : Env R) :
  orderly held env ->
  disciplined hd (resume t) ->
  (forall q h, hd = Some (q, h) ->
     In h (users (pool (hospital env) q))
     /\ (h < next_handle env)%nat
     /\ (forall e q', In e (events env) -> ~ holds_event e q' h)
     /\ (forall q', ~ In h (waiting (pool (hospital env) q')))) ->
  held' = None
  \/ (held' = held /\ forall q h q', held = Some (q, h) -> hd <> Some (q', h)) ->
  orderly held' (push_event t at_time env).
Proof.
  intros [H1 H2 H3 H4 H5 H6 H7 H8 H9 H10 H11 H12 H13] Hd Hhd Hheld.
  set (new := {| time := at_time; seq := next_seq env; task := t |}).
  assert (Hnew : forall q h, holds_event new q h -> hd = Some (q, h)).
  { intros q h Hh. unfold holds_event in Hh. cbn [new task] in Hh.
    symmetry. eapply disciplined_holding; eassumption. }
  assert (Hin : forall e, In e (events (push_event t at_time env)) ->
                          e = new \/ In e (events env)).
  { intros e He. cbn [push_event events] in He. now apply insert_event_In in He. }
  constructor; cbn [push_event hospital next_handle].
  - intros e He. destruct (Hin e He) as [-> | Hold]; [|now apply H1].
    exists hd. exact Hd.
  - assumption.
  - intros q h Hq. destruct Hheld as [-> | [-> _]]; [discriminate|]. eapply H3; eassumption.
  - intros e q h He Hh. destruct (Hin e He) as [-> | Hold].
    + apply (Hhd q h). now apply Hnew.
    + eapply H4; eassumption.
  - intros q h Hq. destruct Hheld as [-> | [-> _]]; [discriminate|]. eapply H5; eassumption.
  - intros e q h He Hh. destruct (Hin e He) as [-> | Hold].
    + apply (Hhd q h). now apply Hnew.
    + eapply H6; eassumption.
  - assumption.
  - intros e1 e2 q1 q2 h He1 He2 Hh1 Hh2.
    destruct (Hin e1 He1) as [-> | Hold1], (Hin e2 He2) as [-> | Hold2].
    + reflexivity.
    + exfalso. destruct (Hhd q1 h (Hnew _ _ Hh1)) as (_ & _ & Hno & _).
      exact (Hno e2 q2 Hold2 Hh2).
    + exfalso. destruct (Hhd q2 h (Hnew _ _ Hh2)) as (_ & _ & Hno & _).
      exact (Hno e1 q1 Hold1 Hh1).
    + eapply H8; eassumption.
  - intros q h e q' Hq He Hh.
    destruct Hheld as [-> | [-> Hdiff]]; [discriminate|].
    destruct (Hin e He) as [-> | Hold].
    + exact (Hdiff q h q' Hq (Hnew _ _ Hh)).
    + exact (H9 q h e q' Hq Hold Hh).
  - intros q h q' Hq. destruct Hheld as [-> | [-> _]]; [discriminate|].
    eapply H10; eassumption.
  - intros e q h q' He Hh. destruct (Hin e He) as [-> | Hold].
    + apply (Hhd q h). now apply Hnew.
    + eapply H11; eassumption.
  - assumption.
  - assumption.
Qed.

(** The running process suspends: its continuation takes over what it
    holds. *)
Lemma orderly_suspend {R : RandomSource} (held : Holding) (t : Task)
  (at_time : Q) (env : Env R) :
  orderly held env -> disciplined held (resume t) ->
  orderly None (push_event t at_time env).
Proof.
  intros Ho Hd. apply (orderly_push held None held); try assumption.
  - intros q h Hq. destruct Ho as [H1 H2 H3 H4 H5 H6 H7 H8 H9 H10 H11 H12 H13].
    split; [eapply H3; eassumption|]. split; [eapply H5; eassumption|].
    split.
    + intros e q' He. eapply H9; eassumption.
    + intros q'. eapply H10; eassumption.
  - left. reflexivity.
Qed.

(** The running process starts another one, which holds nothing. *)
Lemma orderly_spawn {R : RandomSource} (held : Holding) (t : Task)
  (at_time : Q) (env : Env R) :
  orderly held env -> disciplined None (resume t) ->
  orderly held (push_event t at_time env).
Proof.
  intros Ho Hd. apply (orderly_push held held None); try assumption.
  - discriminate.
  - right. split; [reflexivity|]. discriminate.
Qed.

(** A request that is granted: the running process now holds the new
    handle. *)
Lemma orderly_granted {R : RandomSource} (q : PoolName) (env : Env R) :
  orderly None env ->
  orderly (Some (q, next_handle env))
    (set_hospital
       (set_pool (hospital env) q
          {| capacity := capacity (pool (hospital env) q);
             users := users (pool (hospital env) q) ++ [next_handle env];
             queue := queue (pool (hospital env) q) |})
       (fresh_handle env)).
Proof.
  intros [H1 H2 H3 H4 H5 H6 H7 H8 H9 H10 H11 H12 H13].
  assert (Hq : forall q',
             queue (pool (set_pool (hospital env) q
                            {| capacity := capacity (pool (hospital env) q);
                               users := users (pool (hospital env) q)
                                        ++ [next_handle env];
                               queue := queue (pool (hospital env) q) |}) q')
             = queue (pool (hospital env) q')).
  { intro q'. destruct (PoolName_eq_dec q q') as [<-|Hne].
    - now rewrite pool_set_pool_same.
    - now rewrite pool_set_pool_other. }
  assert (Hu : forall q' x,
             In x (users (pool (hospital env) q')) ->
             In x (users (pool (set_pool (hospital env) q
                                  {| capacity := capacity (pool (hospital env) q);
                                     users := users (pool (hospital env) q)
                                              ++ [next_handle env];
                                     queue := queue (pool (hospital env) q) |})
                            q'))).
  { intros q' x Hx. destruct (PoolName_eq_dec q q') as [<-|Hne].
    - rewrite pool_set_pool_same. cbn [users]. apply in_or_app. now left.
    - now rewrite pool_set_pool_other. }
  constructor; cbn [set_hospital fresh_handle events hospital next_handle];
    unfold waiting in *; try (setoid_rewrite Hq); try assumption.
  - intros q0 h0 E. inversion E; subst. rewrite pool_set_pool_same.
    cbn [users]. apply in_or_app. right. left. reflexivity.
  - intros e q0 h0 He Hh. apply Hu. eapply H4; eassumption.
  - intros q0 h0 E. inversion E; subst. lia.
  - intros e q0 h0 He Hh. specialize (H6 e q0 h0 He Hh). lia.
  - intros q0 h0 Hin. specialize (H7 q0 h0 Hin). lia.
  - intros q0 h0 e q' E He Hh. inversion E; subst.
    specialize (H6 e q' _ He Hh). lia.
  - intros q0 h0 q' E Hin. inversion E; subst.
    specialize (H7 q' _ Hin). lia.
Qed.

(** A request that is parked: the caller waits with the new handle. *)
Lemma orderly_parked {R : RandomSource} (q : PoolName) (cont : Proc) (env : Env R) :
  orderly None env ->
  disciplined (Some (q, next_handle env)) cont ->
  orderly None
    (set_hospital
       (set_pool (hospital env) q
          {| capacity := capacity (pool (hospital env) q);
             users := users (pool (hospital env) q);
             queue := queue (pool (hospital env) q)
                      ++ [(next_handle env, cont)] |})
       (fresh_handle env)).
Proof.
  intros [H1 H2 H3 H4 H5 H6 H7 H8 H9 H10 H11 H12 H13] Hd.
  set (h' := set_pool (hospital env) q
               {| capacity := capacity (pool (hospital env) q);
                  users := users (pool (hospital env) q);
                  queue := queue (pool (hospital env) q)
                           ++ [(next_handle env, cont)] |}).
  assert (Hu : forall q', users (pool h' q') = users (pool (hospital env) q')).
  { intro q'. unfold h'. destruct (PoolName_eq_dec q q') as [<-|Hne].
    - now rewrite pool_set_pool_same.
    - now rewrite pool_set_pool_other. }
  assert (Hq : forall q' w,
             In w (queue (pool h' q')) ->
             In w (queue (pool (hospital env) q'))
             \/ (q' = q /\ w = (next_handle env, cont))).
  { intros q' w Hw. unfold h' in Hw. destruct (PoolName_eq_dec q q') as [<-|Hne].
    - rewrite pool_set_pool_same in Hw. cbn [queue] in Hw.
      apply in_app_or in Hw. destruct Hw as [Hw | [<- | []]]; [now left|].
      right. split; reflexivity.
    - rewrite pool_set_pool_other in Hw by assumption. now left. }
  assert (Hw : forall q' x,
             In x (waiting (pool h' q')) ->
             In x (waiting (pool (hospital env) q'))
             \/ (q' = q /\ x = next_handle env)).
  { intros q' x Hx. unfold waiting in *. apply in_map_iff in Hx.
    destruct Hx as (w & <- & Hin). destruct (Hq q' w Hin) as [Hold | [-> ->]].
    - left. apply in_map. exact Hold.
    - right. split; reflexivity. }
  constructor; cbn [set_hospital fresh_handle events hospital next_handle];
    fold h'; try assumption; try discriminate.
  - intros q' w Hin. destruct (Hq q' w Hin) as [Hold | [-> ->]].
    + now apply H2.
    + exact Hd.
  - intros e q0 h0 He Hh. rewrite Hu. eapply H4; eassumption.
  - intros e q0 h0 He Hh. specialize (H6 e q0 h0 He Hh). lia.
  - intros q0 h0 Hin. destruct (Hw q0 h0 Hin) as [Hold | [-> ->]].
    + specialize (H7 q0 h0 Hold). lia.
    + lia.
  - intros e q0 h0 q' He Hh Hin. destruct (Hw q' h0 Hin) as [Hold | [-> ->]].
    + exact (H11 e q0 h0 q' He Hh Hold).
    + specialize (H6 e q0 _ He Hh). lia.
  - intro q'. unfold h'. destruct (PoolName_eq_dec q q') as [<-|Hne].
    + rewrite pool_set_pool_same. unfold waiting. cbn [queue].
      rewrite map_app. cbn [map fst]. apply NoDup_snoc; [apply H12|].
      intro Hin. specialize (H7 q _ Hin). lia.
    + rewrite pool_set_pool_other by assumption. apply H12.
  - intros q1 q2 h0 Hin1 Hin2.
    destruct (Hw q1 h0 Hin1) as [Hold1 | [E1 E1']],
             (Hw q2 h0 Hin2) as [Hold2 | [E2 E2']].
    + eapply H13; eassumption.
    + subst h0. specialize (H7 q1 _ Hold1). lia.
    + subst h0. specialize (H7 q2 _ Hold2). lia.
    + congruence.
Qed.

Lemma waiting_release_tail (r r' : Resource) :
  queue r' = tl (queue r) -> waiting r' = tl (waiting r).
Proof. unfold waiting. intros ->. destruct (queue r); reflexivity. Qed.

Lemma release_succeeds (h : Handle) (r : Resource) :
  In h (users r) -> exists r' w, release h r = Ok (r', w).
Proof.
  intro Hin. unfold release. apply existsb_eqb_In in Hin. rewrite Hin.
  destruct (queue r); eexists; eexists; reflexivity.
Qed.

(** A release by the process that holds the unit: afterwards it holds
    nothing, and the head of the wait list, if any, is admitted and
    owned by nobody else. *)
Lemma orderly_released {R : RandomSource} (q : PoolName) (req : Handle)
  (env : Env R) (r' : Resource) (w : option (Handle * Proc)) :
  orderly (Some (q, req)) env ->
  release req (pool (hospital env) q) = Ok (r', w) ->
  orderly None (set_hospital (set_pool (hospital env) q r') env)
  /\ (forall x, w = Some x ->
        disciplined (Some (q, fst x)) (snd x)
        /\ In (fst x) (users (pool (set_pool (hospital env) q r') q))
        /\ (fst x < next_handle env)%nat
        /\ (forall e q', In e (events env) -> ~ holds_event e q' (fst x))
        /\ (forall q', ~ In (fst x)
                         (waiting (pool (set_pool (hospital env) q r') q')))).
Proof.
  intros [H1 H2 H3 H4 H5 H6 H7 H8 H9 H10 H11 H12 H13] Hrel.
  apply release_ok in Hrel. destruct Hrel as (Hin & Hcap & Hq & Hw & Hu).
  set (h' := set_pool (hospital env) q r').
  assert (Hqueue : forall q' x,
             In x (queue (pool h' q')) -> In x (queue (pool (hospital env) q'))).
  { intros q' x Hx. unfold h' in Hx. destruct (PoolName_eq_dec q q') as [<-|Hne].
    - rewrite pool_set_pool_same, Hq in Hx.
      destruct (queue (pool (hospital env) q)); [destruct Hx | now right].
    - now rewrite pool_set_pool_other in Hx. }
  assert (Hwait : forall q' x,
             In x (waiting (pool h' q')) ->
             In x (waiting (pool (hospital env) q'))).
  { intros q' x Hx. unfold waiting in *. apply in_map_iff in Hx.
    destruct Hx as (y & <- & Hy). apply in_map. now apply Hqueue. }
  assert (Husers : forall q' x,
             In x (users (pool (hospital env) q')) -> x <> req ->
             In x (users (pool h' q'))).
  { intros q' x Hx Hne. unfold h'. destruct (PoolName_eq_dec q q') as [<-|Hneq].
    - rewrite pool_set_pool_same, Hu. apply in_or_app. left.
      now apply remove_first_In_other.
    - now rewrite pool_set_pool_other. }
  split.
  - constructor; cbn [set_hospital events hospital next_handle]; fold h';
      try assumption; try discriminate.
    + intros q' x Hx. apply H2. now apply Hqueue.
    + intros e q0 h0 He Hh. apply Husers; [eapply H4; eassumption|].
      intros ->. exact (H9 q req e q0 eq_refl He Hh).
    + intros q0 h0 Hx. apply (H7 q0). now apply Hwait.
    + intros e q0 h0 q' He Hh Hx. apply (H11 e q0 h0 q' He Hh). now apply Hwait.
    + intro q'. unfold h'. destruct (PoolName_eq_dec q q') as [<-|Hne].
      * rewrite pool_set_pool_same. rewrite (waiting_release_tail _ _ Hq).
        apply NoDup_tl. apply H12.
      * rewrite pool_set_pool_other by assumption. apply H12.
    + intros q1 q2 h0 Hx1 Hx2. apply (H13 q1 q2 h0); now apply Hwait.
  - intros x ->.
    destruct (queue (pool (hospital env) q)) as [|y ys] eqn:Eq; [discriminate|].
    cbn [hd_error] in Hw. inversion Hw; subst y; clear Hw.
    assert (Hxq : In x (queue (pool (hospital env) q)))
      by (rewrite Eq; left; reflexivity).
    assert (Hxw : In (fst x) (waiting (pool (hospital env) q))).
    { unfold waiting. apply in_map. exact Hxq. }
    split; [now apply H2|]. split.
    + unfold h'. rewrite pool_set_pool_same, Hu. apply in_or_app. right.
      left. reflexivity.
    + split; [now apply (H7 q)|]. split.
      * intros e q' He Hh. exact (H11 e q' (fst x) q He Hh Hxw).
      * intros q' Hx. fold h' in Hx.
        destruct (PoolName_eq_dec q q') as [<-|Hne].
        -- unfold h' in Hx. rewrite pool_set_pool_same in Hx.
           pose proof (H12 q) as Hnd. unfold waiting in Hnd, Hx.
           rewrite Hq in Hx. rewrite Eq in Hnd. cbn [map tl] in Hnd, Hx.
           inversion Hnd; subst. contradiction.
        -- apply Hwait in Hx. apply Hne. symmetry.
           exact (H13 q' q (fst x) Hx Hxw).
Qed.

Lemma do_release_orderly {R : RandomSource} (q : PoolName) (req : Handle)
  (env : Env R) :
  orderly (Some (q, req)) env ->
  exists env', do_release q req env = Ok env' /\ orderly None env'.
Proof.
  intro Ho.
  assert (Hin : In req (users (pool (hospital env) q))).
  { destruct Ho as [_ _ H3 _ _ _ _ _ _ _ _ _ _]. now apply H3. }
  destruct (release_succeeds req _ Hin) as (r' & w & Hrel).
  destruct (orderly_released q req env r' w Ho Hrel) as [Ho' Hw].
  unfold do_release. rewrite Hrel. destruct w as [x|].
  - rewrite schedule_after_zero. eexists. split; [reflexivity|].
    destruct (Hw x eq_refl) as (Hd & Hu & Hf & He & Hnw).
    apply (orderly_push None None (Some (q, fst x))); try assumption.
    + intros q0 h0 E. inversion E; subst. repeat split; assumption.
    + left. reflexivity.
  - eexists. split; [reflexivity | exact Ho'].
Qed.

(** A disciplined process runs to its next suspension without raising,
    and leaves the state orderly. *)
Lemma exec_orderly {R : RandomSource} (p : Proc) :
  exponential_nonnegative R ->
  forall (held : Holding) (env : Env R),
    disciplined held p -> orderly held env ->
    exists env', exec p env = Ok env' /\ orderly None env'.
Proof.
  intro Hexp.
  induction p as [ | k IH | k IH | scale k IH | delay t | a p IH
                 | child _ p IH | q k IH | q req p IH | w p IH
                 | q k IH | q k IH | q k IH | key0 v p IH ];
    intros held env Hd Ho; cbn [exec]; cbn [disciplined] in Hd.
  - subst held. exists env. split; [reflexivity | assumption].
  - apply (IH _ held); [apply Hd | exact Ho].
  - destruct (py_random R (py_rng env)) as [u g].
    apply (IH _ held); [apply Hd|]. revert Ho. now apply orderly_same.
  - destruct Hd as [Hs Hd]. pose proof (Hexp scale (np_rng env) Hs) as Hx.
    destruct (np_exponential R scale (np_rng env)) as [x g]. cbn [fst] in Hx.
    apply (IH _ held); [now apply Hd|]. revert Ho. now apply orderly_same.
  - destruct Hd as [Hdelay Hd]. unfold schedule_after.
    apply Qltb_false_iff in Hdelay. rewrite Hdelay.
    eexists. split; [reflexivity|].
    apply (orderly_suspend held); [exact Ho|].
    destruct t as [k|i]; cbn [resume]; [exact Hd|].
    destruct Hd as [-> Hi]. now apply monitor_disciplined.
  - destruct Hd as [Hmethod Hd].
    pose proof (Hmethod R (np_rng env)) as Hdelay.
    destruct (hospital_method R a (np_rng env)) as [d g]. cbn [fst] in Hdelay.
    unfold schedule_after. apply Qltb_false_iff in Hdelay. rewrite Hdelay.
    eexists. split; [reflexivity|].
    apply (orderly_suspend held); [|exact Hd].
    revert Ho. now apply orderly_same.
  - destruct Hd as [Hc Hd]. rewrite schedule_after_zero.
    apply (IH held); [exact Hd|]. now apply orderly_spawn.
  - destruct Hd as [-> Hd]. unfold do_request, acquire.
    destruct (_ <? _)%Z.
    + apply (IH _ (Some (q, next_handle env))); [apply Hd|].
      now apply orderly_granted.
    + eexists. split; [reflexivity|]. apply orderly_parked; [exact Ho | apply Hd].
  - destruct Hd as [-> Hd].
    destruct (do_release_orderly q req env Ho) as (env1 & -> & Ho1).
    now apply (IH None).
  - apply (IH held); [exact Hd|]. revert Ho. now apply orderly_same.
  - apply (IH _ held); [apply Hd | exact Ho].
  - apply (IH _ held); [apply Hd | exact Ho].
  - apply (IH _ held); [apply Hd | exact Ho].
  - apply (IH held); [exact Hd|]. revert Ho. now apply orderly_same.
Qed.

(** The process of the earliest event takes over what the event held. *)
Lemma orderly_pop {R : RandomSource} (hd : Holding) (env : Env R) (e : Event)
  (rest : list Event) :
  orderly None env -> scheduled env -> events env = e :: rest ->
  disciplined hd (resume (task e)) ->
  orderly hd (set_clock (time e) rest ((time e, seq e) :: trace env) env).
Proof.
  intros [H1 H2 H3 H4 H5 H6 H7 H8 H9 H10 H11 H12 H13] Hs Hev Hd.
  pose proof (scheduled_head_not_in_rest env e rest Hs Hev) as Hnot.
  assert (He : In e (events env)) by (rewrite Hev; left; reflexivity).
  assert (Hrest : forall x, In x rest -> In x (events env))
    by (intros x Hx; rewrite Hev; right; exact Hx).
  constructor; cbn [set_clock events hospital next_handle]; try assumption.
  - intros x Hx. apply H1. now apply Hrest.
  - intros q h E. subst hd. exact (H4 e q h He Hd).
  - intros x q h Hx Hh. eapply H4; [apply Hrest|]; eassumption.
  - intros q h E. subst hd. exact (H6 e q h He Hd).
  - intros x q h Hx Hh. eapply H6; [apply Hrest|]; eassumption.
  - intros e1 e2 q1 q2 h He1 He2. apply H8; now apply Hrest.
  - intros q h x q' E Hx Hh. subst hd.
    assert (x = e) by (apply (H8 x e q' q h); auto).
    subst x. contradiction.
  - intros q h q' E. subst hd. exact (H11 e q h q' He Hd).
  - intros x q h q' Hx Hh. eapply H11; [apply Hrest|]; eassumption.
Qed.

(** A turn of the scheduler in an orderly state never raises. *)
Lemma step_orderly {R : RandomSource} (until : Q) (env : Env R) :
  exponential_nonnegative R ->
  orderly None env -> scheduled env ->
  match step until env with
  | Continue env' => orderly None env'
  | Stop _ => True
  | Crash _ => False
  end.
Proof.
  intros Hexp Ho Hs. unfold step.
  destruct (events env) as [|e rest] eqn:Hev; [exact I|].
  destruct (Qltb until (time e)); [exact I|].
  assert (He : In e (events env)) by (rewrite Hev; left; reflexivity).
  destruct Ho as [H1 H2 H3 H4 H5 H6 H7 H8 H9 H10 H11 H12 H13].
  destruct (H1 e He) as [hd Hd].
  assert (Hpop : orderly hd (set_clock (time e) rest
                               ((time e, seq e) :: trace env) env)).
  { apply orderly_pop; try assumption. now constructor. }
  destruct (exec_orderly (resume (task e)) Hexp hd _ Hd Hpop) as (env' & -> & Ho').
  exact Ho'.
Qed.

Lemma run_orderly {R : RandomSource} (until : Q) (fuel : nat) :
  exponential_nonnegative R ->
  forall env : Env R,
    orderly None env -> scheduled env ->
    match run fuel until env with
    | Raised _ => False
    | Halted _ => True
    | OutOfFuel env' => orderly None env'
    end.
Proof.
  intro Hexp. induction fuel as [|fuel IH]; intros env Ho Hs; cbn [run].
  - exact Ho.
  - pose proof (step_orderly until env Hexp Ho Hs) as Hstep.
    destruct (step until env) as [env1|env1|err] eqn:St.
    + apply IH; [exact Hstep|].
      now destruct (step_scheduled until env env1 Hs St).
    + exact I.
    + exact Hstep.
Qed.

(** The state from which [main] runs is orderly. *)
Lemma setup_orderly {R : RandomSource} (py0 : PyState R) (np0 : NpState R)
  (args : Args.t) (env : Env R) :
  0 <= Args.arrival_rate args ->
  setup R py0 np0 args = Ok env ->
  orderly None env.
Proof.
  intros Hrate Hsetup.
  pose proof (setup_state py0 np0 args env Hsetup) as (_ & _ & _ & Hqs).
  unfold setup in Hsetup.
  destruct (Hospital_init _ _ _ _ _) as [h|err] eqn:Eh; [|discriminate].
  rewrite !schedule_after_zero in Hsetup. inversion Hsetup; subst; clear Hsetup.
  cbn [push_event hospital] in Hqs.
  apply orderly_spawn; [apply orderly_spawn|].
  - constructor; cbn [events hospital next_handle]; try discriminate;
      try (intros; contradiction).
    + intros q w Hw. rewrite Hqs in Hw. destruct Hw.
    + intros q x Hx. unfold waiting in Hx. rewrite Hqs in Hx. destruct Hx.
    + intro q. unfold waiting. rewrite Hqs. constructor.
    + intros q1 q2 x Hx. unfold waiting in Hx. rewrite Hqs in Hx. destruct Hx.
  - cbn [resume]. unfold patient_generator.
    now apply patient_generator_disciplined.
  - cbn [resume]. apply monitor_disciplined. unfold monitor_interval. lra.
Qed.

(** With positive capacities the set-up of [main] succeeds. *)
Lemma setup_succeeds {R : RandomSource} (py0 : PyState R) (np0 : NpState R)
  (args : Args.t) :
  (0 < Args.fast_doctors args)%Z -> (0 < Args.fast_nurses args)%Z ->
  (0 < Args.ed_doctors args)%Z -> (0 < Args.ed_nurses args)%Z ->
  (0 < Args.beds args)%Z ->
  exists env, setup R py0 np0 args = Ok env.
Proof.
  intros H1 H2 H3 H4 H5. unfold setup.
  destruct (Hospital_init _ _ _ _ _) as [h|err] eqn:Eh.
  - rewrite !schedule_after_zero. eexists. reflexivity.
  - apply Hospital_init_fail in Eh. lia.
Qed.

(** The tabulated exponential variates are not negative. *)
Lemma table_get_nonnegative (tbl : list Q) (n : nat) :
  Forall (fun x => 0 <= x) tbl -> 0 <= table_get tbl n.
Proof.
  intro H. unfold table_get.
  destruct (nth_in_or_default (n mod length tbl) tbl 0) as [Hin | ->]; [|lra].
  rewrite Forall_forall in H. now apply H.
Qed.

Lemma table_source_exponential_nonnegative : exponential_nonnegative table_source.
Proof.
  intros scale g Hs. cbn [np_exponential table_source fst].
  apply Qmult_le_0_compat; [exact Hs|].
  apply table_get_nonnegative. unfold exponential_table.
  repeat (constructor; [lra|]). constructor.
Qed.

(** X10. A patient uses the pools one at a time, whatever its random draws
    and whatever handles it is given: it requests a unit only while it
    holds none, the only release it makes is of the unit it holds, and it
    holds nothing when it returns.  No delay it asks for is negative: its
    only delays are those of the [Hospital] methods, each of which is at
    least the floor of the method, whatever normal variate is drawn. *)
Theorem patient_one_unit_at_a_time (name : nat) :
  disciplined None (patient name)
  /\ (forall (R : RandomSource) (a : Activity) (g : NpState R),
         0 <= fst (hospital_method R a g)
         /\ snd (spec_parameters a) <= fst (hospital_method R a g)).
Proof.
  split; [apply patient_disciplined_lemma|].
  intros R a g. split; [apply hospital_method_nonnegative|].
  destruct a; cbn [hospital_method spec_parameters fst snd];
    unfold consult, medication, review, admit_, fast_lab, fast_lab_wait,
      ed_lab_wait, ed_lab;
    match goal with
    | |- context [np_normal R ?m ?s g] => destruct (np_normal R m s g) as [x g']
    end;
    cbn [fst]; apply py_max_floor.
Qed.

(** X11. With five positive capacities, a positive horizon, an arrival
    rate that is not negative and exponential variates that are not
    negative, the simulation that [main] sets up and runs (up to the end
    of [env.run]) raises no error: after any number of events it has
    either completed or is still running. *)
Theorem main_never_raises (R : RandomSource) (py0 : PyState R)
  (np0 : NpState R) (args : Args.t) (fuel : nat) :
  exponential_nonnegative R ->
  0 <= Args.arrival_rate args ->
  (0 < Args.sim_time args)%Z ->
  (0 < Args.fast_doctors args)%Z -> (0 < Args.fast_nurses args)%Z ->
  (0 < Args.ed_doctors args)%Z -> (0 < Args.ed_nurses args)%Z ->
  (0 < Args.beds args)%Z ->
  exists env : Env R,
    main R py0 np0 args fuel = Halted env
    \/ main R py0 np0 args fuel = OutOfFuel env.
Proof.
  intros Hexp Hrate _ H1 H2 H3 H4 H5.
  destruct (setup_succeeds py0 np0 args H1 H2 H3 H4 H5) as [env0 Hsetup].
  pose proof (setup_orderly py0 np0 args env0 Hrate Hsetup) as Ho.
  pose proof (setup_state py0 np0 args env0 Hsetup) as (_ & Hs & _).
  pose proof (run_orderly (inject_Z (Args.sim_time args)) fuel Hexp env0 Ho Hs)
    as Hrun.
  unfold main. rewrite Hsetup.
  destruct (run fuel (inject_Z (Args.sim_time args)) env0) as [env|err|env].
  - exists env. left. reflexivity.
  - contradiction.
  - exists env. right. reflexivity.
Qed.

Lemma main_never_raises_witness :
  exists env : Env table_source,
    main table_source 0%nat 0%nat small_args 40 = Halted env
    \/ main table_source 0%nat 0%nat small_args 40 = OutOfFuel env.
Proof.
  apply (main_never_raises table_source 0%nat 0%nat small_args 40).
  - exact table_source_exponential_nonnegative.
  - cbn [Args.arrival_rate small_args]. lra.
  - reflexivity.
  - reflexivity.
  - reflexivity.
  - reflexivity.
  - reflexivity.
  - reflexivity.
Defined.
